(** * projet_notes: the feature pipeline of [control.py]

    A shallow embedding of the aggregation functions, of the feature
    composer [creer_df], of the split into training and test sets and of
    the three post-processing transforms, with the properties of the
    design document checked against them.

    Conventions of the embedding.
    - A pandas [DataFrame] is a list of named, typed columns and a list of
      rows, every row carrying its index label.
    - The event log [df_logs] is read through the columns the code names
      ([pseudo], [jour], [heure], [heures], [composant],
      [contexte_general], [evenement]); these are the fields of [Event].
      Columns that the code writes into [df_logs] live in [helper], so a
      function that assigns a column returns the log table next to its
      result.
    - [groupby] sorts its keys and keeps the rows of a group in their
      order; [merge] and [reset_index] number the rows afresh; [join]
      aligns on index labels.
    - An exception is [None].
    - [float64] values are rationals ([Q]), NaN is [CNaN].  The
      aggregators are read over exact rationals; the one irrational
      operation, the square root of the standard deviation, is a parameter
      [sqrt_float], and the correlation coefficient of two columns is a
      parameter [corr].  The scaler is read in float64 arithmetic: every
      operation is rounded by [round_float64], to the nearest number of 53
      significant bits, ties to even (overflow and underflow are outside
      the model).
    - What Python makes of a text is a parameter: [float_of_string] is the
      conversion of a text to float64, [str_float] the text of a float.
    - A calendar day is the number of days since 1970-01-01, a timestamp a
      number of seconds, a clock time its hour, minute and second.
    - The shuffle of [train_test_split] is a parameter [permutation]: the
      permutation of the positions that the seeded generator draws. *)

From Stdlib Require Import List String Ascii ZArith QArith Qabs Qminmax Qfield Lqa Bool Lia.
From Stdlib Require Import Qpower Qround DecimalString.
From Stdlib Require Import Permutation Sorted Orders Mergesort FinFun.
Import ListNotations.

Local Open Scope Z_scope.
Local Open Scope list_scope.

(** ** Orders used by pandas when it sorts group keys *)

Lemma Z_leb_total (a1 a2 : Z) : Z.leb a1 a2 = true \/ Z.leb a2 a1 = true.
Proof. rewrite !Z.leb_le. lia. Qed.

Module StringOrder <: TotalLeBool.
Definition t := string.
Definition leb := String.leb.
Definition leb_total : forall a1 a2, leb a1 a2 = true \/ leb a2 a1 = true :=
  String.leb_total.
End StringOrder.

Module ZOrder <: TotalLeBool.
Definition t := Z.
Definition leb := Z.leb.
Definition leb_total : forall a1 a2, leb a1 a2 = true \/ leb a2 a1 = true :=
  Z_leb_total.
End ZOrder.

Module StringSort := Sort StringOrder.
Module ZSort := Sort ZOrder.

(** ** Tables *)

Inductive dtype := object | int64 | float64 | bool_.

Inductive cell :=
| CStr (s : string)
| CInt (z : Z)
| CFloat (q : Q)
| CBool (b : bool)
| CNaN.

Record DataFrame := mkDataFrame {
  columns : list (string * dtype);
  rows : list (Z * list cell)
}.

Record clock := mkClock { hour : Z; minute : Z; second : Z }.

Record Event := mkEvent {
  pseudo : string;
  jour : Z;
  heure : Z;
  heures : clock;
  composant : string;
  contexte_general : string;
  evenement : string
}.

Record Logs := mkLogs {
  events : list Event;
  helper : list (string * list cell)
}.

Definition dtype_eqb (a b : dtype) : bool :=
  match a, b with
  | object, object | int64, int64 | float64, float64 | bool_, bool_ => true
  | _, _ => false
  end.

Definition cell_eqb (a b : cell) : bool :=
  match a, b with
  | CStr x, CStr y => String.eqb x y
  | CInt x, CInt y => Z.eqb x y
  | CFloat x, CFloat y => Qeq_bool x y
  | CBool x, CBool y => Bool.eqb x y
  | CNaN, CNaN => true
  | _, _ => false
  end.

(** A fresh [RangeIndex]: labels 0, 1, 2, ... *)
Definition range_index {A : Type} (l : list A) : list (Z * A) :=
  combine (map Z.of_nat (seq 0 (List.length l))) l.

Definition column_names (df : DataFrame) : list string := map fst (columns df).

(** Position of the first column called [name]. *)
Fixpoint find_col (name : string) (cols : list (string * dtype)) : option nat :=
  match cols with
  | [] => None
  | c :: cs => if String.eqb (fst c) name then Some O
               else option_map S (find_col name cs)
  end.

(** [df.loc[df.pseudo == s, col]], first hit: the value of column [col] in
    the first row whose [pseudo] cell is [s]. *)
Definition cell_at (df : DataFrame) (s : string) (col : string) : option cell :=
  match find_col "pseudo" (columns df), find_col col (columns df) with
  | Some i, Some j =>
      match find (fun r => cell_eqb (nth i (snd r) CNaN) (CStr s)) (rows df) with
      | Some r => nth_error (snd r) j
      | None => None
      end
  | _, _ => None
  end.

(** ** Grouping *)

Definition unique_sorted (l : list string) : list string :=
  StringSort.sort (nodup string_dec l).

Definition unique_sorted_Z (l : list Z) : list Z :=
  ZSort.sort (nodup Z.eq_dec l).

(** [groupby(key)]: the groups in sorted key order, each with its rows in
    their original order. *)
Definition groupby {A : Type} (key : A -> string) (l : list A)
  : list (string * list A) :=
  map (fun k => (k, filter (fun a => String.eqb (key a) k) l))
      (unique_sorted (map key l)).

(** Reduce every group: the Series indexed by [pseudo]. *)
Definition agg {A B : Type} (f : list A -> B) (g : list (string * list A))
  : list (string * B) :=
  map (fun kv => (fst kv, f (snd kv))) g.

(** [.reset_index(name=...)] on a Series indexed by [pseudo]. *)
Definition reset_index (name : string) (dt : dtype) (s : list (string * cell))
  : DataFrame :=
  {| columns := [("pseudo"%string, object); (name, dt)];
     rows := range_index (map (fun kv => [CStr (fst kv); snd kv]) s) |}.

(** ** Reductions *)

Definition size {A : Type} (l : list A) : Z := Z.of_nat (List.length l).

Definition Qsum (l : list Q) : Q := fold_right Qplus 0%Q l.

(** [mean]: NaN on an empty selection. *)
Definition mean (l : list Q) : cell :=
  match l with
  | [] => CNaN
  | _ => CFloat (Qsum l / inject_Z (size l))%Q
  end.

Definition Zmax_list (l : list Z) : Z := fold_right Z.max (hd 0 l) l.
Definition Zmin_list (l : list Z) : Z := fold_right Z.min (hd 0 l) l.

Definition max_ (l : list Z) : cell :=
  match l with
  | [] => CNaN
  | _ => CInt (Zmax_list l)
  end.

Definition Qmean (l : list Q) : Q := (Qsum l / inject_Z (size l))%Q.

(** Sum of squared deviations from the mean. *)
Definition ssd (l : list Q) : Q :=
  Qsum (map (fun x => ((x - Qmean l) * (x - Qmean l))%Q) l).

(** [std], the sample standard deviation (ddof = 1): the variance divides by
    [n - 1], so one observation gives 0/0, which is NaN. *)
Definition std (sqrt_float : Q -> Q) (l : list Q) : cell :=
  if (size l <=? 1) then CNaN
  else CFloat (sqrt_float (ssd l / inject_Z (size l - 1)%Z)%Q).

Definition nunique_Z (l : list Z) : Z := size (nodup Z.eq_dec l).
Definition nunique (l : list string) : Z := size (nodup string_dec l).

Definition Q_of_bool (b : bool) : Q := if b then 1%Q else 0%Q.

(** ** The aggregators (features) *)

(** *** General *)

Definition nb_actions (df_logs : Logs) : DataFrame :=
  reset_index "nb_actions" int64
    (agg (fun g => CInt (size g)) (groupby pseudo (events df_logs))).

(** *** Days *)

(** [df_logs.groupby(['pseudo', 'jour'])[...].agg(f)]: one row per
    (pseudo, jour), sorted by pseudo, then by jour. *)
Definition groupby_pseudo_jour {B : Type} (f : list Event -> B)
  (evs : list Event) : list (string * (Z * B)) :=
  flat_map
    (fun kv =>
       map (fun d => (fst kv, (d, f (filter (fun e => jour e =? d) (snd kv)))))
           (unique_sorted_Z (map jour (snd kv))))
    (groupby pseudo evs).

(** [df_logs.groupby(['pseudo', 'jour']).size().reset_index(name='nb')] *)
Definition actions_par_jour (evs : list Event) : list (string * (Z * Z)) :=
  groupby_pseudo_jour size evs.

Definition nb (r : string * (Z * Z)) : Z := snd (snd r).

Definition moyenne_actions_par_jour (df_logs : Logs) : DataFrame :=
  let res := actions_par_jour (events df_logs) in
  reset_index "moyenne_nb_actions" float64
    (agg (fun g => mean (map (fun r => inject_Z (nb r)) g))
         (groupby fst res)).

Definition max_actions_par_jour (df_logs : Logs) : DataFrame :=
  let res := actions_par_jour (events df_logs) in
  reset_index "max_nb_actions" int64
    (agg (fun g => max_ (map nb g)) (groupby fst res)).

Definition variabilite_activite (sqrt_float : Q -> Q) (df_logs : Logs)
  : DataFrame :=
  let res := actions_par_jour (events df_logs) in
  reset_index "std_actions_par_jour" float64
    (agg (fun g => std sqrt_float (map (fun r => inject_Z (nb r)) g))
         (groupby fst res)).

Definition nb_jours_avec_action_series (df_logs : Logs) : list (string * Z) :=
  agg (fun g => nunique_Z (map jour g)) (groupby pseudo (events df_logs)).

Definition nb_jours_avec_action (df_logs : Logs) : DataFrame :=
  reset_index "nb_jours_avec_action" int64
    (map (fun kv => (fst kv, CInt (snd kv)))
         (nb_jours_avec_action_series df_logs)).

(** [(x.max() - x.min()).days] *)
Definition tempsdiff_series (df_logs : Logs) : list (string * Z) :=
  agg (fun g => Zmax_list (map jour g) - Zmin_list (map jour g))
      (groupby pseudo (events df_logs)).

Definition tempsdiff (df_logs : Logs) : DataFrame :=
  reset_index "tempsdiff_jours" int64
    (map (fun kv => (fst kv, CInt (snd kv))) (tempsdiff_series df_logs)).

(** [a.merge(b, on='pseudo')], the inner join of two Series on their key. *)
Definition merge_series {A B : Type} (a : list (string * A))
  (b : list (string * B)) : list (string * (A * B)) :=
  flat_map
    (fun ka =>
       map (fun kb => (fst ka, (snd ka, snd kb)))
           (filter (fun kb => String.eqb (fst kb) (fst ka)) b))
    a.

(** [.replace(0, 1)] *)
Definition replace_0_1 (z : Z) : Z := if z =? 0 then 1 else z.

Definition constance_activite_series (df_logs : Logs) : list (string * Q) :=
  let nb_jours_avec_activite := nb_jours_avec_action_series df_logs in
  let difftemps := tempsdiff_series df_logs in
  let res := merge_series nb_jours_avec_activite difftemps in
  map (fun r => (fst r,
                 (inject_Z (fst (snd r))
                  / inject_Z (replace_0_1 (snd (snd r))))%Q))
      res.

Definition constance_activite (df_logs : Logs) : DataFrame :=
  reset_index "constance_activite" float64
    (map (fun kv => (fst kv, CFloat (snd kv)))
         (constance_activite_series df_logs)).

(** [df_logs[name] = vals]: an existing column is overwritten in place, a
    new one is appended. *)
Fixpoint assign (name : string) (vals : list cell)
  (cols : list (string * list cell)) : list (string * list cell) :=
  match cols with
  | [] => [(name, vals)]
  | c :: cs => if String.eqb (fst c) name then (name, vals) :: cs
               else c :: assign name vals cs
  end.

Definition set_column (name : string) (vals : list cell) (df_logs : Logs)
  : Logs :=
  {| events := events df_logs; helper := assign name vals (helper df_logs) |}.

Fixpoint get_column (name : string) (cols : list (string * list cell))
  : option (list cell) :=
  match cols with
  | [] => None
  | c :: cs => if String.eqb (fst c) name then Some (snd c)
               else get_column name cs
  end.

(** [.dt.weekday], Monday = 0; day 0 (1970-01-01) is a Thursday. *)
Definition weekday (d : Z) : Z := (d + 3) mod 7.

(** [df_logs.groupby('pseudo')[flag].mean()] for a boolean column. *)
Definition mean_by_pseudo (evs : list Event) (flag : list bool)
  : list (string * cell) :=
  agg (fun g => mean (map (fun r => Q_of_bool (snd r)) g))
      (groupby (fun r => pseudo (fst r)) (combine evs flag)).

Definition semaine_vs_weekend (df_logs : Logs) : DataFrame * Logs :=
  let jour_semaine := map (fun e => weekday (jour e)) (events df_logs) in
  let df_logs := set_column "jour_semaine" (map CInt jour_semaine) df_logs in
  let is_weekend := map (fun w => 5 <=? w) jour_semaine in
  let df_logs := set_column "is_weekend" (map CBool is_weekend) df_logs in
  let res := reset_index "pct_weekend" float64
               (mean_by_pseudo (events df_logs) is_weekend) in
  (res, df_logs).

(** *** Hours *)

(** [(x.max() - x.min()).total_seconds() / 60] *)
Definition periode (g : list Event) : Q :=
  (inject_Z (Zmax_list (map heure g) - Zmin_list (map heure g))
   / inject_Z 60)%Q.

Definition periode_moyen_activite (df_logs : Logs) : DataFrame :=
  let periode := groupby_pseudo_jour periode (events df_logs) in
  reset_index "activite_moyenne_par_jour_min" float64
    (agg (fun g => mean (map (fun r => snd (snd r)) g)) (groupby fst periode)).

Definition pourcentage_nuit (df_logs : Logs) : DataFrame * Logs :=
  let heure_seule := map (fun e => hour (heures e)) (events df_logs) in
  let df_logs := set_column "heure_seule" (map CInt heure_seule) df_logs in
  let flag := map (fun h => (h <? 7) || (22 <=? h)) heure_seule in
  let df_logs := set_column "pourcentage_nuit" (map CBool flag) df_logs in
  let res := reset_index "pourcentage_activite_nuit" float64
               (mean_by_pseudo (events df_logs) flag) in
  (res, df_logs).

Definition pourcentage_matin (df_logs : Logs) : DataFrame * Logs :=
  let heure_seule := map (fun e => hour (heures e)) (events df_logs) in
  let df_logs := set_column "heure_seule" (map CInt heure_seule) df_logs in
  let flag := map (fun h => (7 <=? h) && (h <? 13)) heure_seule in
  let df_logs := set_column "pourcentage_matin" (map CBool flag) df_logs in
  let res := reset_index "pourcentage_activite_matin" float64
               (mean_by_pseudo (events df_logs) flag) in
  (res, df_logs).

Definition pourcentage_aprem (df_logs : Logs) : DataFrame * Logs :=
  let heure_seule := map (fun e => hour (heures e)) (events df_logs) in
  let df_logs := set_column "heure_seule" (map CInt heure_seule) df_logs in
  let flag := map (fun h => (13 <=? h) && (h <? 18)) heure_seule in
  let df_logs := set_column "pourcentage_aprem" (map CBool flag) df_logs in
  let res := reset_index "pourcentage_activite_aprem" float64
               (mean_by_pseudo (events df_logs) flag) in
  (res, df_logs).

Definition pourcentage_soir (df_logs : Logs) : DataFrame * Logs :=
  let heure_seule := map (fun e => hour (heures e)) (events df_logs) in
  let df_logs := set_column "heure_seule" (map CInt heure_seule) df_logs in
  let flag := map (fun h => (18 <=? h) && (h <? 22)) heure_seule in
  let df_logs := set_column "pourcentage_soir" (map CBool flag) df_logs in
  let res := reset_index "pourcentage_activite_soir" float64
               (mean_by_pseudo (events df_logs) flag) in
  (res, df_logs).

(** *** Components, contexts, event types *)

Definition nb_composant (df_logs : Logs) : DataFrame :=
  reset_index "nb_composant" int64
    (agg (fun g => CInt (nunique (map composant g)))
         (groupby pseudo (events df_logs))).

(** [pd.crosstab(df_logs['pseudo'], df_logs[col]).reset_index()] with the
    columns renamed [prefix ++ value].  The new names are built from the
    columns [!= 'pseudo'], so a category that is itself called [pseudo]
    leaves one name too few (and [reset_index] refuses the duplicate
    before that): the call fails. *)
Definition crosstab (pre : string) (col : Event -> string) (df_logs : Logs)
  : option DataFrame :=
  let cats := unique_sorted (map col (events df_logs)) in
  if existsb (String.eqb "pseudo") cats then None
  else
    Some
      {| columns := ("pseudo"%string, object)
                    :: map (fun c => (String.append pre c, int64)) cats;
         rows :=
           range_index
             (map (fun kv =>
                     CStr (fst kv)
                     :: map (fun c =>
                               CInt (size (filter
                                             (fun e => String.eqb (col e) c)
                                             (snd kv))))
                          cats)
                  (groupby pseudo (events df_logs))) |}.

Definition nb_chaque_composant (df_logs : Logs) : option DataFrame :=
  crosstab "composant_" composant df_logs.

(** [df_logs.groupby(['pseudo', col]).size().reset_index(name='count')] *)
Definition count_by (col : Event -> string) (evs : list Event)
  : list (Z * (string * (string * Z))) :=
  range_index
    (flat_map
       (fun kv =>
          map (fun c => (fst kv,
                         (c, size (filter (fun e => String.eqb (col e) c)
                                          (snd kv)))))
              (unique_sorted (map col (snd kv))))
       (groupby pseudo evs)).

(** [idxmax]: the label of the first row holding the largest count. *)
Fixpoint idxmax_from (best : Z * Z) (l : list (Z * Z)) : Z :=
  match l with
  | [] => fst best
  | x :: t => idxmax_from (if snd best <? snd x then x else best) t
  end.

Definition idxmax (l : list (Z * Z)) : option Z :=
  match l with
  | [] => None
  | x :: t => Some (idxmax_from x t)
  end.

(** [top.loc[top.groupby('pseudo')['count'].idxmax(), ['pseudo', col]]]
    renamed: the rows keep the labels they had in the count table. *)
Definition top (name : string) (col : Event -> string) (df_logs : Logs)
  : DataFrame :=
  let counts := count_by col (events df_logs) in
  let labels :=
    flat_map
      (fun kv =>
         match idxmax (map (fun r => (fst r, snd (snd (snd r)))) (snd kv)) with
         | Some i => [i]
         | None => []
         end)
      (groupby (fun r => fst (snd r)) counts) in
  {| columns := [("pseudo"%string, object); (name, object)];
     rows :=
       flat_map
         (fun i =>
            match find (fun r => fst r =? i) counts with
            | Some r => [(i, [CStr (fst (snd r)); CStr (fst (snd (snd r)))])]
            | None => []
            end)
         labels |}.

Definition top_composant (df_logs : Logs) : DataFrame :=
  top "top_composant" composant df_logs.

Definition nb_contexte_gen (df_logs : Logs) : DataFrame :=
  reset_index "nb_contexte" int64
    (agg (fun g => CInt (nunique (map contexte_general g)))
         (groupby pseudo (events df_logs))).

Definition nb_chaque_contexte (df_logs : Logs) : option DataFrame :=
  crosstab "contexte_" contexte_general df_logs.

Definition top_contexte (df_logs : Logs) : DataFrame :=
  top "top_contexte" contexte_general df_logs.

Definition nb_chaque_evenement (df_logs : Logs) : option DataFrame :=
  crosstab "evenement_" evenement df_logs.

Definition top_evenement (df_logs : Logs) : DataFrame :=
  top "top_evenement" evenement df_logs.

(** ** The feature composer *)

Definition remove_nth {A : Type} (n : nat) (l : list A) : list A :=
  firstn n l ++ skipn (S n) l.

(** What pandas does to a column that receives missing values. *)
Definition upcast (dt : dtype) : dtype :=
  match dt with
  | int64 => float64
  | bool_ => object
  | d => d
  end.

Definition upcast_cell (c : cell) : cell :=
  match c with
  | CInt z => CFloat (inject_Z z)
  | c => c
  end.

(** A non-key column whose name also occurs on the other side gets the
    side's suffix. *)
Definition add_suffix (sfx : string) (others : list string)
  (c : string * dtype) : string * dtype :=
  if String.eqb (fst c) "pseudo" then c
  else if existsb (String.eqb (fst c)) others
       then (String.append (fst c) sfx, snd c)
       else c.

(** The rows of [right] whose key, in column [j], is the key of [lrow], in
    column [i]. *)
Definition matching (i j : nat) (right : DataFrame) (lrow : Z * list cell)
  : list (Z * list cell) :=
  filter (fun rrow => cell_eqb (nth j (snd rrow) CNaN) (nth i (snd lrow) CNaN))
         (rows right).

(** Is some left row without a partner? *)
Definition unmatched (i j : nat) (left right : DataFrame) : bool :=
  existsb (fun lrow => match matching i j right lrow with
                       | [] => true
                       | _ => false
                       end)
          (rows left).

(** [left.merge(right, on="pseudo", how="left")]: every left row, in
    order, once per right row with the same key, or once with missing
    values when there is none; the result has a fresh index.  [None] is the
    KeyError of a side without a [pseudo] column. *)
Definition merge_left (left right : DataFrame) : option DataFrame :=
  match find_col "pseudo" (columns left), find_col "pseudo" (columns right) with
  | Some i, Some j =>
      let lcols := remove_nth i (columns left) in
      let rcols := remove_nth j (columns right) in
      let missing := unmatched i j left right in
      let cast := fun c => if missing then upcast_cell c else c in
      Some
        {| columns :=
             map (add_suffix "_x" (map fst rcols)) (columns left)
             ++ map (fun c => add_suffix "_y" (map fst lcols)
                                (fst c, if missing then upcast (snd c)
                                        else snd c))
                    rcols;
           rows :=
             range_index
               (flat_map
                  (fun lrow =>
                     match matching i j right lrow with
                     | [] => [snd lrow ++ map (fun _ => CNaN) rcols]
                     | ms => map (fun rrow =>
                                    snd lrow
                                    ++ map cast (remove_nth j (snd rrow)))
                                 ms
                     end)
                  (rows left)) |}
  | _, _ => None
  end.

Notation "x <- c ;; k" :=
  (match c with Some x => k | None => None end)
  (at level 61, c at next level, right associativity).

Definition creer_df (sqrt_float : Q -> Q) (df_logs : Logs)
  : option (DataFrame * Logs) :=
  let df := nb_actions df_logs in
  df <- merge_left df (moyenne_actions_par_jour df_logs) ;;
  df <- merge_left df (nb_jours_avec_action df_logs) ;;
  df <- merge_left df (variabilite_activite sqrt_float df_logs) ;;
  df <- merge_left df (tempsdiff df_logs) ;;
  df <- merge_left df (constance_activite df_logs) ;;
  df <- merge_left df (periode_moyen_activite df_logs) ;;
  let (r, df_logs) := pourcentage_nuit df_logs in
  df <- merge_left df r ;;
  let (r, df_logs) := pourcentage_matin df_logs in
  df <- merge_left df r ;;
  let (r, df_logs) := pourcentage_aprem df_logs in
  df <- merge_left df r ;;
  let (r, df_logs) := pourcentage_soir df_logs in
  df <- merge_left df r ;;
  let (r, df_logs) := semaine_vs_weekend df_logs in
  df <- merge_left df r ;;
  df <- merge_left df (nb_contexte_gen df_logs) ;;
  df <- merge_left df (nb_composant df_logs) ;;
  r <- nb_chaque_contexte df_logs ;;
  df <- merge_left df r ;;
  df <- merge_left df (top_contexte df_logs) ;;
  r <- nb_chaque_composant df_logs ;;
  df <- merge_left df r ;;
  df <- merge_left df (top_composant df_logs) ;;
  r <- nb_chaque_evenement df_logs ;;
  df <- merge_left df r ;;
  df <- merge_left df (top_evenement df_logs) ;;
  Some (df, df_logs).

(** ** Post-processing: correlations, encoding, scaling *)

(** The columns of a frame, each with its cells from top to bottom. *)
Fixpoint col_cells (cols : list (string * dtype)) (rws : list (list cell))
  : list ((string * dtype) * list cell) :=
  match cols with
  | [] => []
  | c :: cs => (c, map (hd CNaN) rws) :: col_cells cs (map (@tl cell) rws)
  end.

Definition frame_columns (df : DataFrame)
  : list ((string * dtype) * list cell) :=
  col_cells (columns df) (map snd (rows df)).

(** Keep the positions where [mask] holds. *)
Fixpoint select {A : Type} (mask : list bool) (l : list A) : list A :=
  match mask, l with
  | b :: m, x :: t => if b then x :: select m t else select m t
  | _, _ => []
  end.

Definition mem (x : string) (l : list string) : bool :=
  existsb (String.eqb x) l.

(** [df.drop(columns=names)] *)
Definition drop (names : list string) (df : DataFrame) : DataFrame :=
  let mask := map (fun c => negb (mem (fst c) names)) (columns df) in
  {| columns := select mask (columns df);
     rows := map (fun r => (fst r, select mask (snd r))) (rows df) |}.

Definition is_numeric (c : (string * dtype) * list cell) : bool :=
  match snd (fst c) with
  | float64 | int64 => true
  | _ => false
  end.

(** [df.select_dtypes(include=['float64', 'int64'])] *)
Definition numeric_columns (df : DataFrame)
  : list ((string * dtype) * list cell) :=
  filter is_numeric (frame_columns df).

(** [abs(x) == 1]; a NaN coefficient compares unequal. *)
Definition abs_is_one (x : cell) : bool :=
  match x with
  | CFloat q => Qeq_bool (Qabs q) 1
  | CInt z => Z.abs z =? 1
  | _ => false
  end.

Section Correlations.

(** The coefficient pandas computes for two columns ([DataFrame.corr]
    treats every pair on its own, on the rows where both have a value). *)
Variable corr : list cell -> list cell -> cell.

Definition iloc (m : list ((string * dtype) * list cell)) (i j : nat)
  : cell :=
  corr (snd (nth i m (("", object)%string, [])))
       (snd (nth j m (("", object)%string, []))).

Definition columns_to_drop (m : list ((string * dtype) * list cell))
  : list string :=
  flat_map
    (fun i =>
       flat_map
         (fun j =>
            if abs_is_one (iloc m i j)
            then [fst (fst (nth i m (("", object)%string, [])))]
            else [])
         (seq 0 i))
    (seq 0 (List.length m)).

Definition enlever_correlations_complets (df : DataFrame) : DataFrame :=
  let corr_matrix := numeric_columns df in
  drop (columns_to_drop corr_matrix) df.

End Correlations.

(** Pearson's coefficient on the rows where both columns have a value, as an
    instance of [corr]; the square root is the caller's. *)
Definition to_float (c : cell) : option (option Q) :=
  match c with
  | CInt z => Some (Some (inject_Z z))
  | CFloat q => Some (Some q)
  | CBool b => Some (Some (Q_of_bool b))
  | CNaN => Some None
  | CStr _ => None
  end.

Definition both_present (x y : list cell) : list (Q * Q) :=
  flat_map
    (fun xy =>
       match to_float (fst xy), to_float (snd xy) with
       | Some (Some a), Some (Some b) => [(a, b)]
       | _, _ => []
       end)
    (combine x y).

Definition pearson (sqrt_float : Q -> Q) (x y : list cell) : cell :=
  let xy := both_present x y in
  let xs := map fst xy in
  let ys := map snd xy in
  let covxy :=
    Qsum (map (fun p => ((fst p - Qmean xs) * (snd p - Qmean ys))%Q) xy) in
  let divisor := sqrt_float (ssd xs * ssd ys)%Q in
  if Qeq_bool divisor 0 then CNaN else CFloat (covxy / divisor)%Q.

(** *** Encoding *)

Definition is_object (c : string * dtype) : bool := dtype_eqb (snd c) object.

Definition is_text (c : cell) : bool :=
  match c with CStr _ => true | _ => false end.

Definition is_number (c : cell) : bool :=
  match c with CInt _ | CFloat _ | CBool _ => true | _ => false end.

Definition strings_of (l : list cell) : list string :=
  flat_map (fun c => match c with CStr s => [s] | _ => [] end) l.

Definition has_nan (l : list cell) : bool :=
  existsb (fun c => match c with CNaN => true | _ => false end) l.

(** The value of a number: Python compares and hashes numbers by value,
    so that [1], [1.0] and [True] are one category. *)
Definition number (c : cell) : Q :=
  match c with
  | CInt z => inject_Z z
  | CFloat q => q
  | CBool b => Q_of_bool b
  | _ => 0
  end.

(** [set(values)] on numbers: of the numbers of one value the first stays. *)
Fixpoint distinct_numbers (l : list cell) : list cell :=
  match l with
  | [] => []
  | c :: t =>
      c :: filter (fun d => negb (Qeq_bool (number d) (number c)))
                  (distinct_numbers t)
  end.

Fixpoint insert_number (c : cell) (l : list cell) : list cell :=
  match l with
  | [] => [c]
  | d :: t => if Qle_bool (number c) (number d) then c :: d :: t
              else d :: insert_number c t
  end.

(** [sorted] on numbers. *)
Definition sorted_numbers (l : list cell) : list cell :=
  fold_right insert_number [] l.

(** A column that holds texts and numbers cannot be sorted: the encoder
    raises TypeError. *)
Definition mixed (l : list cell) : bool :=
  existsb is_text l && existsb is_number l.

(** The categories [OneHotEncoder] learns for a column that is not
    [mixed]: its distinct values in sorted order, a missing value last. *)
Definition categories (l : list cell) : list cell :=
  map CStr (unique_sorted (strings_of l))
  ++ sorted_numbers (distinct_numbers (filter is_number l))
  ++ (if has_nan l then [CNaN] else []).

(** [str(v)] for a category. *)
Definition repr (str_float : Q -> string) (c : cell) : string :=
  match c with
  | CStr s => s
  | CInt z => NilZero.string_of_int (Z.to_int z)
  | CFloat q => str_float q
  | CBool b => if b then "True" else "False"
  | CNaN => "nan"
  end.

(** Is the value [a] the category [b]? *)
Definition same_category (a b : cell) : bool :=
  match a, b with
  | CStr x, CStr y => String.eqb x y
  | CNaN, CNaN => true
  | _, _ => is_number a && is_number b && Qeq_bool (number a) (number b)
  end.

(** One row of [encoder.fit_transform]: for every categorical column, one
    indicator per category. *)
Definition encode_row (cats : list (string * list cell)) (xs : list cell)
  : list cell :=
  flat_map
    (fun cx =>
       map (fun v => CFloat (Q_of_bool (same_category (snd cx) v)))
           (snd (fst cx)))
    (combine cats xs).

(** [encoder.get_feature_names_out(categorical_cols)] *)
Definition feature_names (str_float : Q -> string)
  (cats : list (string * list cell)) : list (string * dtype) :=
  flat_map
    (fun c =>
       map (fun v =>
              (String.append (fst c)
                             (String.append "_" (repr str_float v)), float64))
           (snd c))
    cats.

(** [left.join(right)]: the right row carrying the same index label, missing
    values when there is none; overlapping column names are refused. *)
Definition join (left right : DataFrame) : option DataFrame :=
  if existsb (fun c => mem (fst c) (column_names right)) (columns left)
  then None
  else
    Some
      {| columns := columns left ++ columns right;
         rows :=
           map (fun l =>
                  (fst l,
                   snd l
                   ++ match find (fun r => fst r =? fst l) (rows right) with
                      | Some r => snd r
                      | None => map (fun _ => CNaN) (columns right)
                      end))
               (rows left) |}.

(** [encodage]: the indicators are computed from the categorical columns
    row by row, put in a table of their own, which has a fresh index, and
    joined to what is left of [df].  The encoder refuses (ValueError) a
    table with a categorical column and no row, and (TypeError) a
    categorical column that holds texts and numbers.  pandas selects and
    drops the categorical columns by name; here they are taken by position,
    which is the same when the column names are distinct.  (A table without
    any categorical column comes back as it is; what sklearn does with it
    is not modelled.) *)
Definition encodage (str_float : Q -> string) (df : DataFrame)
  : option DataFrame :=
  let mask := map is_object (columns df) in
  let categorical_cols := select mask (columns df) in
  let cols := select mask (frame_columns df) in
  match categorical_cols, rows df with
  | _ :: _, [] => None
  | _, _ =>
      if existsb (fun c => mixed (snd c)) cols then None
      else
        let cats := map (fun c => (fst (fst c), categories (snd c))) cols in
        let encoded_array :=
          map (fun r => encode_row cats (select mask (snd r))) (rows df) in
        let encoded_cols := feature_names str_float cats in
        let df_encoded :=
          {| columns := encoded_cols; rows := range_index encoded_array |} in
        join (drop (map fst categorical_cols) df) df_encoded
  end.

(** *** Scaling *)

(** Rounding to the nearest integer, ties to even. *)
Definition round_half_even (x : Q) : Z :=
  let f := Qfloor x in
  match Qcompare (x - inject_Z f) (1 # 2) with
  | Lt => f
  | Gt => f + 1
  | Eq => if Z.even f then f else f + 1
  end.

(** The exponent [e] of a positive number: [2 ^ e <= q < 2 ^ (e + 1)]. *)
Definition log2_floor (q : Q) : Z :=
  let d := Z.log2 (Qnum q) - Z.log2 (Zpos (Qden q)) in
  if Qle_bool (2 ^ d) q then d else d - 1.

(** The float64 nearest to [q]: 53 significant bits, ties to even. *)
Definition round_float64 (q : Q) : Q :=
  if Qeq_bool q 0 then 0%Q
  else
    let e := log2_floor (Qabs q) - 52 in
    let m := round_half_even (Qabs q / 2 ^ e) in
    ((if Qle_bool 0 q then 1 else -1) * (inject_Z m * 2 ^ e))%Q.


(** [np.finfo(np.float64).eps] *)
Definition eps : Q := 1 # (2 ^ 52).

(** The conversion to float64 that the scaler starts with: an integer is
    rounded, a text is parsed.  [float_of_string s] is a number, a missing
    value, or [None] when the text is not a number (or is infinite, which
    the scaler refuses as well). *)
Definition to_float64 (float_of_string : string -> option (option Q))
  (c : cell) : option (option Q) :=
  match c with
  | CInt z => Some (Some (round_float64 (inject_Z z)))
  | CFloat q => Some (Some q)
  | CBool b => Some (Some (Q_of_bool b))
  | CNaN => Some None
  | CStr s => float_of_string s
  end.

Definition present (float_of_string : string -> option (option Q))
  (l : list cell) : list Q :=
  flat_map
    (fun c => match to_float64 float_of_string c with
              | Some (Some q) => [q]
              | _ => []
              end)
    l.

Definition Qmin_list (l : list Q) : option Q :=
  match l with
  | [] => None
  | x :: t => Some (fold_right Qmin x t)
  end.

Definition Qmax_list (l : list Q) : option Q :=
  match l with
  | [] => None
  | x :: t => Some (fold_right Qmax x t)
  end.

(** What [MinMaxScaler.fit] keeps for a column: [scale_] and [min_] for the
    feature range (0, 1).  A range below [10 * eps] is replaced by 1. *)
Definition fit (float_of_string : string -> option (option Q))
  (l : list cell) : option (Q * Q) :=
  match Qmin_list (present float_of_string l),
        Qmax_list (present float_of_string l) with
  | Some data_min, Some data_max =>
      let data_range := round_float64 (data_max - data_min) in
      let scale_ :=
        round_float64 (1 / (if Qle_bool (10 * eps) data_range then data_range
                      else 1)) in
      let min_ := round_float64 (0 - round_float64 (data_min * scale_)) in
      Some (scale_, min_)
  | _, _ => None
  end.

(** [X *= scale_] and then [X += min_] *)
Definition transform (float_of_string : string -> option (option Q))
  (p : option (Q * Q)) (c : cell) : cell :=
  match p, to_float64 float_of_string c with
  | Some (scale_, min_), Some (Some x) =>
      CFloat (round_float64 (round_float64 (x * scale_) + min_))
  | _, _ => CNaN
  end.

Definition scalable (float_of_string : string -> option (option Q))
  (l : list cell) : bool :=
  forallb (fun c => match to_float64 float_of_string c with
                    | Some _ => true
                    | None => false
                    end)
          l.

(** [df_scaled[cols_to_scale] = scaler.fit_transform(df_scaled[cols_to_scale])]
    for every column but [pseudo].  [None] is the error sklearn raises on a
    table without rows, without a column to scale, or with a text that is
    not a number. *)
Definition scaling (float_of_string : string -> option (option Q))
  (df : DataFrame) : option DataFrame :=
  let cols := frame_columns df in
  let is_key := fun c : (string * dtype) * list cell =>
    String.eqb (fst (fst c)) "pseudo" in
  let cols_to_scale := filter (fun c => negb (is_key c)) cols in
  match rows df, cols_to_scale with
  | [], _ | _, [] => None
  | _, _ =>
      if forallb (fun c => scalable float_of_string (snd c)) cols_to_scale
      then
        let params :=
          map (fun c => if is_key c then None
                        else Some (fit float_of_string (snd c)))
              cols in
        Some
          {| columns :=
               map (fun c => if String.eqb (fst c) "pseudo" then c
                             else (fst c, float64))
                   (columns df);
             rows :=
               map (fun r =>
                      (fst r,
                       map (fun pc =>
                              match fst pc with
                              | None => snd pc
                              | Some p => transform float_of_string p (snd pc)
                              end)
                           (combine params (snd r))))
                   (rows df) |}
      else None
  end.

Definition df_transformer (corr : list cell -> list cell -> cell)
  (str_float : Q -> string)
  (float_of_string : string -> option (option Q))
  (df : DataFrame) : option DataFrame :=
  let df := enlever_correlations_complets corr df in
  df <- encodage str_float df ;;
  scaling float_of_string df.

(** ** Train and test sets *)

(** A pandas [Series]: values under index labels. *)
Definition Series : Type := list (Z * cell).

(** [left.merge(right, on="pseudo")], an inner join: every left row, in
    order, once per right row with the same key; a left row without a
    partner is left out; the result has a fresh index.  [None] is the
    KeyError of a side without a [pseudo] column. *)
Definition merge_inner (left right : DataFrame) : option DataFrame :=
  match find_col "pseudo" (columns left), find_col "pseudo" (columns right) with
  | Some i, Some j =>
      let lcols := remove_nth i (columns left) in
      let rcols := remove_nth j (columns right) in
      Some
        {| columns :=
             map (add_suffix "_x" (map fst rcols)) (columns left)
             ++ map (add_suffix "_y" (map fst lcols)) rcols;
           rows :=
             range_index
               (flat_map
                  (fun lrow =>
                     map (fun rrow => snd lrow ++ remove_nth j (snd rrow))
                         (matching i j right lrow))
                  (rows left)) |}
  | _, _ => None
  end.

(** [df[name]]: the column as a series under the index of the table
    (column names are taken to be distinct); [None] is the KeyError. *)
Definition getitem (name : string) (df : DataFrame) : option Series :=
  match find_col name (columns df) with
  | Some j => Some (map (fun r => (fst r, nth j (snd r) CNaN)) (rows df))
  | None => None
  end.

(** [ceil(0.2 * n_samples)]; the product of the double 0.2 and an integer
    below 2^53 rounds to a number with the same ceiling as n / 5. *)
Definition n_test (n_samples : nat) : nat := Nat.div (n_samples + 4) 5.

(** Selection by position, [a.iloc[indices]]. *)
Definition take {A : Type} (indices : list nat) (a : list A) : list A :=
  flat_map (fun i => match nth_error a i with
                     | Some x => [x]
                     | None => []
                     end)
           indices.

(** [train_test_split(X, y, test_size=0.2, random_state=1)]: the shuffle
    draws [permutation n_samples], a permutation of 0, ..., n_samples - 1
    fixed by the seed; its first [n_test] positions are the test set, the
    others the training set.  [None] is the ValueError of an empty
    training set. *)
Definition train_test_split (permutation : nat -> list nat)
  (X : DataFrame) (y : Series)
  : option (DataFrame * DataFrame * Series * Series) :=
  let n_samples := List.length (rows X) in
  let n_test := n_test n_samples in
  let n_train := (n_samples - n_test)%nat in
  if Nat.eqb n_train 0 then None
  else
    let ind_test := firstn n_test (permutation n_samples) in
    let ind_train :=
      firstn n_train (skipn n_test (permutation n_samples)) in
    Some ({| columns := columns X; rows := take ind_train (rows X) |},
          {| columns := columns X; rows := take ind_test (rows X) |},
          take ind_train y,
          take ind_test y).

Definition separation_train_test (permutation : nat -> list nat)
  (df df_notes : DataFrame)
  : option (DataFrame * DataFrame * Series * Series) :=
  df_all <- merge_inner df df_notes ;;
  y <- getitem "note" df_all ;;
  let X := drop ["note"; "pseudo"]%string df_all in
  train_test_split permutation X y.

(** ** Sample logs *)

Definition ev (p : string) (d : Z) (h : Z) (c x e : string) : Event :=
  mkEvent p d (d * 86400 + h * 3600) (mkClock h 0 0) c x e.

(** Subject A: two events on day 1 and four on day 3; subject B: one event
    on day 1. *)
Definition logs_AB : Logs :=
  {| events :=
       [ ev "A" 1 9 "quiz" "cours" "vu";
         ev "B" 1 23 "forum" "cours" "vu";
         ev "A" 1 10 "quiz" "cours" "vu";
         ev "A" 3 14 "forum" "cours" "poste";
         ev "A" 3 15 "quiz" "cours" "vu";
         ev "A" 3 19 "quiz" "cours" "vu";
         ev "A" 3 2 "quiz" "cours" "vu" ];
     helper := [] |}.

(** One subject, active on two consecutive days. *)
Definition logs_consecutive : Logs :=
  {| events := [ ev "A" 1 9 "quiz" "cours" "vu";
                 ev "A" 2 9 "quiz" "cours" "vu" ];
     helper := [] |}.

(** A square root that is exact on the squares of rationals. *)
Definition sqrt_exact (q : Q) : Q := Z.sqrt (Qnum q) # Pos.sqrt (Qden q).

Definition frame_xyz : DataFrame :=
  {| columns := [("x", float64); ("y", int64); ("top", object); ("z", int64)]%string;
     rows := [ (4, [CFloat 1; CInt 2; CStr "b"; CInt 5]);
               (0, [CFloat 2; CInt 4; CStr "a"; CInt 1]);
               (1, [CFloat 3; CInt 6; CStr "b"; CInt 5]) ] |}.

(** The events of one subject, in log order. *)
Definition group (s : string) (evs : list Event) : list Event :=
  filter (fun e => String.eqb (pseudo e) s) evs.

(** ** Notions used in the statements *)

(** The share of the events of a group that satisfy [f]. *)
Definition fraction (f : Event -> bool) (g : list Event) : Q :=
  (inject_Z (size (filter f g)) / inject_Z (size g))%Q.

Definition is_nuit (e : Event) : bool :=
  (hour (heures e) <? 7) || (22 <=? hour (heures e)).
Definition is_matin (e : Event) : bool :=
  (7 <=? hour (heures e)) && (hour (heures e) <? 13).
Definition is_aprem (e : Event) : bool :=
  (13 <=? hour (heures e)) && (hour (heures e) <? 18).
Definition is_soir (e : Event) : bool :=
  (18 <=? hour (heures e)) && (hour (heures e) <? 22).

Inductive aggregator :=
| NbActions | MoyenneActionsParJour | MaxActionsParJour | VariabiliteActivite
| NbJoursAvecAction | Tempsdiff | ConstanceActivite | SemaineVsWeekend
| PeriodeMoyenActivite | PourcentageNuit | PourcentageMatin
| PourcentageAprem | PourcentageSoir | NbComposant | NbChaqueComposant
| TopComposant | NbContexteGen | NbChaqueContexte | TopContexte
| NbChaqueEvenement | TopEvenement.

(** Calling an aggregator: what it returns and the log table afterwards. *)
Definition run (sqrt_float : Q -> Q) (a : aggregator) (df_logs : Logs)
  : option DataFrame * Logs :=
  match a with
  | NbActions => (Some (nb_actions df_logs), df_logs)
  | MoyenneActionsParJour => (Some (moyenne_actions_par_jour df_logs), df_logs)
  | MaxActionsParJour => (Some (max_actions_par_jour df_logs), df_logs)
  | VariabiliteActivite =>
      (Some (variabilite_activite sqrt_float df_logs), df_logs)
  | NbJoursAvecAction => (Some (nb_jours_avec_action df_logs), df_logs)
  | Tempsdiff => (Some (tempsdiff df_logs), df_logs)
  | ConstanceActivite => (Some (constance_activite df_logs), df_logs)
  | SemaineVsWeekend =>
      (Some (fst (semaine_vs_weekend df_logs)), snd (semaine_vs_weekend df_logs))
  | PeriodeMoyenActivite => (Some (periode_moyen_activite df_logs), df_logs)
  | PourcentageNuit =>
      (Some (fst (pourcentage_nuit df_logs)), snd (pourcentage_nuit df_logs))
  | PourcentageMatin =>
      (Some (fst (pourcentage_matin df_logs)), snd (pourcentage_matin df_logs))
  | PourcentageAprem =>
      (Some (fst (pourcentage_aprem df_logs)), snd (pourcentage_aprem df_logs))
  | PourcentageSoir =>
      (Some (fst (pourcentage_soir df_logs)), snd (pourcentage_soir df_logs))
  | NbComposant => (Some (nb_composant df_logs), df_logs)
  | NbChaqueComposant => (nb_chaque_composant df_logs, df_logs)
  | TopComposant => (Some (top_composant df_logs), df_logs)
  | NbContexteGen => (Some (nb_contexte_gen df_logs), df_logs)
  | NbChaqueContexte => (nb_chaque_contexte df_logs, df_logs)
  | TopContexte => (Some (top_contexte df_logs), df_logs)
  | NbChaqueEvenement => (nb_chaque_evenement df_logs, df_logs)
  | TopEvenement => (Some (top_evenement df_logs), df_logs)
  end.

(** The columns an aggregator assigns in [df_logs]. *)
Definition writes (a : aggregator) : list string :=
  match a with
  | SemaineVsWeekend => ["jour_semaine"; "is_weekend"]
  | PourcentageNuit => ["heure_seule"; "pourcentage_nuit"]
  | PourcentageMatin => ["heure_seule"; "pourcentage_matin"]
  | PourcentageAprem => ["heure_seule"; "pourcentage_aprem"]
  | PourcentageSoir => ["heure_seule"; "pourcentage_soir"]
  | _ => []
  end%string.

Definition row_key (r : list cell) : option string :=
  match r with
  | CStr k :: _ => Some k
  | _ => None
  end.

(** A table whose first column is [pseudo], whose rows carry the keys [ks]
    in this order, and whose rows are as wide as its header. *)
Record table_on (ks : list string) (df : DataFrame) : Prop := {
  t_head : exists cs, columns df = ("pseudo"%string, object) :: cs;
  t_keys : map (fun r => row_key (snd r)) (rows df) = map Some ks;
  t_width : Forall (fun r => List.length (snd r) = List.length (columns df))
                   (rows df)
}.

Definition preserves (l m : DataFrame) : Prop :=
  forall s c v, cell_at l s c = Some v -> cell_at m s c = Some v.

Definition joins (ks : list string) (r m : DataFrame) : Prop :=
  forall s c v, In s ks -> c <> "pseudo"%string ->
                cell_at r s c = Some v -> cell_at m s c = Some v.

(** The right row that [merge_left] attaches to a left row. *)
Definition partner (right : DataFrame) (lrow : Z * list cell) : list cell :=
  tl (snd (hd (0, []) (matching 0 0 right lrow))).

Definition aligned (l r : DataFrame) : DataFrame :=
  {| columns := columns l ++ tl (columns r);
     rows := range_index
               (map (fun lrow => snd lrow ++ partner r lrow) (rows l)) |}.

(** The subjects of a log, as pandas orders them. *)
Definition subjects (evs : list Event) : list string :=
  unique_sorted (map pseudo evs).

(** A table that [creer_df] can join without losing or repeating a row. *)
Definition joinable (evs : list Event) (r : DataFrame) : Prop :=
  exists ks', table_on ks' r /\ NoDup ks' /\ incl (subjects evs) ks'.

(** The header of the wide table. *)
Definition wide_columns (evs : list Event) : list (string * dtype) :=
  [ ("pseudo", object); ("nb_actions", int64);
    ("moyenne_nb_actions", float64); ("nb_jours_avec_action", int64);
    ("std_actions_par_jour", float64); ("tempsdiff_jours", int64);
    ("constance_activite", float64);
    ("activite_moyenne_par_jour_min", float64);
    ("pourcentage_activite_nuit", float64);
    ("pourcentage_activite_matin", float64);
    ("pourcentage_activite_aprem", float64);
    ("pourcentage_activite_soir", float64); ("pct_weekend", float64);
    ("nb_contexte", int64); ("nb_composant", int64) ]%string
  ++ map (fun c => (String.append "contexte_" c, int64))
         (unique_sorted (map contexte_general evs))
  ++ [("top_contexte"%string, object)]
  ++ map (fun c => (String.append "composant_" c, int64))
         (unique_sorted (map composant evs))
  ++ [("top_composant"%string, object)]
  ++ map (fun c => (String.append "evenement_" c, int64))
         (unique_sorted (map evenement evs))
  ++ [("top_evenement"%string, object)].

(** No category is itself called [pseudo]. *)
Definition pseudo_free (evs : list Event) : Prop :=
  ~ In "pseudo"%string (map contexte_general evs)
  /\ ~ In "pseudo"%string (map composant evs)
  /\ ~ In "pseudo"%string (map evenement evs).

Definition no_column : (string * dtype) * list cell :=
  (("", object)%string, []).


Definition frame_numeric : DataFrame :=
  {| columns := [("pseudo", object); ("x", float64); ("z", int64)]%string;
     rows := [ (0, [CStr "A"; CFloat 1; CInt 5]);
               (1, [CStr "B"; CFloat 2; CNaN]);
               (2, [CStr "C"; CFloat 3; CInt 1]) ] |}.

(** A reader of unsigned decimal integers and of [nan], which stands for
    the conversion of a text to float64 on the sample tables. *)
Definition digit_value (a : ascii) : option Z :=
  let n := Z.of_nat (nat_of_ascii a) in
  if (48 <=? n) && (n <=? 57) then Some (n - 48) else None.

Fixpoint digits_value (acc : Z) (s : string) : option Z :=
  match s with
  | EmptyString => Some acc
  | String a t =>
      match digit_value a with
      | Some d => digits_value (10 * acc + d) t
      | None => None
      end
  end.

Definition float_of_digits (s : string) : option (option Q) :=
  if String.eqb s "nan" then Some None
  else
    match s with
    | EmptyString => None
    | _ => option_map (fun z => Some (round_float64 (inject_Z z)))
                      (digits_value 0 s)
    end.

(** The text of a float, for the sample tables: none of them has a float
    among its categories. *)
Definition str_sample (q : Q) : string := "?".

Definition frame_numeric_scaled : DataFrame :=
  Eval vm_compute in
    match scaling float_of_digits frame_numeric with
    | Some d => d
    | None => frame_numeric
    end.


(** A categorical column of numbers written as texts. *)
Definition frame_digits : DataFrame :=
  {| columns := [("pseudo", object); ("x", object)]%string;
     rows := [ (0, [CStr "A"; CStr "1"]); (1, [CStr "B"; CStr "3"]) ] |}.

(** A table whose index is not 0, 1, ...: the rows of a shuffled split. *)
Definition frame_shuffled : DataFrame :=
  {| columns := [("n", int64); ("top", object)]%string;
     rows := [ (1, [CInt 10; CStr "a"]); (0, [CInt 20; CStr "b"]) ] |}.

(** A table whose index shares no label with 0, 1, ... *)
Definition frame_holdout : DataFrame :=
  {| columns := [("n", int64); ("top", object)]%string;
     rows := [ (5, [CInt 10; CStr "a"]); (7, [CInt 20; CStr "b"]) ] |}.

(** ** Notions used in the further properties *)

Definition Zsum (l : list Z) : Z := fold_right Z.add 0 l.

(** The number of events of a group on day [d]. *)
Definition count_on (d : Z) (g : list Event) : Z :=
  size (filter (fun e => jour e =? d) g).

(** The active days of a group, in increasing order. *)
Definition days_of (g : list Event) : list Z := unique_sorted_Z (map jour g).

(** The number of events of a group whose column [col] holds [c]. *)
Definition count_of (col : Event -> string) (c : string) (g : list Event) : Z :=
  size (filter (fun e => String.eqb (col e) c) g).

(** The three cross-tabulations, each with its prefix and its column. *)
Definition cross_tabulations
  : list ((Logs -> option DataFrame) * (string * (Event -> string))) :=
  [ (nb_chaque_composant, ("composant_"%string, composant));
    (nb_chaque_contexte, ("contexte_"%string, contexte_general));
    (nb_chaque_evenement, ("evenement_"%string, evenement)) ].

(** The three most-used-value tables, each with its column name and the
    column it reads. *)
Definition tops
  : list ((Logs -> DataFrame) * (string * (Event -> string))) :=
  [ (top_composant, ("top_composant"%string, composant));
    (top_contexte, ("top_contexte"%string, contexte_general));
    (top_evenement, ("top_evenement"%string, evenement)) ].

(** The cross-tabulation of the components of the sample log. *)
Definition crosstab_composant_AB : DataFrame :=
  Eval vm_compute in
    match nb_chaque_composant logs_AB with
    | Some d => d
    | None => nb_actions logs_AB
    end.

(** The log table after [creer_df]: the four bucket functions and
    [semaine_vs_weekend] have assigned their columns, in this order. *)
Definition logs_after (df_logs : Logs) : Logs :=
  snd (semaine_vs_weekend
         (snd (pourcentage_soir
                 (snd (pourcentage_aprem
                         (snd (pourcentage_matin
                                 (snd (pourcentage_nuit df_logs))))))))).

(** The wide table of the sample log, with the log table afterwards. *)
Definition wide_AB : DataFrame * Logs :=
  Eval vm_compute in
    match creer_df sqrt_exact logs_AB with
    | Some x => x
    | None => (nb_actions logs_AB, logs_AB)
    end.

(** Two tables to merge: the right one has two rows for subject A and none
    for subject B. *)
Definition frame_left : DataFrame :=
  {| columns := [("pseudo", object); ("n", int64)]%string;
     rows := [ (0, [CStr "A"; CInt 1]); (1, [CStr "B"; CInt 2]);
               (2, [CStr "C"; CInt 3]) ] |}.

Definition frame_right : DataFrame :=
  {| columns := [("k", int64); ("pseudo", object)]%string;
     rows := [ (0, [CInt 10; CStr "A"]); (1, [CInt 20; CStr "C"]);
               (2, [CInt 30; CStr "A"]) ] |}.

Definition frame_merged : DataFrame :=
  Eval vm_compute in
    match merge_left frame_left frame_right with
    | Some d => d
    | None => frame_left
    end.

(** The rows of [frame_shuffled] under the index 0, 1. *)
Definition frame_ordered : DataFrame :=
  {| columns := [("n", int64); ("top", object)]%string;
     rows := [ (0, [CInt 10; CStr "a"]); (1, [CInt 20; CStr "b"]) ] |}.

(** The sample table after the whole transformation. *)
Definition frame_xyz_transformed : DataFrame :=
  Eval vm_compute in
    match df_transformer (pearson sqrt_exact) str_sample float_of_digits
            frame_xyz with
    | Some d => d
    | None => frame_xyz
    end.

(** A table of marks: subjects A and C have a mark, subject B of
    [frame_left] has none. *)
Definition frame_notes : DataFrame :=
  {| columns := [("pseudo", object); ("note", float64)]%string;
     rows := [ (0, [CStr "C"; CFloat 12]); (1, [CStr "D"; CFloat 8]);
               (2, [CStr "A"; CFloat 15]) ] |}.

(** A shuffle: the positions in decreasing order. *)
Definition reversed (n : nat) : list nat := rev (seq 0 n).

Definition split_AC : DataFrame * DataFrame * Series * Series :=
  Eval vm_compute in
    match separation_train_test reversed frame_left frame_notes with
    | Some x => x
    | None => (frame_left, frame_left, [], [])
    end.

(** The table of indicators that [encodage] builds before the join. *)
Definition df_encoded (str_float : Q -> string) (df : DataFrame) : DataFrame :=
  let mask := map is_object (columns df) in
  let cats := map (fun c => (fst (fst c), categories (snd c)))
                  (select mask (frame_columns df)) in
  {| columns := feature_names str_float cats;
     rows := range_index
               (map (fun r => encode_row cats (select mask (snd r)))
                    (rows df)) |}.

(** * Properties *)

(** ** Lists, keys and groups *)

Lemma unique_sorted_In (l : list string) (x : string) :
  In x (unique_sorted l) <-> In x l.
Proof.
  unfold unique_sorted. rewrite <- (nodup_In string_dec l x). split.
  - apply Permutation_in. symmetry. apply StringSort.Permuted_sort.
  - apply Permutation_in. apply StringSort.Permuted_sort.
Qed.

Lemma unique_sorted_NoDup (l : list string) : NoDup (unique_sorted l).
Proof.
  unfold unique_sorted.
  apply (Permutation_NoDup (StringSort.Permuted_sort _)), NoDup_nodup.
Qed.

Lemma unique_sorted_Z_In (l : list Z) (x : Z) :
  In x (unique_sorted_Z l) <-> In x l.
Proof.
  unfold unique_sorted_Z. rewrite <- (nodup_In Z.eq_dec l x). split.
  - apply Permutation_in. symmetry. apply ZSort.Permuted_sort.
  - apply Permutation_in. apply ZSort.Permuted_sort.
Qed.

Lemma unique_sorted_Z_length (l : list Z) :
  List.length (unique_sorted_Z l) = List.length (nodup Z.eq_dec l).
Proof.
  unfold unique_sorted_Z. symmetry.
  apply Permutation_length, ZSort.Permuted_sort.
Qed.

Lemma agg_groupby {A B : Type} (f : list A -> B) (key : A -> string)
  (l : list A) :
  agg f (groupby key l)
  = map (fun k => (k, f (filter (fun a => String.eqb (key a) k) l)))
        (unique_sorted (map key l)).
Proof. unfold agg, groupby. now rewrite map_map. Qed.

Lemma find_keyed {B : Type} (g : string -> B) (ks : list string) (k : string) :
  In k ks ->
  find (fun kv => String.eqb (fst kv) k) (map (fun k' => (k', g k')) ks)
  = Some (k, g k).
Proof.
  induction ks as [|a ks IH]; simpl; [easy|]. intros H.
  destruct (String.eqb a k) eqn:E.
  - apply String.eqb_eq in E. now subst.
  - apply String.eqb_neq in E. destruct H as [H|H]; [easy|auto].
Qed.

Lemma filter_keyed {B : Type} (g : string -> B) (ks : list string) (k : string) :
  NoDup ks -> In k ks ->
  filter (fun kv => String.eqb (fst kv) k) (map (fun k' => (k', g k')) ks)
  = [(k, g k)].
Proof.
  induction 1 as [|a ks Ha Hnd IH]; simpl; [easy|]. intros H.
  destruct (String.eqb a k) eqn:E.
  - apply String.eqb_eq in E. subst a. f_equal.
    clear IH H. induction ks as [|b ks IH]; simpl; [easy|].
    destruct (String.eqb b k) eqn:E.
    + apply String.eqb_eq in E. subst. exfalso. apply Ha. now left.
    + apply IH.
      * intros H. apply Ha. now right.
      * now inversion Hnd.
  - apply String.eqb_neq in E. destruct H as [H|H]; [easy|auto].
Qed.

Lemma flat_map_singleton {A B : Type} (f : A -> list B) (g : A -> B)
  (l : list A) :
  (forall x, In x l -> f x = [g x]) -> flat_map f l = map g l.
Proof.
  induction l as [|a l IH]; simpl; intros H; [easy|].
  rewrite (H a), IH by auto. reflexivity.
Qed.

Lemma find_map {A B : Type} (p : B -> bool) (h : A -> B) (l : list A) :
  find p (map h l) = option_map h (find (fun a => p (h a)) l).
Proof.
  induction l as [|a l IH]; simpl; [easy|]. now destruct (p (h a)).
Qed.

Lemma find_combine_snd {A B : Type} (p : B -> bool) (idx : list A)
  (l : list B) (x : B) :
  List.length idx = List.length l ->
  find p l = Some x ->
  exists i, find (fun r => p (snd r)) (combine idx l) = Some (i, x).
Proof.
  revert idx. induction l as [|b l IH]; intros [|i idx]; simpl; try easy.
  intros Hlen H. destruct (p b).
  - injection H as ->. now exists i.
  - apply IH; [lia|easy].
Qed.

Lemma find_range_index {A : Type} (p : A -> bool) (l : list A) (x : A) :
  find p l = Some x ->
  exists i, find (fun r => p (snd r)) (range_index l) = Some (i, x).
Proof.
  apply find_combine_snd. now rewrite length_map, length_seq.
Qed.

Lemma range_index_snd {A : Type} (l : list A) : map snd (range_index l) = l.
Proof.
  unfold range_index.
  generalize (map Z.of_nat (seq 0 (List.length l))) (eq_sym (length_map Z.of_nat (seq 0 (List.length l)))).
  rewrite length_seq. intros idx. revert idx.
  induction l as [|a l IH]; intros [|i idx]; simpl; try easy.
  intros H. f_equal. apply IH. lia.
Qed.

Lemma range_index_length {A : Type} (l : list A) :
  List.length (range_index l) = List.length l.
Proof. now rewrite <- (range_index_snd l) at 2; rewrite length_map. Qed.

(** ** Reading a reduced table *)

Lemma cell_at_reset_index (name : string) (dt : dtype)
  (s : list (string * cell)) (k : string) (v : cell) :
  name <> "pseudo"%string ->
  find (fun kv => String.eqb (fst kv) k) s = Some (k, v) ->
  cell_at (reset_index name dt s) k name = Some v.
Proof.
  intros Hn Hf. unfold cell_at, reset_index. cbn [columns rows find_col fst].
  rewrite String.eqb_refl.
  destruct (String.eqb "pseudo" name) eqn:E;
    [apply String.eqb_eq in E; now subst|].
  rewrite String.eqb_refl. cbn [option_map].
  destruct (find_range_index
              (fun r => cell_eqb (nth 0 r CNaN) (CStr k))
              (map (fun kv => [CStr (fst kv); snd kv]) s) [CStr k; v])
    as [i Hi].
  - rewrite find_map. cbn [nth cell_eqb]. now rewrite Hf.
  - now rewrite Hi.
Qed.

Lemma cell_at_groupby {A : Type} (name : string) (dt : dtype)
  (key : A -> string) (f : list A -> cell) (l : list A) (k : string) :
  name <> "pseudo"%string ->
  In k (map key l) ->
  cell_at (reset_index name dt (agg f (groupby key l))) k name
  = Some (f (filter (fun a => String.eqb (key a) k) l)).
Proof.
  intros Hn Hk. apply cell_at_reset_index; [easy|].
  rewrite agg_groupby.
  apply (find_keyed (fun k => f (filter (fun a => String.eqb (key a) k) l))).
  now apply unique_sorted_In.
Qed.

Lemma agg_map {A B C : Type} (f : list A -> B) (h : B -> C)
  (g : list (string * list A)) :
  map (fun kv => (fst kv, h (snd kv))) (agg f g) = agg (fun x => h (f x)) g.
Proof. unfold agg. now rewrite map_map. Qed.

Lemma group_nonempty (s : string) (evs : list Event) :
  In s (map pseudo evs) -> group s evs <> [].
Proof.
  intros H. apply in_map_iff in H as (e & He & Hin).
  assert (In e (group s evs)) as H.
  { apply filter_In. split; [easy|]. now apply String.eqb_eq. }
  now destruct (group s evs).
Qed.

(** ** Days: active days against the span *)

Lemma Zmax_list_ge (l : list Z) (x : Z) : In x l -> x <= Zmax_list l.
Proof.
  unfold Zmax_list. generalize (hd 0 l). induction l as [|a l IH]; simpl; [easy|].
  intros d [->|H]; [lia|]. specialize (IH d H). lia.
Qed.

Lemma Zmin_list_le (l : list Z) (x : Z) : In x l -> Zmin_list l <= x.
Proof.
  unfold Zmin_list. generalize (hd 0 l). induction l as [|a l IH]; simpl; [easy|].
  intros d [->|H]; [lia|]. specialize (IH d H). lia.
Qed.

(** Distinct integers in an interval are no more than the interval holds. *)
Lemma NoDup_interval (l : list Z) (a b : Z) :
  NoDup l -> (forall x, In x l -> a <= x <= b) ->
  Z.of_nat (List.length l) <= Z.max 0 (b - a + 1).
Proof.
  intros Hnd Hin.
  assert (List.length (map (fun x => Z.to_nat (x - a)) l)
          <= List.length (seq 0 (Z.to_nat (b - a + 1))))%nat as H.
  { apply NoDup_incl_length.
    - assert (forall x, In x l -> a <= x) as Hlo by (intros x Hx; now apply Hin).
      clear b Hin. induction Hnd as [|x l Hx Hnd IH]; simpl; constructor.
      + intros H. apply in_map_iff in H as (y & Hy & Hyl).
        specialize (Hlo y (or_intror Hyl)) as Hy'.
        specialize (Hlo x (or_introl eq_refl)) as Hx'.
        assert (y = x) by lia. now subst.
      + apply IH. intros y Hy. apply Hlo. now right.
    - intros n Hn. apply in_map_iff in Hn as (y & <- & Hy).
      apply in_seq. specialize (Hin y Hy). lia. }
  rewrite length_map, length_seq in H. lia.
Qed.

Lemma nunique_Z_le_span (l : list Z) :
  l <> [] -> 1 <= nunique_Z l <= Zmax_list l - Zmin_list l + 1.
Proof.
  intros Hl. unfold nunique_Z, size. split.
  - destruct l as [|a l]; [easy|].
    assert (In a (nodup Z.eq_dec (a :: l))) as H by (apply nodup_In; now left).
    destruct (nodup Z.eq_dec (a :: l)); [easy|simpl; lia].
  - pose proof (NoDup_interval (nodup Z.eq_dec l) (Zmin_list l) (Zmax_list l)
                  (NoDup_nodup _ _)) as H.
    assert (forall x, In x (nodup Z.eq_dec l) ->
                      Zmin_list l <= x <= Zmax_list l) as Hin.
    { intros x Hx. apply nodup_In in Hx.
      split; [now apply Zmin_list_le|now apply Zmax_list_ge]. }
    specialize (H Hin). destruct l as [|a l]; [easy|].
    assert (In a (nodup Z.eq_dec (a :: l))) as Ha by (apply nodup_In; now left).
    specialize (Hin a Ha). lia.
Qed.

Lemma nb_jours_avec_action_at (df_logs : Logs) (s : string) :
  In s (map pseudo (events df_logs)) ->
  cell_at (nb_jours_avec_action df_logs) s "nb_jours_avec_action"
  = Some (CInt (nunique_Z (map jour (group s (events df_logs))))).
Proof.
  intros H. unfold nb_jours_avec_action, nb_jours_avec_action_series.
  rewrite agg_map. now rewrite cell_at_groupby.
Qed.

Lemma tempsdiff_at (df_logs : Logs) (s : string) :
  In s (map pseudo (events df_logs)) ->
  cell_at (tempsdiff df_logs) s "tempsdiff_jours"
  = Some (CInt (Zmax_list (map jour (group s (events df_logs)))
                - Zmin_list (map jour (group s (events df_logs))))).
Proof.
  intros H. unfold tempsdiff, tempsdiff_series.
  rewrite agg_map. now rewrite cell_at_groupby.
Qed.

(** C9.  For every subject with at least one event, the number of distinct
    active days read from [nb_jours_avec_action] is at most the day span
    read from [tempsdiff] plus one (and at least one). *)
Theorem nb_jours_avec_action_le_tempsdiff (df_logs : Logs) (s : string) :
  In s (map pseudo (events df_logs)) ->
  exists n t : Z,
    cell_at (nb_jours_avec_action df_logs) s "nb_jours_avec_action"
    = Some (CInt n)
    /\ cell_at (tempsdiff df_logs) s "tempsdiff_jours" = Some (CInt t)
    /\ n = Z.of_nat (List.length
                       (nodup Z.eq_dec (map jour (group s (events df_logs)))))
    /\ t = Zmax_list (map jour (group s (events df_logs)))
           - Zmin_list (map jour (group s (events df_logs)))
    /\ 1 <= n <= t + 1.
Proof.
  intros H. eexists. eexists.
  split; [now apply nb_jours_avec_action_at|].
  split; [now apply tempsdiff_at|].
  split; [reflexivity|]. split; [reflexivity|].
  apply nunique_Z_le_span.
  intros E. apply map_eq_nil in E. now apply (group_nonempty s (events df_logs)).
Qed.

Lemma nb_jours_avec_action_le_tempsdiff_witness :
  exists n t : Z,
    cell_at (nb_jours_avec_action logs_AB) "A" "nb_jours_avec_action"
    = Some (CInt n)
    /\ cell_at (tempsdiff logs_AB) "A" "tempsdiff_jours" = Some (CInt t)
    /\ n = Z.of_nat (List.length
                       (nodup Z.eq_dec (map jour (group "A" (events logs_AB)))))
    /\ t = Zmax_list (map jour (group "A" (events logs_AB)))
           - Zmin_list (map jour (group "A" (events logs_AB)))
    /\ 1 <= n <= t + 1.
Proof.
  apply (nb_jours_avec_action_le_tempsdiff logs_AB "A").
  simpl. auto.
Defined.

(** ** Constancy *)

Lemma flat_map_map {A B C : Type} (h : A -> B) (f : B -> list C) (l : list A) :
  flat_map f (map h l) = flat_map (fun x => f (h x)) l.
Proof. induction l as [|a l IH]; simpl; [easy|]. now rewrite IH. Qed.

Lemma merge_series_keyed {A B : Type} (f : string -> A) (g : string -> B)
  (ks : list string) :
  NoDup ks ->
  merge_series (map (fun k => (k, f k)) ks) (map (fun k => (k, g k)) ks)
  = map (fun k => (k, (f k, g k))) ks.
Proof.
  intros Hnd. unfold merge_series. rewrite flat_map_map.
  apply flat_map_singleton. intros k Hk. cbn [fst snd].
  now rewrite (filter_keyed g ks k Hnd Hk).
Qed.

Lemma replace_0_1_nonzero (z : Z) : replace_0_1 z <> 0.
Proof. unfold replace_0_1. destruct (Z.eqb_spec z 0); lia. Qed.

Lemma constance_activite_at (df_logs : Logs) (s : string) :
  In s (map pseudo (events df_logs)) ->
  cell_at (constance_activite df_logs) s "constance_activite"
  = Some (CFloat
            (inject_Z (nunique_Z (map jour (group s (events df_logs))))
             / inject_Z
                 (replace_0_1
                    (Zmax_list (map jour (group s (events df_logs)))
                     - Zmin_list (map jour (group s (events df_logs))))))%Q).
Proof.
  intros H. unfold constance_activite, constance_activite_series.
  unfold nb_jours_avec_action_series, tempsdiff_series.
  rewrite !agg_groupby.
  rewrite merge_series_keyed by apply unique_sorted_NoDup.
  rewrite !map_map. cbn [fst snd].
  apply cell_at_reset_index; [easy|].
  match goal with
  | |- find _ (map (fun k => (k, ?g)) _) = _ =>
      apply (find_keyed (fun k => g))
  end.
  now apply unique_sorted_In.
Qed.

Lemma Qdiv_Z_bounds (n t : Z) :
  0 < t -> 1 <= n <= t + 1 ->
  (0 < inject_Z n / inject_Z t
   /\ inject_Z n / inject_Z t <= 1 + 1 / inject_Z t
   /\ inject_Z n / inject_Z t <= 2)%Q.
Proof.
  intros Ht Hn.
  assert (0 < inject_Z t)%Q as Hq by (unfold Qlt; simpl; lia).
  assert (0 < inject_Z n)%Q as Hq1 by (unfold Qlt; simpl; lia).
  assert (inject_Z n <= inject_Z t + 1)%Q as Hq2.
  { change 1%Q with (inject_Z 1). rewrite <- inject_Z_plus, <- Zle_Qle. lia. }
  assert (1 <= inject_Z t)%Q as Hq3.
  { change 1%Q with (inject_Z 1). rewrite <- Zle_Qle. lia. }
  repeat split.
  - apply Qlt_shift_div_l; [easy|]. lra.
  - apply Qle_shift_div_r; [easy|].
    setoid_replace ((1 + 1 / inject_Z t) * inject_Z t)%Q
      with (inject_Z t + 1)%Q by (field; lra).
    easy.
  - apply Qle_shift_div_r; [easy|]. lra.
Qed.

(** C1, as amended.  For every subject with at least one event the
    constancy is the active-day count divided by the day span, a span of 0
    being replaced by 1.  With a positive span it lies in (0, 1 + 1/span],
    which is within (0, 2]; with a span of 0 it equals the active-day count,
    which is 1. *)
Theorem constance_activite_range (df_logs : Logs) (s : string) :
  In s (map pseudo (events df_logs)) ->
  exists (n t : Z) (c : Q),
    cell_at (nb_jours_avec_action df_logs) s "nb_jours_avec_action"
    = Some (CInt n)
    /\ cell_at (tempsdiff df_logs) s "tempsdiff_jours" = Some (CInt t)
    /\ cell_at (constance_activite df_logs) s "constance_activite"
       = Some (CFloat c)
    /\ (c == inject_Z n / inject_Z (if t =? 0 then 1 else t))%Q
    /\ 0 <= t
    /\ (0 < t -> (0 < c /\ c <= 1 + 1 / inject_Z t /\ c <= 2)%Q)
    /\ (t = 0 -> n = 1 /\ (c == inject_Z n)%Q).
Proof.
  intros H.
  pose proof (nunique_Z_le_span (map jour (group s (events df_logs)))) as Hb.
  assert (map jour (group s (events df_logs)) <> []) as Hne.
  { intros E. apply map_eq_nil in E.
    now apply (group_nonempty s (events df_logs)). }
  specialize (Hb Hne).
  exists (nunique_Z (map jour (group s (events df_logs)))).
  exists (Zmax_list (map jour (group s (events df_logs)))
          - Zmin_list (map jour (group s (events df_logs)))).
  eexists.
  split; [now apply nb_jours_avec_action_at|].
  split; [now apply tempsdiff_at|].
  split; [now apply constance_activite_at|].
  set (n := nunique_Z _) in *. set (t := _ - _) in *.
  unfold replace_0_1.
  split; [reflexivity|]. split; [lia|]. split.
  - intros Ht. destruct (Z.eqb_spec t 0) as [E|E]; [lia|].
    now apply Qdiv_Z_bounds.
  - intros Ht. rewrite Ht. cbn [Z.eqb]. split; [lia|].
    unfold Qdiv. change (/ inject_Z 1)%Q with 1%Q. ring.
Qed.


Lemma constance_activite_range_witness :
  exists (n t : Z) (c : Q),
    cell_at (nb_jours_avec_action logs_AB) "A" "nb_jours_avec_action"
    = Some (CInt n)
    /\ cell_at (tempsdiff logs_AB) "A" "tempsdiff_jours" = Some (CInt t)
    /\ cell_at (constance_activite logs_AB) "A" "constance_activite"
       = Some (CFloat c)
    /\ (c == inject_Z n / inject_Z (if t =? 0 then 1 else t))%Q
    /\ 0 <= t
    /\ (0 < t -> (0 < c /\ c <= 1 + 1 / inject_Z t /\ c <= 2)%Q)
    /\ (t = 0 -> n = 1 /\ (c == inject_Z n)%Q).
Proof.
  apply (constance_activite_range logs_AB "A").
  simpl. auto.
Defined.

(** C1 as stated fails: a subject active on two consecutive days has a span
    of one day and a constancy of 2, which is not in (0, 1]. *)
Lemma constance_activite_not_le_1 :
  exists c : Q,
    In "A"%string (map pseudo (events logs_consecutive))
    /\ cell_at (tempsdiff logs_consecutive) "A" "tempsdiff_jours"
       = Some (CInt 1)
    /\ cell_at (constance_activite logs_consecutive) "A" "constance_activite"
       = Some (CFloat c)
    /\ (c == 2)%Q
    /\ ~ (c <= 1)%Q.
Proof.
  exists (2 # 1)%Q. split; [simpl; auto|].
  split; [reflexivity|]. split; [reflexivity|]. split; [reflexivity|].
  intros H. unfold Qle in H. simpl in H. lia.
Qed.

(** ** Time-of-day buckets *)

Lemma filter_map_swap {A B : Type} (p : B -> bool) (h : A -> B) (l : list A) :
  filter p (map h l) = map h (filter (fun a => p (h a)) l).
Proof.
  induction l as [|a l IH]; simpl; [easy|].
  destruct (p (h a)); simpl; now rewrite IH.
Qed.

Lemma combine_map_self {A B : Type} (f : A -> B) (l : list A) :
  combine l (map f l) = map (fun a => (a, f a)) l.
Proof. induction l as [|a l IH]; simpl; [easy|]. now rewrite IH. Qed.

Lemma mean_by_pseudo_at (name : string) (f : Event -> bool)
  (evs : list Event) (s : string) :
  name <> "pseudo"%string ->
  In s (map pseudo evs) ->
  cell_at (reset_index name float64 (mean_by_pseudo evs (map f evs))) s name
  = Some (mean (map (fun e => Q_of_bool (f e)) (group s evs))).
Proof.
  intros Hn Hs. unfold mean_by_pseudo.
  rewrite cell_at_groupby; [|easy|].
  - rewrite combine_map_self, filter_map_swap, map_map. reflexivity.
  - now rewrite combine_map_self, map_map.
Qed.

Lemma Qsum_flags (f : Event -> bool) (g : list Event) :
  (Qsum (map (fun e => Q_of_bool (f e)) g) == inject_Z (size (filter f g)))%Q.
Proof.
  unfold size. induction g as [|e g IH]; simpl; [reflexivity|].
  rewrite IH. destruct (f e); simpl.
  - rewrite Zpos_P_of_succ_nat, <- Z.add_1_l, inject_Z_plus. reflexivity.
  - ring.
Qed.

Lemma mean_flags (f : Event -> bool) (g : list Event) :
  g <> [] ->
  exists q, mean (map (fun e => Q_of_bool (f e)) g) = CFloat q
            /\ (q == fraction f g)%Q.
Proof.
  intros Hg. destruct g as [|e g]; [easy|].
  eexists. split; [reflexivity|].
  unfold fraction. rewrite Qsum_flags. unfold size. now rewrite length_map.
Qed.

Lemma pourcentage_nuit_at (df_logs : Logs) (s : string) :
  In s (map pseudo (events df_logs)) ->
  cell_at (fst (pourcentage_nuit df_logs)) s "pourcentage_activite_nuit"
  = Some (mean (map (fun e => Q_of_bool (is_nuit e)) (group s (events df_logs)))).
Proof.
  intros H. unfold pourcentage_nuit. cbn [fst set_column events].
  rewrite map_map. now apply (mean_by_pseudo_at _ is_nuit).
Qed.

Lemma pourcentage_matin_at (df_logs : Logs) (s : string) :
  In s (map pseudo (events df_logs)) ->
  cell_at (fst (pourcentage_matin df_logs)) s "pourcentage_activite_matin"
  = Some (mean (map (fun e => Q_of_bool (is_matin e)) (group s (events df_logs)))).
Proof.
  intros H. unfold pourcentage_matin. cbn [fst set_column events].
  rewrite map_map. now apply (mean_by_pseudo_at _ is_matin).
Qed.

Lemma pourcentage_aprem_at (df_logs : Logs) (s : string) :
  In s (map pseudo (events df_logs)) ->
  cell_at (fst (pourcentage_aprem df_logs)) s "pourcentage_activite_aprem"
  = Some (mean (map (fun e => Q_of_bool (is_aprem e)) (group s (events df_logs)))).
Proof.
  intros H. unfold pourcentage_aprem. cbn [fst set_column events].
  rewrite map_map. now apply (mean_by_pseudo_at _ is_aprem).
Qed.

Lemma pourcentage_soir_at (df_logs : Logs) (s : string) :
  In s (map pseudo (events df_logs)) ->
  cell_at (fst (pourcentage_soir df_logs)) s "pourcentage_activite_soir"
  = Some (mean (map (fun e => Q_of_bool (is_soir e)) (group s (events df_logs)))).
Proof.
  intros H. unfold pourcentage_soir. cbn [fst set_column events].
  rewrite map_map. now apply (mean_by_pseudo_at _ is_soir).
Qed.

(** Every hour is in exactly one bucket. *)
Lemma one_bucket (e : Event) :
  (if is_nuit e then 1 else 0) + (if is_matin e then 1 else 0)
  + (if is_aprem e then 1 else 0) + (if is_soir e then 1 else 0) = 1.
Proof.
  unfold is_nuit, is_matin, is_aprem, is_soir.
  repeat match goal with
         | |- context [?a <? ?b] => destruct (Z.ltb_spec a b)
         | |- context [?a <=? ?b] => destruct (Z.leb_spec a b)
         end; simpl; lia.
Qed.

Lemma buckets_partition (g : list Event) :
  size (filter is_nuit g) + size (filter is_matin g)
  + size (filter is_aprem g) + size (filter is_soir g) = size g.
Proof.
  unfold size. induction g as [|e g IH]; simpl; [easy|].
  pose proof (one_bucket e) as H.
  destruct (is_nuit e), (is_matin e), (is_aprem e), (is_soir e);
    try discriminate H; cbn [List.length]; rewrite ?Nat2Z.inj_succ; lia.
Qed.

Lemma filter_all {A : Type} (f : A -> bool) (l : list A) :
  (forall x, In x l -> f x = true) -> filter f l = l.
Proof.
  induction l as [|a l IH]; simpl; intros H; [easy|].
  rewrite (H a) by auto. f_equal. auto.
Qed.

Lemma filter_none {A : Type} (f : A -> bool) (l : list A) :
  (forall x, In x l -> f x = false) -> filter f l = [].
Proof.
  induction l as [|a l IH]; simpl; intros H; [easy|].
  rewrite (H a) by auto. auto.
Qed.

(** C8.  For every subject with at least one event the four bucket
    aggregators return the shares of the subject's events whose hour is in
    [22, 7), [7, 13), [13, 18) and [18, 22); the four shares add up to 1; and
    when every event of the subject is at hour 23 or 2 the night share is 1
    and the other three are 0. *)
Theorem buckets_sum_to_one (df_logs : Logs) (s : string) :
  In s (map pseudo (events df_logs)) ->
  exists n m a e : Q,
    cell_at (fst (pourcentage_nuit df_logs)) s "pourcentage_activite_nuit"
    = Some (CFloat n)
    /\ cell_at (fst (pourcentage_matin df_logs)) s "pourcentage_activite_matin"
       = Some (CFloat m)
    /\ cell_at (fst (pourcentage_aprem df_logs)) s "pourcentage_activite_aprem"
       = Some (CFloat a)
    /\ cell_at (fst (pourcentage_soir df_logs)) s "pourcentage_activite_soir"
       = Some (CFloat e)
    /\ (n == fraction
               (fun x => (hour (heures x) <? 7) || (22 <=? hour (heures x)))
               (group s (events df_logs)))%Q
    /\ (m == fraction
               (fun x => (7 <=? hour (heures x)) && (hour (heures x) <? 13))
               (group s (events df_logs)))%Q
    /\ (a == fraction
               (fun x => (13 <=? hour (heures x)) && (hour (heures x) <? 18))
               (group s (events df_logs)))%Q
    /\ (e == fraction
               (fun x => (18 <=? hour (heures x)) && (hour (heures x) <? 22))
               (group s (events df_logs)))%Q
    /\ (n + m + a + e == 1)%Q
    /\ ((forall x, In x (group s (events df_logs)) ->
                   hour (heures x) = 23 \/ hour (heures x) = 2) ->
        (n == 1 /\ m == 0 /\ a == 0 /\ e == 0)%Q).
Proof.
  intros H.
  pose proof (group_nonempty s (events df_logs) H) as Hg.
  destruct (mean_flags is_nuit _ Hg) as (n & En & Hn).
  destruct (mean_flags is_matin _ Hg) as (m & Em & Hm).
  destruct (mean_flags is_aprem _ Hg) as (a & Ea & Ha).
  destruct (mean_flags is_soir _ Hg) as (e & Ee & He).
  exists n, m, a, e.
  rewrite pourcentage_nuit_at, pourcentage_matin_at, pourcentage_aprem_at,
    pourcentage_soir_at by easy.
  rewrite En, Em, Ea, Ee.
  do 4 (split; [reflexivity|]).
  do 4 (split; [easy|]).
  set (g := group s (events df_logs)) in *.
  assert (~ (inject_Z (size g) == 0)%Q) as Hsz.
  { unfold size, Qeq. simpl. destruct g; [easy|simpl; lia]. }
  split.
  - rewrite Hn, Hm, Ha, He. unfold fraction.
    pose proof (f_equal inject_Z (buckets_partition g)) as Hp.
    rewrite !inject_Z_plus in Hp.
    set (N := inject_Z (size g)) in *. clearbody N.
    subst N. field. exact Hsz.
  - intros Hh. rewrite Hn, Hm, Ha, He. unfold fraction.
    rewrite (filter_all is_nuit), (filter_none is_matin),
      (filter_none is_aprem), (filter_none is_soir).
    + change (size (@nil Event)) with 0. change (inject_Z 0) with 0%Q.
      repeat split; field; exact Hsz.
    + intros x Hx. unfold is_soir. destruct (Hh x Hx) as [-> | ->]; reflexivity.
    + intros x Hx. unfold is_aprem. destruct (Hh x Hx) as [-> | ->]; reflexivity.
    + intros x Hx. unfold is_matin. destruct (Hh x Hx) as [-> | ->]; reflexivity.
    + intros x Hx. unfold is_nuit. destruct (Hh x Hx) as [-> | ->]; reflexivity.
Qed.

Lemma buckets_sum_to_one_witness :
  exists n m a e : Q,
    cell_at (fst (pourcentage_nuit logs_AB)) "B" "pourcentage_activite_nuit"
    = Some (CFloat n)
    /\ cell_at (fst (pourcentage_matin logs_AB)) "B"
               "pourcentage_activite_matin" = Some (CFloat m)
    /\ cell_at (fst (pourcentage_aprem logs_AB)) "B"
               "pourcentage_activite_aprem" = Some (CFloat a)
    /\ cell_at (fst (pourcentage_soir logs_AB)) "B"
               "pourcentage_activite_soir" = Some (CFloat e)
    /\ (n + m + a + e == 1)%Q.
Proof.
  destruct (buckets_sum_to_one logs_AB "B") as (n & m & a & e & H).
  - simpl. auto.
  - exists n, m, a, e. tauto.
Defined.

(** ** What the aggregators do to the log table *)

Lemma get_assign_same (name : string) (vals : list cell)
  (cols : list (string * list cell)) :
  get_column name (assign name vals cols) = Some vals.
Proof.
  induction cols as [|c cols IH]; simpl.
  - now rewrite String.eqb_refl.
  - destruct (String.eqb (fst c) name) eqn:E; simpl.
    + now rewrite String.eqb_refl.
    + now rewrite E.
Qed.

Lemma get_assign_other (c name : string) (vals : list cell)
  (cols : list (string * list cell)) :
  c <> name ->
  get_column c (assign name vals cols) = get_column c cols.
Proof.
  intros Hc. apply not_eq_sym in Hc.
  induction cols as [|x cols IH]; simpl.
  - apply String.eqb_neq in Hc. now rewrite Hc.
  - destruct (String.eqb (fst x) name) eqn:E; simpl.
    + apply String.eqb_eq in E. rewrite E.
      apply String.eqb_neq in Hc. now rewrite Hc.
    + now rewrite IH.
Qed.

Lemma run_events (sqrt_float : Q -> Q) (a : aggregator) (df_logs : Logs) :
  events (snd (run sqrt_float a df_logs)) = events df_logs.
Proof. now destruct a. Qed.

Lemma run_result_of_events (sqrt_float : Q -> Q) (a : aggregator)
  (l1 l2 : Logs) :
  events l1 = events l2 ->
  fst (run sqrt_float a l1) = fst (run sqrt_float a l2).
Proof.
  intros H.
  destruct a; cbn [run fst];
    unfold nb_actions, moyenne_actions_par_jour, max_actions_par_jour,
      variabilite_activite, nb_jours_avec_action, nb_jours_avec_action_series,
      tempsdiff, tempsdiff_series, constance_activite,
      constance_activite_series, nb_jours_avec_action_series, tempsdiff_series,
      semaine_vs_weekend, periode_moyen_activite, pourcentage_nuit,
      pourcentage_matin, pourcentage_aprem, pourcentage_soir, nb_composant,
      nb_chaque_composant, top_composant, nb_contexte_gen, nb_chaque_contexte,
      top_contexte, nb_chaque_evenement, top_evenement, crosstab, top;
    cbn [fst snd events set_column]; now rewrite H.
Qed.

(** C3, as amended.  Every aggregator leaves the rows of the log table as
    they are and leaves every column it does not assign as it is;
    [semaine_vs_weekend] and the four bucket functions assign two columns
    each in the log table ([writes]), which are present afterwards; what an
    aggregator returns depends on the rows only, so it is the same after
    any other aggregator has run. *)
Theorem aggregators_frame (sqrt_float : Q -> Q) (a : aggregator)
  (df_logs : Logs) :
  events (snd (run sqrt_float a df_logs)) = events df_logs
  /\ (forall c, ~ In c (writes a) ->
                get_column c (helper (snd (run sqrt_float a df_logs)))
                = get_column c (helper df_logs))
  /\ (forall c, In c (writes a) ->
                exists vals,
                  get_column c (helper (snd (run sqrt_float a df_logs)))
                  = Some vals
                  /\ List.length vals = List.length (events df_logs))
  /\ (writes a = [] -> snd (run sqrt_float a df_logs) = df_logs)
  /\ (forall b : aggregator,
        fst (run sqrt_float a (snd (run sqrt_float b df_logs)))
        = fst (run sqrt_float a df_logs)).
Proof.
  split; [apply run_events|]. split; [|split; [|split]].
  - intros c Hc.
    destruct a; try reflexivity; cbn in Hc;
      cbn [run snd semaine_vs_weekend pourcentage_nuit pourcentage_matin
             pourcentage_aprem pourcentage_soir set_column helper];
      rewrite !get_assign_other; try reflexivity; intros E; apply Hc; auto.
  - intros c Hc.
    destruct a; cbn in Hc; try easy;
      cbn [run snd semaine_vs_weekend pourcentage_nuit pourcentage_matin
             pourcentage_aprem pourcentage_soir set_column helper events];
      destruct Hc as [<-|[<-|[]]]; eexists;
      (split;
       [ first [ apply get_assign_same
               | rewrite get_assign_other by easy; apply get_assign_same ]
       | now rewrite !length_map ]).
  - intros Hw. destruct a; try reflexivity; discriminate Hw.
  - intros b. apply run_result_of_events, run_events.
Qed.

(** C3 as stated fails on the sample log: after [semaine_vs_weekend] the
    table has the columns [jour_semaine] and [is_weekend], after
    [pourcentage_nuit] the columns [heure_seule] and [pourcentage_nuit]. *)
Lemma aggregators_write_columns :
  helper logs_AB = []
  /\ map fst (helper (snd (semaine_vs_weekend logs_AB)))
     = ["jour_semaine"; "is_weekend"]%string
  /\ map fst (helper (snd (pourcentage_nuit logs_AB)))
     = ["heure_seule"; "pourcentage_nuit"]%string
  /\ snd (semaine_vs_weekend logs_AB) <> logs_AB
  /\ snd (pourcentage_nuit logs_AB) <> logs_AB.
Proof.
  repeat split; try reflexivity; intros H; apply (f_equal helper) in H;
    discriminate H.
Qed.

(** ** Tables keyed by subject *)

Lemma preserves_trans (a b c : DataFrame) :
  preserves a b -> preserves b c -> preserves a c.
Proof. unfold preserves. auto. Qed.

Lemma joins_preserves (ks : list string) (r a b : DataFrame) :
  preserves a b -> joins ks r a -> joins ks r b.
Proof. unfold preserves, joins. auto. Qed.

Lemma row_key_nth (r : list cell) (k : string) :
  row_key r = Some k -> nth 0 r CNaN = CStr k.
Proof. destruct r as [|[] r]; simpl; try easy. now intros [= ->]. Qed.

Lemma key_test (r : list cell) (k s : string) :
  row_key r = Some k ->
  cell_eqb (nth 0 r CNaN) (CStr s) = String.eqb k s.
Proof. intros H. now rewrite (row_key_nth r k H). Qed.

(** With distinct keys, one key selects one row. *)
Lemma filter_one_key (rws : list (Z * list cell)) (ks : list string)
  (k : string) :
  map (fun r => row_key (snd r)) rws = map Some ks ->
  NoDup ks -> In k ks ->
  exists r, filter (fun r => cell_eqb (nth 0 (snd r) CNaN) (CStr k)) rws = [r]
            /\ row_key (snd r) = Some k /\ In r rws.
Proof.
  revert ks. induction rws as [|a rws IH]; intros [|k0 ks]; simpl; try easy.
  intros [= Ha Hks] Hnd Hin. inversion Hnd as [|? ? Hk0 Hnd']; subst.
  rewrite (key_test _ _ k Ha).
  destruct (String.eqb_spec k0 k) as [->|Hne].
  - exists a. repeat split; auto. f_equal.
    apply filter_none. intros x Hx.
    assert (In (row_key (snd x)) (map Some ks)) as Hx'.
    { rewrite <- Hks. now apply (in_map (fun r => row_key (snd r))). }
    apply in_map_iff in Hx' as (k' & Hk' & Hk'in).
    rewrite (key_test _ _ k (eq_sym Hk')).
    apply String.eqb_neq. intros ->. easy.
  - destruct Hin as [Hin|Hin]; [easy|].
    destruct (IH ks Hks Hnd' Hin) as (r & Hr & Hk & Hr').
    exists r. auto.
Qed.

Lemma find_filter_hd {A : Type} (p : A -> bool) (l : list A) (x : A) :
  filter p l = [x] -> find p l = Some x.
Proof.
  induction l as [|a l IH]; simpl; [easy|].
  destruct (p a); [now intros [= ->]|auto].
Qed.

Lemma find_ext_in {A : Type} (p q : A -> bool) (l : list A) :
  (forall x, In x l -> p x = q x) -> find p l = find q l.
Proof.
  induction l as [|a l IH]; simpl; intros H; [easy|].
  rewrite (H a) by auto. destruct (q a); auto.
Qed.

Lemma find_col_app_l (c : string) (a b : list (string * dtype)) (j : nat) :
  find_col c a = Some j -> find_col c (a ++ b) = Some j.
Proof.
  revert j. induction a as [|x a IH]; simpl; [easy|]. intros j.
  destruct (String.eqb (fst x) c); [easy|].
  destruct (find_col c a) as [n|]; simpl; [|easy].
  intros [= <-]. now rewrite (IH n).
Qed.

Lemma find_col_app_r (c : string) (a b : list (string * dtype)) (j : nat) :
  ~ In c (map fst a) -> find_col c b = Some j ->
  find_col c (a ++ b) = Some (List.length a + j)%nat.
Proof.
  intros Ha Hb. induction a as [|x a IH]; simpl; [easy|].
  destruct (String.eqb_spec (fst x) c) as [E|E].
  - exfalso. apply Ha. now left.
  - rewrite IH; [easy|]. intros H. apply Ha. now right.
Qed.

Lemma find_col_In (c : string) (a : list (string * dtype)) (j : nat) :
  find_col c a = Some j -> In c (map fst a).
Proof.
  revert j. induction a as [|x a IH]; simpl; [easy|]. intros j.
  destruct (String.eqb_spec (fst x) c) as [E|E]; [now left|].
  destruct (find_col c a) as [n|]; simpl; [|easy]. intros _. right. eauto.
Qed.

Lemma find_col_lt (c : string) (a : list (string * dtype)) (j : nat) :
  find_col c a = Some j -> (j < List.length a)%nat.
Proof.
  revert j. induction a as [|x a IH]; simpl; [easy|]. intros j.
  destruct (String.eqb (fst x) c); [intros [= <-]; lia|].
  destruct (find_col c a) as [n|]; simpl; [|easy].
  intros [= <-]. specialize (IH n eq_refl). lia.
Qed.

Lemma add_suffix_id (sfx : string) (others : list string)
  (cs : list (string * dtype)) :
  (forall c, In c (map fst cs) -> c <> "pseudo"%string -> ~ In c others) ->
  map (add_suffix sfx others) cs = cs.
Proof.
  intros H. rewrite <- (map_id cs) at 2. apply map_ext_in. intros c Hc.
  unfold add_suffix.
  destruct (String.eqb_spec (fst c) "pseudo") as [E|E]; [easy|].
  destruct (existsb (String.eqb (fst c)) others) eqn:Ex; [|easy].
  apply existsb_exists in Ex as (x & Hx & Hex).
  apply String.eqb_eq in Hex. subst x.
  exfalso. apply (H (fst c)); auto. now apply in_map.
Qed.

Lemma find_exists {A : Type} (p : A -> bool) (l : list A) (x : A) :
  In x l -> p x = true -> exists y, find p l = Some y.
Proof.
  intros Hx Hp. destruct (find p l) as [y|] eqn:E; [now exists y|].
  now rewrite (find_none p l E x Hx) in Hp.
Qed.

Lemma cell_at_inv (df : DataFrame) (cs : list (string * dtype))
  (s c : string) (v : cell) :
  columns df = ("pseudo"%string, object) :: cs ->
  cell_at df s c = Some v <->
  exists j r,
    find_col c (columns df) = Some j
    /\ find (fun r => cell_eqb (nth 0 (snd r) CNaN) (CStr s)) (rows df) = Some r
    /\ nth_error (snd r) j = Some v.
Proof.
  intros Hc. unfold cell_at. rewrite Hc at 1. cbn [find_col fst].
  rewrite String.eqb_refl. split.
  - destruct (find_col c (columns df)) as [j|]; [|easy].
    destruct (find _ (rows df)) as [r|]; [|easy]. intros H. now exists j, r.
  - intros (j & r & -> & -> & H). exact H.
Qed.

Lemma table_row_key (ks : list string) (df : DataFrame) (r : Z * list cell) :
  table_on ks df -> In r (rows df) ->
  exists k, In k ks /\ row_key (snd r) = Some k.
Proof.
  intros [_ Hk _] Hr.
  apply (in_map (fun r => row_key (snd r))) in Hr. rewrite Hk in Hr.
  apply in_map_iff in Hr as (k & Hk' & Hin). now exists k.
Qed.

Lemma table_key_row (ks : list string) (df : DataFrame) (k : string) :
  table_on ks df -> In k ks ->
  exists r, In r (rows df) /\ row_key (snd r) = Some k.
Proof.
  intros [_ Hk _] Hin.
  apply (in_map Some) in Hin. rewrite <- Hk in Hin.
  apply in_map_iff in Hin as (r & Hr & Hin). now exists r.
Qed.

Lemma matching_one (ks ks' : list string) (l r : DataFrame)
  (lrow : Z * list cell) :
  table_on ks l -> table_on ks' r -> NoDup ks' -> incl ks ks' ->
  In lrow (rows l) ->
  exists k rrow,
    row_key (snd lrow) = Some k /\ In k ks
    /\ matching 0 0 r lrow = [rrow]
    /\ row_key (snd rrow) = Some k /\ In rrow (rows r).
Proof.
  intros Hl Hr Hnd Hincl Hin.
  destruct (table_row_key ks l lrow Hl Hin) as (k & Hk & Hkey).
  destruct (filter_one_key (rows r) ks' k (t_keys _ _ Hr) Hnd (Hincl k Hk))
    as (rrow & Hf & Hrk & Hrin).
  exists k, rrow. repeat split; auto.
  unfold matching. now rewrite (row_key_nth _ _ Hkey).
Qed.

(** On keyed tables with distinct right keys covering the left keys and no
    shared column name, the left join puts each left row next to its one
    partner. *)
Lemma merge_left_aligned (ks ks' : list string) (l r : DataFrame) :
  table_on ks l -> table_on ks' r -> NoDup ks' -> incl ks ks' ->
  (forall c, In c (map fst (tl (columns l))) ->
             In c (map fst (tl (columns r))) -> False) ->
  merge_left l r
  = Some {| columns := columns l ++ tl (columns r);
            rows := range_index
                      (map (fun lrow => snd lrow ++ partner r lrow) (rows l)) |}.
Proof.
  intros Hl Hr Hnd Hincl Hdis.
  destruct (t_head _ _ Hl) as [cl Hcl]. destruct (t_head _ _ Hr) as [cr Hcr].
  assert (unmatched 0 0 l r = false) as Hun.
  { apply not_true_is_false. intros H. unfold unmatched in H.
    apply existsb_exists in H as (x & Hx & Hm).
    destruct (matching_one ks ks' l r x Hl Hr Hnd Hincl Hx)
      as (k & rrow & _ & _ & E & _).
    now rewrite E in Hm. }
  unfold merge_left. rewrite Hcl, Hcr in *. cbn [find_col fst].
  rewrite String.eqb_refl. cbv zeta.
  change (remove_nth 0 (("pseudo"%string, object) :: cl)) with cl.
  change (remove_nth 0 (("pseudo"%string, object) :: cr)) with cr.
  rewrite Hun. f_equal. f_equal.
  - cbn [tl] in *. f_equal.
    + cbn [map]. unfold add_suffix at 1. cbn [fst]. rewrite String.eqb_refl.
      f_equal. apply add_suffix_id. intros c Hc _ Hc'. eauto.
    + transitivity (map (fun c : string * dtype => c) cr); [|apply map_id].
      apply map_ext_in. intros c Hc.
      rewrite <- surjective_pairing.
      unfold add_suffix.
      destruct (String.eqb (fst c) "pseudo"); [easy|].
      destruct (existsb (String.eqb (fst c)) (map fst cl)) eqn:Ex; [|easy].
      apply existsb_exists in Ex as (x & Hx & Hex).
      apply String.eqb_eq in Hex. subst x.
      exfalso. apply (Hdis (fst c)); auto. now apply in_map.
  - f_equal. apply flat_map_singleton. intros lrow Hin.
    destruct (matching_one ks ks' l r lrow Hl Hr Hnd Hincl Hin)
      as (k & rrow & _ & _ & E & _).
    unfold partner. rewrite E. cbn [map hd].
    change (remove_nth 0 (snd rrow)) with (tl (snd rrow)) .
    now rewrite map_id.
Qed.

Lemma row_key_app (a b : list cell) (k : string) :
  row_key a = Some k -> row_key (a ++ b) = Some k.
Proof. destruct a as [|[] a]; simpl; easy. Qed.

Lemma map_range_index {A B : Type} (f : A -> B) (l : list A) :
  map (fun r => f (snd r)) (range_index l) = map f l.
Proof. now rewrite <- (map_map snd f), range_index_snd. Qed.

Lemma In_range_index {A : Type} (l : list A) (r : Z * A) :
  In r (range_index l) -> In (snd r) l.
Proof. intros H. rewrite <- (range_index_snd l). now apply in_map. Qed.

Section Aligned.

Variables (ks ks' : list string) (l r : DataFrame).
Hypothesis Hl : table_on ks l.
Hypothesis Hr : table_on ks' r.
Hypothesis Hnd : NoDup ks'.
Hypothesis Hincl : incl ks ks'.
Hypothesis Hdis :
  forall c, In c (map fst (tl (columns l))) ->
            In c (map fst (tl (columns r))) -> False.

Lemma aligned_table : table_on ks (aligned l r).
Proof.
  destruct (t_head _ _ Hl) as [cl Hcl]. destruct (t_head _ _ Hr) as [cr Hcr].
  split.
  - exists (cl ++ cr). unfold aligned. cbn [columns]. now rewrite Hcl, Hcr.
  - unfold aligned. cbn [rows]. rewrite map_range_index, map_map.
    rewrite <- (t_keys _ _ Hl). apply map_ext_in. intros lrow Hin.
    destruct (table_row_key ks l lrow Hl Hin) as (k & _ & Hk).
    rewrite Hk. now apply row_key_app.
  - apply Forall_forall. intros x Hx. apply In_range_index in Hx.
    unfold aligned in Hx. cbn [rows] in Hx.
    apply in_map_iff in Hx as (lrow & <- & Hin).
    destruct (matching_one ks ks' l r lrow Hl Hr Hnd Hincl Hin)
      as (k & rrow & _ & _ & E & _ & Hrin).
    unfold partner. rewrite E. cbn [hd].
    pose proof (proj1 (Forall_forall _ _) (t_width _ _ Hl) lrow Hin) as Wl.
    pose proof (proj1 (Forall_forall _ _) (t_width _ _ Hr) rrow Hrin) as Wr.
    cbn beta in Wl, Wr. unfold aligned. cbn [columns].
    rewrite !length_app, Wl. f_equal.
    rewrite Hcr in *. destruct (snd rrow); simpl in *; lia.
Qed.

Lemma aligned_find (s : string) (lrow : Z * list cell) :
  find (fun x => cell_eqb (nth 0 (snd x) CNaN) (CStr s)) (rows l) = Some lrow ->
  exists i,
    find (fun x => cell_eqb (nth 0 (snd x) CNaN) (CStr s)) (rows (aligned l r))
    = Some (i, snd lrow ++ partner r lrow).
Proof.
  intros Hf. unfold aligned. cbn [rows].
  apply (find_range_index (fun x => cell_eqb (nth 0 x CNaN) (CStr s))).
  rewrite find_map.
  rewrite (find_ext_in _ (fun x => cell_eqb (nth 0 (snd x) CNaN) (CStr s))).
  - now rewrite Hf.
  - intros x Hx. destruct (table_row_key ks l x Hl Hx) as (k & _ & Hk).
    rewrite (row_key_nth _ _ Hk).
    now rewrite (row_key_nth _ _ (row_key_app _ (partner r x) _ Hk)).
Qed.

Lemma aligned_preserves : preserves l (aligned l r).
Proof.
  destruct (t_head _ _ Hl) as [cl Hcl].
  destruct (t_head _ _ aligned_table) as [cm Hcm].
  intros s c v H.
  apply (cell_at_inv l cl s c v Hcl) in H as (j & lrow & Hj & Hf & Hv).
  apply (cell_at_inv _ cm s c v Hcm).
  destruct (aligned_find s lrow Hf) as (i & Hi).
  exists j, (i, snd lrow ++ partner r lrow). repeat split; auto.
  - unfold aligned. cbn [columns]. now apply find_col_app_l.
  - cbn [snd]. rewrite nth_error_app1; [easy|].
    apply nth_error_Some. now rewrite Hv.
Qed.

Lemma aligned_joins : joins ks r (aligned l r).
Proof.
  destruct (t_head _ _ Hl) as [cl Hcl]. destruct (t_head _ _ Hr) as [cr Hcr].
  destruct (t_head _ _ aligned_table) as [cm Hcm].
  intros s c v Hs Hc H.
  apply (cell_at_inv r cr s c v Hcr) in H as (j & rrow & Hj & Hf & Hv).
  apply (cell_at_inv _ cm s c v Hcm).
  destruct (table_key_row ks l s Hl Hs) as (x & Hx & Hxk).
  destruct (find_exists (fun x => cell_eqb (nth 0 (snd x) CNaN) (CStr s))
              (rows l) x Hx) as (lrow & Hfl).
  { rewrite (key_test _ _ s Hxk). apply String.eqb_refl. }
  destruct (aligned_find s lrow Hfl) as (i & Hi).
  apply find_some in Hfl as (Hlin & Hlk).
  destruct (matching_one ks ks' l r lrow Hl Hr Hnd Hincl Hlin)
    as (k & rrow' & Hk & _ & E & _ & Hrin).
  rewrite (key_test _ _ s Hk) in Hlk. apply String.eqb_eq in Hlk. subst k.
  assert (rrow' = rrow) as ->.
  { unfold matching in E. rewrite (row_key_nth _ _ Hk) in E.
    apply find_filter_hd in E. congruence. }
  rewrite Hcr in Hj. cbn [find_col fst] in Hj.
  destruct (String.eqb_spec "pseudo" c) as [Epc|_]; [now subst|].
  destruct (find_col c cr) as [n|] eqn:En; [|easy]. injection Hj as <-.
  exists (List.length (columns l) + n)%nat,
    (i, snd lrow ++ partner r lrow). repeat split; auto.
  - unfold aligned. cbn [columns]. rewrite Hcr. cbn [tl].
    apply find_col_app_r; [|easy].
    rewrite Hcl. cbn [map fst]. intros [E'|E']; [now subst|].
    apply (Hdis c).
    + now rewrite Hcl.
    + rewrite Hcr. cbn [tl]. now apply find_col_In in En.
  - cbn [snd].
    pose proof (proj1 (Forall_forall _ _) (t_width _ _ Hl) lrow Hlin) as Wl.
    cbn beta in Wl. rewrite <- Wl.
    rewrite nth_error_app2 by lia.
    replace (List.length (snd lrow) + n - List.length (snd lrow))%nat
      with n by lia.
    unfold partner. rewrite E. cbn [hd].
    destruct (snd rrow); [now destruct n|exact Hv].
Qed.

End Aligned.

Lemma merge_left_table (ks ks' : list string) (l r : DataFrame) :
  table_on ks l -> table_on ks' r -> NoDup ks' -> incl ks ks' ->
  (forall c, In c (map fst (tl (columns l))) ->
             In c (map fst (tl (columns r))) -> False) ->
  exists m,
    merge_left l r = Some m
    /\ table_on ks m
    /\ columns m = columns l ++ tl (columns r)
    /\ preserves l m
    /\ joins ks r m.
Proof.
  intros Hl Hr Hnd Hincl Hdis. exists (aligned l r).
  split; [now apply (merge_left_aligned ks ks')|].
  split; [now apply (aligned_table ks ks')|].
  split; [reflexivity|].
  split; [now apply (aligned_preserves ks ks')|].
  now apply (aligned_joins ks ks').
Qed.

(** ** Every joined table is keyed by the subjects *)

Lemma reset_index_table (name : string) (dt : dtype)
  (s : list (string * cell)) :
  table_on (map fst s) (reset_index name dt s).
Proof.
  split.
  - now eexists.
  - unfold reset_index. cbn [rows]. rewrite map_range_index, !map_map.
    reflexivity.
  - apply Forall_forall. intros x Hx. apply In_range_index in Hx.
    cbn [reset_index rows] in Hx. apply in_map_iff in Hx as (kv & <- & _).
    reflexivity.
Qed.

Lemma agg_keys {A B : Type} (f : list A -> B) (key : A -> string)
  (l : list A) :
  map fst (agg f (groupby key l)) = unique_sorted (map key l).
Proof. rewrite agg_groupby, map_map. cbn [fst]. apply map_id. Qed.

Lemma groupby_joinable {A : Type} (name : string) (dt : dtype)
  (key : A -> string) (f : list A -> cell) (l : list A) (evs : list Event) :
  (forall s, In s (map pseudo evs) -> In s (map key l)) ->
  joinable evs (reset_index name dt (agg f (groupby key l))).
Proof.
  intros H. exists (unique_sorted (map key l)). split; [|split].
  - rewrite <- (agg_keys f). apply reset_index_table.
  - apply unique_sorted_NoDup.
  - intros s Hs. apply unique_sorted_In. apply H.
    exact (proj1 (unique_sorted_In _ _) Hs).
Qed.

Lemma groupby_In {A : Type} (key : A -> string) (l : list A) (k : string) :
  In k (map key l) ->
  In (k, filter (fun a => String.eqb (key a) k) l) (groupby key l).
Proof.
  intros H. unfold groupby.
  apply (in_map (fun k => (k, filter (fun a => String.eqb (key a) k) l))).
  now apply unique_sorted_In.
Qed.

Lemma groupby_pseudo_jour_keys {B : Type} (f : list Event -> B)
  (evs : list Event) (s : string) :
  In s (map pseudo evs) -> In s (map fst (groupby_pseudo_jour f evs)).
Proof.
  intros H. pose proof (group_nonempty s evs H) as Hg.
  destruct (group s evs) as [|e g] eqn:E; [easy|].
  apply in_map_iff.
  exists (s, (jour e, f (filter (fun x => jour x =? jour e) (group s evs)))).
  split; [reflexivity|]. unfold groupby_pseudo_jour. apply in_flat_map.
  exists (s, group s evs). split; [now apply groupby_In|].
  cbn [fst snd].
  apply (in_map (fun d => (s, (d, f (filter (fun x => jour x =? d)
                                           (group s evs)))))).
  apply unique_sorted_Z_In. rewrite E. now left.
Qed.

Lemma mean_by_pseudo_joinable (name : string) (f : Event -> bool)
  (evs : list Event) :
  joinable evs (reset_index name float64 (mean_by_pseudo evs (map f evs))).
Proof.
  unfold mean_by_pseudo. apply groupby_joinable. intros s Hs.
  now rewrite combine_map_self, map_map.
Qed.

Lemma crosstab_joinable (pre : string) (col : Event -> string)
  (df_logs : Logs) :
  ~ In "pseudo"%string (map col (events df_logs)) ->
  exists r,
    crosstab pre col df_logs = Some r
    /\ joinable (events df_logs) r
    /\ tl (columns r)
       = map (fun c => (String.append pre c, int64))
             (unique_sorted (map col (events df_logs))).
Proof.
  intros H. unfold crosstab.
  destruct (existsb _ _) eqn:E.
  { apply existsb_exists in E as (x & Hx & Hex).
    apply String.eqb_eq in Hex. subst x.
    exfalso. apply H. exact (proj1 (unique_sorted_In _ _) Hx). }
  eexists. split; [reflexivity|]. split; [|reflexivity].
  exists (subjects (events df_logs)). split; [split|split].
  - now eexists.
  - cbn [rows]. rewrite map_range_index, map_map. cbn [row_key].
    unfold groupby. rewrite !map_map. reflexivity.
  - apply Forall_forall. intros x Hx. apply In_range_index in Hx.
    cbn [rows] in Hx. apply in_map_iff in Hx as (kv & <- & _).
    cbn [columns List.length]. now rewrite !length_map.
  - apply unique_sorted_NoDup.
  - apply incl_refl.
Qed.

Lemma flat_map_flat_map {A B C : Type} (g : B -> list C) (h : A -> list B)
  (l : list A) :
  flat_map g (flat_map h l) = flat_map (fun x => flat_map g (h x)) l.
Proof.
  induction l as [|a l IH]; simpl; [easy|]. now rewrite flat_map_app, IH.
Qed.

Lemma idxmax_from_In (best : Z * Z) (l : list (Z * Z)) :
  In (idxmax_from best l) (map fst (best :: l)).
Proof.
  revert best. induction l as [|x l IH]; intros best; simpl; [now left|].
  specialize (IH (if snd best <? snd x then x else best)).
  destruct (snd best <? snd x); simpl in IH; tauto.
Qed.

Lemma range_index_fst {A : Type} (l : list A) :
  map fst (range_index l) = map Z.of_nat (seq 0 (List.length l)).
Proof.
  unfold range_index.
  generalize (map Z.of_nat (seq 0 (List.length l)))
    (length_map Z.of_nat (seq 0 (List.length l))).
  rewrite length_seq. intros idx. revert l.
  induction idx as [|i idx IH]; intros [|a l]; simpl; try easy.
  intros H. f_equal. apply IH. lia.
Qed.

Lemma range_index_NoDup {A : Type} (l : list A) :
  NoDup (map fst (range_index l)).
Proof.
  rewrite range_index_fst. apply Injective_map_NoDup.
  - intros x y. apply Nat2Z.inj.
  - apply seq_NoDup.
Qed.

Lemma NoDup_fst_eq {A B : Type} (l : list (A * B)) (a b : A * B) :
  NoDup (map fst l) -> In a l -> In b l -> fst a = fst b -> a = b.
Proof.
  induction l as [|x l IH]; simpl; [easy|].
  intros Hnd Ha Hb E. inversion Hnd as [|? ? Hx Hnd']; subst.
  destruct Ha as [->|Ha], Hb as [->|Hb]; auto.
  - exfalso. apply Hx. rewrite E. now apply in_map.
  - exfalso. apply Hx. rewrite <- E. now apply in_map.
Qed.

(** One row per key, from a function that yields one keyed row per key. *)
Lemma flat_map_keyed (n : nat) (F : string -> list (Z * list cell))
  (ks : list string) :
  (forall k, In k ks ->
             exists row, F k = [row] /\ row_key (snd row) = Some k
                         /\ List.length (snd row) = n) ->
  map (fun r => row_key (snd r)) (flat_map F ks) = map Some ks
  /\ Forall (fun r => List.length (snd r) = n) (flat_map F ks).
Proof.
  induction ks as [|k ks IH]; simpl; intros H; [now split|].
  destruct (H k (or_introl eq_refl)) as (row & -> & Hk & Hn).
  destruct IH as [IH1 IH2]; [intros; apply H; now right|].
  cbn [app map]. split; [now rewrite Hk, IH1|now constructor].
Qed.

Lemma count_by_pseudos (col : Event -> string) (evs : list Event) (s : string) :
  In s (map pseudo evs) ->
  In s (map (fun r => fst (snd r)) (count_by col evs)).
Proof.
  intros H. unfold count_by. rewrite map_range_index.
  pose proof (group_nonempty s evs H) as Hg.
  destruct (group s evs) as [|e g] eqn:E; [easy|].
  apply in_map_iff.
  exists (s, (col e, size (filter (fun x => String.eqb (col x) (col e))
                                  (group s evs)))).
  split; [reflexivity|]. apply in_flat_map.
  exists (s, group s evs). split; [now apply groupby_In|].
  cbn [fst snd].
  apply (in_map (fun c => (s, (c, size (filter (fun x => String.eqb (col x) c)
                                               (group s evs)))))).
  apply unique_sorted_In. rewrite E. now left.
Qed.

Lemma top_joinable (name : string) (col : Event -> string) (df_logs : Logs) :
  joinable (events df_logs) (top name col df_logs).
Proof.
  set (counts := count_by col (events df_logs)).
  set (K := unique_sorted (map (fun r => fst (snd r)) counts)).
  exists K.
  assert (forall k, In k K ->
            exists row,
              flat_map
                (fun i =>
                   match find (fun r => fst r =? i) counts with
                   | Some r =>
                       [(i, [CStr (fst (snd r)); CStr (fst (snd (snd r)))])]
                   | None => []
                   end)
                (match
                    idxmax (map (fun r => (fst r, snd (snd (snd r))))
                              (filter (fun r => String.eqb (fst (snd r)) k)
                                      counts))
                  with
                  | Some i => [i]
                  | None => []
                  end)
              = [row]
              /\ row_key (snd row) = Some k
              /\ List.length (snd row) = 2%nat) as Hrow.
  { intros k Hk. apply (proj1 (unique_sorted_In _ _)) in Hk.
    apply in_map_iff in Hk as (r0 & Hr0 & Hin0).
    set (g := filter (fun r => String.eqb (fst (snd r)) k) counts).
    assert (In r0 g) as Hg.
    { apply filter_In. split; [easy|]. now apply String.eqb_eq. }
    destruct g as [|x g'] eqn:Eg; [easy|]. cbn [map idxmax].
    pose proof (idxmax_from_In (fst x, snd (snd (snd x)))
                  (map (fun r => (fst r, snd (snd (snd r)))) g')) as Hi.
    set (i := idxmax_from _ _) in *.
    change ((fst x, snd (snd (snd x)))
            :: map (fun r : Z * (string * (string * Z)) =>
                      (fst r, snd (snd (snd r)))) g')
      with (map (fun r : Z * (string * (string * Z)) =>
                   (fst r, snd (snd (snd r)))) (x :: g')) in Hi.
    rewrite map_map in Hi. cbn [fst] in Hi.
    apply in_map_iff in Hi as (r1 & Hr1 & Hin1).
    rewrite <- Eg in Hin1. apply filter_In in Hin1 as (Hin1 & Hk1).
    apply String.eqb_eq in Hk1.
    destruct (find_exists (fun r => fst r =? i) counts r1 Hin1) as (r2 & Hf).
    { apply Z.eqb_eq. exact Hr1. }
    cbn [flat_map]. rewrite Hf. cbn [app].
    apply find_some in Hf as (Hin2 & Hr2). apply Z.eqb_eq in Hr2.
    assert (r2 = r1) as ->.
    { apply (NoDup_fst_eq counts); auto.
      - apply range_index_NoDup.
      - congruence. }
    eexists. split; [reflexivity|]. cbn [snd row_key]. now rewrite Hk1. }
  destruct (flat_map_keyed 2 _ K Hrow) as [Hkeys Hwidth].
  split; [split|split].
  - now eexists.
  - unfold top. cbn [rows]. fold counts.
    unfold groupby. fold K. rewrite flat_map_map. cbn [fst snd].
    rewrite flat_map_flat_map. exact Hkeys.
  - unfold top. cbn [rows columns]. fold counts.
    unfold groupby. fold K. rewrite flat_map_map. cbn [fst snd].
    rewrite flat_map_flat_map. exact Hwidth.
  - apply unique_sorted_NoDup.
  - intros s Hs. apply unique_sorted_In. apply count_by_pseudos.
    exact (proj1 (unique_sorted_In _ _) Hs).
Qed.

Lemma nb_actions_table (df_logs : Logs) :
  table_on (subjects (events df_logs)) (nb_actions df_logs).
Proof.
  unfold nb_actions, subjects. rewrite <- (agg_keys (fun g => CInt (size g))).
  apply reset_index_table.
Qed.

Lemma moyenne_actions_par_jour_joinable (df_logs : Logs) :
  joinable (events df_logs) (moyenne_actions_par_jour df_logs).
Proof. apply groupby_joinable, groupby_pseudo_jour_keys. Qed.

Lemma max_actions_par_jour_joinable (df_logs : Logs) :
  joinable (events df_logs) (max_actions_par_jour df_logs).
Proof. apply groupby_joinable, groupby_pseudo_jour_keys. Qed.

Lemma variabilite_activite_joinable (sqrt_float : Q -> Q) (df_logs : Logs) :
  joinable (events df_logs) (variabilite_activite sqrt_float df_logs).
Proof. apply groupby_joinable, groupby_pseudo_jour_keys. Qed.

Lemma nb_jours_avec_action_joinable (df_logs : Logs) :
  joinable (events df_logs) (nb_jours_avec_action df_logs).
Proof.
  unfold nb_jours_avec_action, nb_jours_avec_action_series.
  rewrite agg_map. now apply groupby_joinable.
Qed.

Lemma tempsdiff_joinable (df_logs : Logs) :
  joinable (events df_logs) (tempsdiff df_logs).
Proof.
  unfold tempsdiff, tempsdiff_series. rewrite agg_map.
  now apply groupby_joinable.
Qed.

Lemma constance_activite_joinable (df_logs : Logs) :
  joinable (events df_logs) (constance_activite df_logs).
Proof.
  unfold constance_activite, constance_activite_series.
  unfold nb_jours_avec_action_series, tempsdiff_series.
  rewrite !agg_groupby.
  rewrite merge_series_keyed by apply unique_sorted_NoDup.
  rewrite !map_map. cbn [fst snd].
  exists (subjects (events df_logs)). split; [|split].
  - match goal with
    | |- table_on _ (reset_index _ _ ?s) =>
        replace (subjects (events df_logs)) with (map fst s);
          [apply reset_index_table|]
    end.
    rewrite map_map. cbn [fst]. apply map_id.
  - apply unique_sorted_NoDup.
  - apply incl_refl.
Qed.

Lemma periode_moyen_activite_joinable (df_logs : Logs) :
  joinable (events df_logs) (periode_moyen_activite df_logs).
Proof. apply groupby_joinable, groupby_pseudo_jour_keys. Qed.

Lemma pourcentage_nuit_joinable (df_logs : Logs) :
  joinable (events df_logs) (fst (pourcentage_nuit df_logs)).
Proof.
  unfold pourcentage_nuit. cbn [fst set_column events]. rewrite map_map.
  apply (mean_by_pseudo_joinable _ is_nuit).
Qed.

Lemma pourcentage_matin_joinable (df_logs : Logs) :
  joinable (events df_logs) (fst (pourcentage_matin df_logs)).
Proof.
  unfold pourcentage_matin. cbn [fst set_column events]. rewrite map_map.
  apply (mean_by_pseudo_joinable _ is_matin).
Qed.

Lemma pourcentage_aprem_joinable (df_logs : Logs) :
  joinable (events df_logs) (fst (pourcentage_aprem df_logs)).
Proof.
  unfold pourcentage_aprem. cbn [fst set_column events]. rewrite map_map.
  apply (mean_by_pseudo_joinable _ is_aprem).
Qed.

Lemma pourcentage_soir_joinable (df_logs : Logs) :
  joinable (events df_logs) (fst (pourcentage_soir df_logs)).
Proof.
  unfold pourcentage_soir. cbn [fst set_column events]. rewrite map_map.
  apply (mean_by_pseudo_joinable _ is_soir).
Qed.

Lemma semaine_vs_weekend_joinable (df_logs : Logs) :
  joinable (events df_logs) (fst (semaine_vs_weekend df_logs)).
Proof.
  unfold semaine_vs_weekend. cbn [fst set_column events]. rewrite map_map.
  apply (mean_by_pseudo_joinable _ (fun e => 5 <=? weekday (jour e))).
Qed.

Lemma nb_contexte_gen_joinable (df_logs : Logs) :
  joinable (events df_logs) (nb_contexte_gen df_logs).
Proof. now apply groupby_joinable. Qed.

Lemma nb_composant_joinable (df_logs : Logs) :
  joinable (events df_logs) (nb_composant df_logs).
Proof. now apply groupby_joinable. Qed.

(** ** The composer, step by step *)

(** Take apart a membership in a header until names are compared. *)
Ltac split_names :=
  repeat match goal with
         | H : In _ (_ :: _) |- _ => destruct H as [H|H]
         | H : In _ [] |- _ => destruct H
         | H : In _ (_ ++ _) |- _ => apply in_app_or in H; destruct H as [H|H]
         | H : In _ (map _ _) |- _ =>
             apply in_map_iff in H; destruct H as (? & H & ?)
         | H : _ \/ _ |- _ => destruct H as [H|H]
         | H : False |- _ => destruct H
         end.

Ltac names_differ :=
  let c := fresh "c" in
  let Hl := fresh "Hl" in
  let Hr := fresh "Hr" in
  intros c Hl Hr;
  apply in_map_iff in Hl; destruct Hl as (? & ? & Hl);
  apply in_map_iff in Hr; destruct Hr as (? & ? & Hr);
  repeat match goal with
         | E : tl (columns ?r) = _ |- _ => rewrite E in Hr
         end;
  simpl in Hr; cbn [tl] in Hl; split_names; subst;
  cbn [fst String.append] in *; congruence.

(** Join the next table [r], known to be joinable by [J], onto the
    accumulated table. *)
Ltac join_step J :=
  let ks' := fresh "ks'" in
  let Htr := fresh "Htr" in
  let Hnd := fresh "Hnd" in
  let Hin := fresh "Hin" in
  destruct J as (ks' & Htr & Hnd & Hin);
  match goal with
  | Ht : table_on ?ks ?l, Hc : columns ?l = _
    |- context [merge_left ?l ?r] =>
      let m := fresh "m" in
      let Hm := fresh "Hm" in
      let Ht' := fresh "Ht" in
      let Hc' := fresh "Hc" in
      let Hp := fresh "Hp" in
      let Hj := fresh "Hj" in
      destruct (merge_left_table ks ks' l r Ht Htr Hnd Hin)
        as (m & Hm & Ht' & Hc' & Hp & Hj);
      [ rewrite Hc; names_differ
      | rewrite Hm; cbv beta iota;
        rewrite Hc in Hc';
        repeat match goal with
               | E : tl (columns ?r) = _ |- _ => rewrite E in Hc'
               end;
        simpl in Hc';
        repeat match goal with
               | H : joins _ _ l |- _ => apply (joins_preserves _ _ _ _ Hp) in H
               | H : preserves _ l |- _ =>
                   apply (fun H' => preserves_trans _ _ _ H' Hp) in H
               end;
        clear Hm Ht Hc Htr Hnd Hin ]
  end.

(** The joins of [creer_df] from [moyenne_actions_par_jour] to
    [nb_composant]: tables with fixed column names. *)
Ltac join_fixed sqrt_float df_logs :=
  unfold creer_df;
  let Ht := fresh "Ht" in
  let Hc := fresh "Hc" in
  let Hp0 := fresh "Hp0" in
  pose proof (nb_actions_table df_logs) as Ht;
  assert (columns (nb_actions df_logs)
          = [("pseudo", object); ("nb_actions", int64)]%string) as Hc
      by reflexivity;
  assert (preserves (nb_actions df_logs) (nb_actions df_logs)) as Hp0
      by (let HH := fresh in intros ? ? ? HH; exact HH);
  join_step (moyenne_actions_par_jour_joinable df_logs);
  join_step (nb_jours_avec_action_joinable df_logs);
  join_step (variabilite_activite_joinable sqrt_float df_logs);
  join_step (tempsdiff_joinable df_logs);
  join_step (constance_activite_joinable df_logs);
  join_step (periode_moyen_activite_joinable df_logs);
  rewrite (surjective_pairing (pourcentage_nuit df_logs));
  join_step (pourcentage_nuit_joinable df_logs);
  set (l1 := snd (pourcentage_nuit df_logs));
  rewrite (surjective_pairing (pourcentage_matin l1));
  join_step (pourcentage_matin_joinable l1);
  set (l2 := snd (pourcentage_matin l1));
  rewrite (surjective_pairing (pourcentage_aprem l2));
  join_step (pourcentage_aprem_joinable l2);
  set (l3 := snd (pourcentage_aprem l2));
  rewrite (surjective_pairing (pourcentage_soir l3));
  join_step (pourcentage_soir_joinable l3);
  set (l4 := snd (pourcentage_soir l3));
  rewrite (surjective_pairing (semaine_vs_weekend l4));
  join_step (semaine_vs_weekend_joinable l4);
  set (l5 := snd (semaine_vs_weekend l4));
  join_step (nb_contexte_gen_joinable l5);
  join_step (nb_composant_joinable l5).

(** The next call is a cross-tabulation of a column free of [pseudo], by
    [Hfree]: name its result and its categories, and join it. *)
Ltac join_crosstab f pre col Hfree :=
  let r := fresh "r" in
  let Hr := fresh "Hr" in
  let J := fresh "J" in
  let Htl := fresh "Htl" in
  let cats := fresh "cats" in
  let Ecats := fresh "Ecats" in
  match goal with
  | |- context [f ?l] =>
      destruct (crosstab_joinable pre col l Hfree) as (r & Hr & J & Htl);
      change (f l) with (crosstab pre col l);
      rewrite Hr; cbv beta iota;
      match type of Hfree with
      | ~ In _ (map _ (events ?l0)) =>
          change (events l) with (events l0) in Htl;
          remember (unique_sorted (map col (events l0))) as cats
            eqn:Ecats in Htl
      end;
      join_step J
  end.

(** What [creer_df] returns on a log none of whose categories is called
    [pseudo]: a table keyed by the subjects, with the header
    [wide_columns], in which every value of every joined table is found
    again.  [max_actions_par_jour] is not among the joined tables. *)
Lemma creer_df_spec (sqrt_float : Q -> Q) (df_logs : Logs) :
  pseudo_free (events df_logs) ->
  exists w df_logs',
    creer_df sqrt_float df_logs = Some (w, df_logs')
    /\ table_on (subjects (events df_logs)) w
    /\ columns w = wide_columns (events df_logs)
    /\ (forall a r, a <> MaxActionsParJour ->
                    fst (run sqrt_float a df_logs) = Some r ->
                    joins (subjects (events df_logs)) r w)
    /\ df_logs'
       = snd (semaine_vs_weekend
                (snd (pourcentage_soir
                        (snd (pourcentage_aprem
                                (snd (pourcentage_matin
                                        (snd (pourcentage_nuit df_logs))))))))).
Proof.
  intros (Hctx & Hcomp & Hev).
  join_fixed sqrt_float df_logs.
  join_crosstab nb_chaque_contexte "contexte_"%string contexte_general Hctx.
  join_step (top_joinable "top_contexte" contexte_general l5).
  join_crosstab nb_chaque_composant "composant_"%string composant Hcomp.
  join_step (top_joinable "top_composant" composant l5).
  join_crosstab nb_chaque_evenement "evenement_"%string evenement Hev.
  join_step (top_joinable "top_evenement" evenement l5).
  exists m17, l5. split; [reflexivity|]. split; [exact Ht0|]. split.
  { rewrite Hc0. unfold wide_columns. subst.
    rewrite <- !app_assoc. reflexivity. }
  split; [|reflexivity].
  intros a r' Ha Hrun.
  destruct a; cbn [run fst] in Hrun; try (injection Hrun as <-);
    try assumption;
    try match goal with
        | Hc : crosstab _ _ _ = Some ?x, Hj : joins _ ?x _ |- joins _ ?y _ =>
            let E := fresh "E" in
            assert (Some y = Some x) as E by (rewrite <- Hrun; exact Hc);
            injection E as ->; exact Hj
        end.
  - intros s c v _ _ H. exact (Hp0 _ _ _ H).
  - now elim Ha.
Qed.

Lemma crosstab_None (pre : string) (col : Event -> string) (df_logs : Logs) :
  In "pseudo"%string (map col (events df_logs)) ->
  crosstab pre col df_logs = None.
Proof.
  intros H. unfold crosstab.
  destruct (existsb _ _) eqn:E; [reflexivity|].
  assert (existsb (String.eqb "pseudo")
                  (unique_sorted (map col (events df_logs))) = true) as E'.
  { apply existsb_exists. exists "pseudo"%string.
    split; [now apply unique_sorted_In|apply String.eqb_refl]. }
  congruence.
Qed.

(** X9.  [creer_df] returns a table exactly on the logs none of whose
    categories (component, general context, event type) is called
    [pseudo]; on every other log a cross-tabulation fails, and the composer
    with it. *)
Theorem creer_df_domain (sqrt_float : Q -> Q) (df_logs : Logs) :
  creer_df sqrt_float df_logs <> None <-> pseudo_free (events df_logs).
Proof.
  split.
  - intros H.
    destruct (in_dec string_dec "pseudo"%string
                (map contexte_general (events df_logs))) as [Hctx|Hctx].
    { exfalso. apply H. join_fixed sqrt_float df_logs.
      change (nb_chaque_contexte l5)
        with (crosstab "contexte_" contexte_general l5).
      rewrite (crosstab_None _ _ l5 Hctx). reflexivity. }
    destruct (in_dec string_dec "pseudo"%string
                (map composant (events df_logs))) as [Hcomp|Hcomp].
    { exfalso. apply H. join_fixed sqrt_float df_logs.
      join_crosstab nb_chaque_contexte "contexte_"%string contexte_general Hctx.
      join_step (top_joinable "top_contexte" contexte_general l5).
      change (nb_chaque_composant l5)
        with (crosstab "composant_" composant l5).
      rewrite (crosstab_None _ _ l5 Hcomp). reflexivity. }
    destruct (in_dec string_dec "pseudo"%string
                (map evenement (events df_logs))) as [Hev|Hev].
    { exfalso. apply H. join_fixed sqrt_float df_logs.
      join_crosstab nb_chaque_contexte "contexte_"%string contexte_general Hctx.
      join_step (top_joinable "top_contexte" contexte_general l5).
      join_crosstab nb_chaque_composant "composant_"%string composant Hcomp.
      join_step (top_joinable "top_composant" composant l5).
      change (nb_chaque_evenement l5)
        with (crosstab "evenement_" evenement l5).
      rewrite (crosstab_None _ _ l5 Hev). reflexivity. }
    split; [exact Hctx|]. split; [exact Hcomp|exact Hev].
  - intros H. destruct (creer_df_spec sqrt_float df_logs H) as (w & l & E & _).
    rewrite E. discriminate.
Qed.

(** ** The wide table: one row per subject *)

Lemma subjects_In (evs : list Event) (s : string) :
  In s (subjects evs) <-> In s (map pseudo evs).
Proof. apply unique_sorted_In. Qed.

(** C6.  On a log none of whose categories is called [pseudo] the composer
    returns a table whose key column lists the distinct subjects of the
    log, each once: every subject of the log has exactly one row, every row
    belongs to a subject of the log, and there are as many rows as in the
    table of [nb_actions]. *)
Theorem creer_df_one_row_per_subject (sqrt_float : Q -> Q) (df_logs : Logs) :
  pseudo_free (events df_logs) ->
  exists w df_logs',
    creer_df sqrt_float df_logs = Some (w, df_logs')
    /\ map (fun r => row_key (snd r)) (rows w)
       = map Some (subjects (events df_logs))
    /\ NoDup (subjects (events df_logs))
    /\ (forall s, In s (map pseudo (events df_logs)) ->
                  List.length
                    (filter (fun r => cell_eqb (nth 0 (snd r) CNaN) (CStr s))
                            (rows w))
                  = 1%nat)
    /\ (forall r, In r (rows w) ->
                  exists s, In s (map pseudo (events df_logs))
                            /\ nth 0 (snd r) CNaN = CStr s)
    /\ List.length (rows w) = List.length (rows (nb_actions df_logs)).
Proof.
  intros H.
  destruct (creer_df_spec sqrt_float df_logs H) as (w & l' & Hw & Ht & _).
  exists w, l'. split; [exact Hw|]. split; [apply (t_keys _ _ Ht)|].
  split; [apply unique_sorted_NoDup|]. split; [|split].
  - intros s Hs. apply subjects_In in Hs.
    destruct (filter_one_key (rows w) _ s (t_keys _ _ Ht)
                (unique_sorted_NoDup _) Hs) as (r & -> & _).
    reflexivity.
  - intros r Hr. destruct (table_row_key _ _ r Ht Hr) as (s & Hs & Hk).
    exists s. split; [now apply subjects_In|now apply row_key_nth].
  - pose proof (f_equal (@List.length _) (t_keys _ _ Ht)) as E1.
    pose proof (f_equal (@List.length _)
                  (t_keys _ _ (nb_actions_table df_logs))) as E2.
    rewrite !length_map in E1, E2. congruence.
Qed.

Lemma logs_AB_pseudo_free : pseudo_free (events logs_AB).
Proof.
  repeat split; simpl; intros H;
    repeat (destruct H as [H|H]; [discriminate H|]); exact H.
Qed.

Lemma creer_df_one_row_per_subject_witness :
  exists w df_logs',
    creer_df sqrt_exact logs_AB = Some (w, df_logs')
    /\ map (fun r => row_key (snd r)) (rows w)
       = map Some (subjects (events logs_AB))
    /\ NoDup (subjects (events logs_AB))
    /\ (forall s, In s (map pseudo (events logs_AB)) ->
                  List.length
                    (filter (fun r => cell_eqb (nth 0 (snd r) CNaN) (CStr s))
                            (rows w))
                  = 1%nat)
    /\ (forall r, In r (rows w) ->
                  exists s, In s (map pseudo (events logs_AB))
                            /\ nth 0 (snd r) CNaN = CStr s)
    /\ List.length (rows w) = List.length (rows (nb_actions logs_AB)).
Proof.
  apply (creer_df_one_row_per_subject sqrt_exact logs_AB).
  exact logs_AB_pseudo_free.
Defined.

(** ** The missing maximum *)

Lemma creer_df_never_max_actions (sqrt_float : Q -> Q) (df_logs : Logs) :
  pseudo_free (events df_logs) ->
  exists w df_logs',
    creer_df sqrt_float df_logs = Some (w, df_logs')
    /\ ~ In "max_nb_actions"%string (column_names w).
Proof.
  intros H.
  destruct (creer_df_spec sqrt_float df_logs H) as (w & l' & Hw & _ & Hc & _).
  exists w, l'. split; [exact Hw|].
  unfold column_names. rewrite Hc. unfold wide_columns. intros Hin.
  apply in_map_iff in Hin as (x & Hx & Hin).
  cbn [app] in Hin. split_names; subst; cbn [fst String.append] in *;
    congruence.
Qed.

(** C2, on the sample log: [max_actions_par_jour] returns a column
    [max_nb_actions] (the value for subject A is 4), and the table that
    [creer_df] returns has no such column. *)
Theorem creer_df_lacks_max_actions :
  exists w df_logs',
    creer_df sqrt_exact logs_AB = Some (w, df_logs')
    /\ column_names (max_actions_par_jour logs_AB)
       = ["pseudo"; "max_nb_actions"]%string
    /\ cell_at (max_actions_par_jour logs_AB) "A" "max_nb_actions"
       = Some (CInt 4)
    /\ ~ In "max_nb_actions"%string (column_names w)
    /\ cell_at w "A" "max_nb_actions" = None.
Proof.
  eexists. eexists. split; [vm_compute; reflexivity|].
  split; [reflexivity|]. split; [reflexivity|]. split; [|reflexivity].
  simpl. intros H.
  repeat (destruct H as [H|H]; [discriminate H|]). exact H.
Qed.

(** ** A single active day *)

Lemma filter_flat_map_key {B : Type} (h : string -> list (string * B))
  (ks : list string) (s : string) :
  NoDup ks -> In s ks ->
  (forall k x, In x (h k) -> fst x = k) ->
  filter (fun x => String.eqb (fst x) s) (flat_map h ks) = h s.
Proof.
  intros Hnd Hs Hh.
  assert (forall k, k <> s ->
                    filter (fun x => String.eqb (fst x) s) (h k) = []) as Hno.
  { intros k Hk. apply filter_none. intros x Hx.
    apply String.eqb_neq. now rewrite (Hh k x Hx). }
  assert (filter (fun x => String.eqb (fst x) s) (h s) = h s) as Hyes.
  { apply filter_all. intros x Hx. apply String.eqb_eq. now apply Hh. }
  induction Hnd as [|k ks Hk Hnd IH]; [easy|].
  cbn [flat_map]. rewrite filter_app.
  destruct Hs as [->|Hs].
  - rewrite Hyes.
    assert (filter (fun x => String.eqb (fst x) s) (flat_map h ks) = []) as ->.
    { apply filter_none. intros x Hx. apply in_flat_map in Hx as (k & Hk' & Hx).
      apply String.eqb_neq. rewrite (Hh k x Hx). now intros ->. }
    apply app_nil_r.
  - rewrite Hno by (now intros ->). now apply IH.
Qed.

Lemma groupby_pseudo_jour_group {B : Type} (f : list Event -> B)
  (evs : list Event) (s : string) :
  In s (map pseudo evs) ->
  filter (fun r => String.eqb (fst r) s) (groupby_pseudo_jour f evs)
  = map (fun d => (s, (d, f (filter (fun e => jour e =? d) (group s evs)))))
        (unique_sorted_Z (map jour (group s evs))).
Proof.
  intros H. unfold groupby_pseudo_jour, groupby. rewrite flat_map_map.
  cbn [fst snd].
  rewrite (filter_flat_map_key
             (fun k =>
                map (fun d => (k, (d, f (filter (fun e => jour e =? d)
                                                (group k evs)))))
                    (unique_sorted_Z (map jour (group k evs))))).
  - reflexivity.
  - apply unique_sorted_NoDup.
  - now apply unique_sorted_In.
  - intros k x Hx. apply in_map_iff in Hx as (d & <- & _). reflexivity.
Qed.

Lemma variabilite_activite_at (sqrt_float : Q -> Q) (df_logs : Logs)
  (s : string) :
  In s (map pseudo (events df_logs)) ->
  cell_at (variabilite_activite sqrt_float df_logs) s "std_actions_par_jour"
  = Some (std sqrt_float
            (map (fun d =>
                    inject_Z (size (filter (fun e => jour e =? d)
                                           (group s (events df_logs)))))
                 (unique_sorted_Z (map jour (group s (events df_logs)))))).
Proof.
  intros H. unfold variabilite_activite, actions_par_jour.
  rewrite cell_at_groupby; [|easy|now apply groupby_pseudo_jour_keys].
  rewrite groupby_pseudo_jour_group by easy. now rewrite map_map.
Qed.

(** C10.  For a subject whose [nb_jours_avec_action] is 1 the value of
    [std_actions_par_jour] returned by [variabilite_activite] is NaN, and
    the wide table returned by [creer_df] holds NaN for that subject in
    that column. *)
Theorem variabilite_activite_single_day (sqrt_float : Q -> Q)
  (df_logs : Logs) (s : string) :
  pseudo_free (events df_logs) ->
  In s (map pseudo (events df_logs)) ->
  cell_at (nb_jours_avec_action df_logs) s "nb_jours_avec_action"
  = Some (CInt 1) ->
  cell_at (variabilite_activite sqrt_float df_logs) s "std_actions_par_jour"
  = Some CNaN
  /\ exists w df_logs',
       creer_df sqrt_float df_logs = Some (w, df_logs')
       /\ cell_at w s "std_actions_par_jour" = Some CNaN.
Proof.
  intros Hfree Hs Hone.
  rewrite (nb_jours_avec_action_at df_logs s Hs) in Hone.
  injection Hone as Hone.
  assert (cell_at (variabilite_activite sqrt_float df_logs) s
                  "std_actions_par_jour" = Some CNaN) as Hstd.
  { rewrite (variabilite_activite_at sqrt_float df_logs s Hs). unfold std, size.
    rewrite length_map, unique_sorted_Z_length.
    unfold nunique_Z, size in Hone. rewrite Hone. reflexivity. }
  split; [exact Hstd|].
  destruct (creer_df_spec sqrt_float df_logs Hfree)
    as (w & l' & Hw & _ & _ & Hj & _).
  exists w, l'. split; [exact Hw|].
  apply (Hj VariabiliteActivite (variabilite_activite sqrt_float df_logs)).
  - discriminate.
  - reflexivity.
  - apply subjects_In. exact Hs.
  - discriminate.
  - exact Hstd.
Qed.

Lemma variabilite_activite_single_day_witness :
  cell_at (variabilite_activite sqrt_exact logs_AB) "B" "std_actions_par_jour"
  = Some CNaN
  /\ exists w df_logs',
       creer_df sqrt_exact logs_AB = Some (w, df_logs')
       /\ cell_at w "B" "std_actions_par_jour" = Some CNaN.
Proof.
  apply (variabilite_activite_single_day sqrt_exact logs_AB "B").
  - exact logs_AB_pseudo_free.
  - simpl. auto.
  - reflexivity.
Defined.


(** ** Pruning perfectly correlated columns *)

Lemma select_nil {A : Type} (mask : list bool) : select mask (@nil A) = [].
Proof. now destruct mask as [|[] m]. Qed.

Lemma col_cells_select (mask : list bool) (cols : list (string * dtype))
  (rws : list (list cell)) :
  col_cells (select mask cols) (map (select mask) rws)
  = select mask (col_cells cols rws).
Proof.
  revert mask rws. induction cols as [|c cs IH]; intros mask rws.
  - cbn [col_cells]. now rewrite !select_nil.
  - destruct mask as [|b m]; [reflexivity|].
    assert (map (@tl cell) (map (select (true :: m)) rws)
            = map (select m) (map (@tl cell) rws)) as Ht.
    { rewrite !map_map. apply map_ext. intros [|x t]; simpl; [|easy].
      now rewrite select_nil. }
    assert (map (select (false :: m)) rws
            = map (select m) (map (@tl cell) rws)) as Hf.
    { rewrite !map_map. apply map_ext. intros [|x t]; simpl; [|easy].
      now rewrite select_nil. }
    destruct b.
    + change (select (true :: m) (c :: cs)) with (c :: select m cs).
      cbn [col_cells].
      change (select (true :: m)
                ((c, map (hd CNaN) rws) :: col_cells cs (map (@tl cell) rws)))
        with ((c, map (hd CNaN) rws)
              :: select m (col_cells cs (map (@tl cell) rws))).
      rewrite Ht, IH. f_equal. f_equal.
      rewrite map_map. apply map_ext. now intros [|x t].
    + change (select (false :: m) (c :: cs)) with (select m cs).
      cbn [col_cells].
      change (select (false :: m)
                ((c, map (hd CNaN) rws) :: col_cells cs (map (@tl cell) rws)))
        with (select m (col_cells cs (map (@tl cell) rws))).
      now rewrite Hf, IH.
Qed.

Lemma col_cells_fst (cols : list (string * dtype)) (rws : list (list cell)) :
  map fst (col_cells cols rws) = cols.
Proof.
  revert rws. induction cols as [|c cs IH]; intros rws; simpl; [easy|].
  now rewrite IH.
Qed.

Lemma select_map_filter {A B : Type} (p : A -> bool) (l : list (A * B)) :
  select (map p (map fst l)) l = filter (fun x => p (fst x)) l.
Proof.
  induction l as [|x l IH]; simpl; [easy|]. now rewrite IH.
Qed.

Lemma filter_comm {A : Type} (p q : A -> bool) (l : list A) :
  filter p (filter q l) = filter q (filter p l).
Proof.
  induction l as [|x l IH]; simpl; [easy|].
  destruct (p x) eqn:Ep, (q x) eqn:Eq; simpl; rewrite ?Ep, ?Eq, IH; easy.
Qed.

Lemma frame_columns_drop (names : list string) (df : DataFrame) :
  frame_columns (drop names df)
  = filter (fun c => negb (mem (fst (fst c)) names)) (frame_columns df).
Proof.
  unfold frame_columns, drop. cbn [columns rows].
  rewrite map_map. cbn [snd].
  rewrite <- (map_map snd (select _)), col_cells_select.
  rewrite <- (col_cells_fst (columns df) (map snd (rows df))) at 1.
  apply (select_map_filter (fun c => negb (mem (fst c) names))).
Qed.

Lemma filter_nth_one {A : Type} (f : A -> bool) (l : list A) (d : A) (q : nat) :
  (q < List.length (filter f l))%nat ->
  exists q', (q' < List.length l)%nat /\ nth q (filter f l) d = nth q' l d.
Proof.
  revert q. induction l as [|a l IH]; simpl; intros q Hq; [lia|].
  destruct (f a).
  - destruct q as [|q]; [exists O; split; [lia|easy]|].
    simpl in Hq. destruct (IH q) as (q' & Hq' & E); [lia|].
    exists (S q'). split; [lia|easy].
  - destruct (IH q Hq) as (q' & Hq' & E). exists (S q'). split; [lia|easy].
Qed.

(** Filtering keeps the order of the columns. *)
Lemma filter_nth_order {A : Type} (f : A -> bool) (l : list A) (d : A)
  (p q : nat) :
  (p < q < List.length (filter f l))%nat ->
  exists p' q',
    (p' < q' < List.length l)%nat
    /\ nth p (filter f l) d = nth p' l d
    /\ nth q (filter f l) d = nth q' l d.
Proof.
  revert p q. induction l as [|a l IH]; simpl; intros p q Hpq; [lia|].
  destruct (f a).
  - destruct q as [|q]; [lia|]. simpl in Hpq. destruct p as [|p].
    + destruct (filter_nth_one f l d q) as (q' & Hq' & E); [lia|].
      exists O, (S q'). repeat split; try lia; easy.
    + destruct (IH p q) as (p' & q' & Hlt & E1 & E2); [lia|].
      exists (S p'), (S q'). repeat split; try lia; easy.
  - destruct (IH p q Hpq) as (p' & q' & Hlt & E1 & E2).
    exists (S p'), (S q'). repeat split; try lia; easy.
Qed.

Section Pruning.

Variable corr : list cell -> list cell -> cell.

Lemma columns_to_drop_In (m : list ((string * dtype) * list cell))
  (nm : string) :
  In nm (columns_to_drop corr m) <->
  exists i j, (j < i < List.length m)%nat
              /\ fst (fst (nth i m no_column)) = nm
              /\ abs_is_one (iloc corr m i j) = true.
Proof.
  unfold columns_to_drop. rewrite in_flat_map. split.
  - intros (i & Hi & H). apply in_seq in Hi.
    apply in_flat_map in H as (j & Hj & H). apply in_seq in Hj.
    destruct (abs_is_one (iloc corr m i j)) eqn:E; [|easy].
    destruct H as [<-|[]]. exists i, j. repeat split; auto; lia.
  - intros (i & j & Hlt & <- & E). exists i. split; [apply in_seq; lia|].
    apply in_flat_map. exists j. split; [apply in_seq; lia|].
    rewrite E. now left.
Qed.

Lemma numeric_columns_pruned (df : DataFrame) :
  numeric_columns (enlever_correlations_complets corr df)
  = filter (fun c => negb (mem (fst (fst c))
                               (columns_to_drop corr (numeric_columns df))))
           (numeric_columns df).
Proof.
  unfold enlever_correlations_complets, numeric_columns.
  rewrite frame_columns_drop. apply filter_comm.
Qed.

End Pruning.

Lemma select_filter {A : Type} (p : A -> bool) (l : list A) :
  select (map p l) l = filter p l.
Proof. induction l as [|x l IH]; simpl; [easy|]. now rewrite IH. Qed.

(** C7.  The scan marks the name of numeric column [i] exactly when some
    earlier numeric column [j < i] has a coefficient of magnitude 1 with
    it; the cleaned table keeps the columns whose name is not marked, in
    their order; among the numeric columns it keeps, no later column has a
    coefficient of magnitude 1 with an earlier one; and, column names being
    distinct, the first numeric column is always kept. *)
Theorem enlever_correlations_complets_prunes
  (corr : list cell -> list cell -> cell) (df : DataFrame) :
  (forall nm,
      In nm (columns_to_drop corr (numeric_columns df)) <->
      exists i j,
        (j < i < List.length (numeric_columns df))%nat
        /\ fst (fst (nth i (numeric_columns df) no_column)) = nm
        /\ abs_is_one (corr (snd (nth i (numeric_columns df) no_column))
                            (snd (nth j (numeric_columns df) no_column)))
           = true)
  /\ columns (enlever_correlations_complets corr df)
     = filter (fun c => negb (mem (fst c)
                                  (columns_to_drop corr (numeric_columns df))))
              (columns df)
  /\ numeric_columns (enlever_correlations_complets corr df)
     = filter (fun c => negb (mem (fst (fst c))
                                  (columns_to_drop corr (numeric_columns df))))
              (numeric_columns df)
  /\ (forall p q,
         (p < q < List.length
                    (numeric_columns (enlever_correlations_complets corr df)))%nat ->
         abs_is_one
           (corr (snd (nth q (numeric_columns
                                (enlever_correlations_complets corr df))
                           no_column))
                 (snd (nth p (numeric_columns
                                (enlever_correlations_complets corr df))
                           no_column)))
         = false)
  /\ (NoDup (map (fun c => fst (fst c)) (numeric_columns df)) ->
      forall c, nth_error (numeric_columns df) 0 = Some c ->
                In c (numeric_columns (enlever_correlations_complets corr df))).
Proof.
  split; [intros nm; apply columns_to_drop_In|].
  split; [unfold enlever_correlations_complets, drop; cbn [columns];
          apply select_filter|].
  split; [apply numeric_columns_pruned|].
  rewrite numeric_columns_pruned.
  set (m := numeric_columns df).
  set (keep := fun c : (string * dtype) * list cell =>
                 negb (mem (fst (fst c)) (columns_to_drop corr m))).
  split.
  - intros p q Hpq.
    destruct (filter_nth_order keep m no_column p q Hpq)
      as (p' & q' & Hlt & -> & Eq).
    assert (keep (nth q (filter keep m) no_column) = true) as Hk.
    { assert (In (nth q (filter keep m) no_column) (filter keep m)) as Hin
          by (apply nth_In; lia).
      now apply filter_In in Hin. }
    rewrite Eq in *.
    destruct (abs_is_one _) eqn:E; [|reflexivity].
    unfold keep in Hk. apply negb_true_iff in Hk.
    assert (In (fst (fst (nth q' m no_column))) (columns_to_drop corr m)) as Hin.
    { apply columns_to_drop_In. exists q', p'. repeat split; auto; lia. }
    unfold mem in Hk.
    assert (existsb (String.eqb (fst (fst (nth q' m no_column))))
                    (columns_to_drop corr m) = true) as Hex.
    { apply existsb_exists. eexists. split; [exact Hin|apply String.eqb_refl]. }
    congruence.
  - intros Hnd c Hc. apply filter_In. split.
    + apply nth_error_In in Hc. exact Hc.
    + unfold keep. apply negb_true_iff.
      destruct (mem (fst (fst c)) (columns_to_drop corr m)) eqn:E; [|easy].
      apply existsb_exists in E as (x & Hx & Hex).
      apply String.eqb_eq in Hex. subst x.
      apply columns_to_drop_In in Hx as (i & j & Hlt & Hname & _).
      assert (nth 0 m no_column = c) as H0.
      { destruct m; [easy|]. now injection Hc. }
      assert (i = 0%nat).
      { apply (proj1 (NoDup_nth (map (fun c => fst (fst c)) m) ""%string) Hnd).
        - rewrite length_map. lia.
        - rewrite length_map. lia.
        - change ""%string with (fst (fst no_column)).
          rewrite !(map_nth (fun c => fst (fst c))). now rewrite H0. }
      lia.
Qed.

(** The sample table: [y] is twice [x] and is removed; [x], [top] and [z]
    stay. *)
Example enlever_correlations_complets_sample :
  column_names (enlever_correlations_complets (pearson sqrt_exact) frame_xyz)
  = ["x"; "top"; "z"]%string.
Proof. reflexivity. Qed.

(** ** Rounding to float64 *)







Lemma pow2_succ (e : Z) : (2 ^ (e + 1) == 2 * 2 ^ e)%Q.
Proof. rewrite Qpower_plus by discriminate. change (2 ^ 1)%Q with 2%Q. ring. Qed.























(** ** Scaling *)




Lemma nth_error_combine {A B : Type} (la : list A) (lb : list B) (j : nat)
  (a : A) (b : B) :
  nth_error la j = Some a -> nth_error lb j = Some b ->
  nth_error (combine la lb) j = Some (a, b).
Proof.
  revert lb j. induction la as [|x la IH]; intros [|y lb] [|j]; simpl; try easy.
  - now intros [= ->] [= ->].
  - apply IH.
Qed.

Section Scaling.

Variable float_of_string : string -> option (option Q).






End Scaling.



(** ** Encoding *)

(** C4, on two tables.  The indicators are computed row by row, in order,
    and then attached by index label.  In [frame_shuffled] the row of
    category [a] carries label 1 and receives the indicators of the second
    row, which say [b], and conversely; in [frame_holdout] no label is
    found and both rows receive missing values, so no indicator is 1. *)
Theorem encodage_by_label (str_float : Q -> string) :
  encodage str_float frame_shuffled
  = Some {| columns := [("n", int64); ("top_a", float64);
                        ("top_b", float64)]%string;
            rows := [ (1, [CInt 10; CFloat 0; CFloat 1]);
                      (0, [CInt 20; CFloat 1; CFloat 0]) ] |}
  /\ encodage str_float frame_holdout
     = Some {| columns := [("n", int64); ("top_a", float64);
                           ("top_b", float64)]%string;
               rows := [ (5, [CInt 10; CNaN; CNaN]);
                         (7, [CInt 20; CNaN; CNaN]) ] |}.
Proof. split; reflexivity. Qed.

(** On a table whose index is 0, 1, ... the labels are the positions, and
    every row receives its own indicators. *)

Lemma find_label_from {A : Type} (l : list A) (k p : nat) (a : A) :
  nth_error l p = Some a ->
  find (fun r => fst r =? Z.of_nat (k + p))
       (combine (map Z.of_nat (seq k (List.length l))) l)
  = Some (Z.of_nat (k + p), a).
Proof.
  revert k p. induction l as [|x l IH]; intros k p H; [now destruct p|].
  cbn [List.length seq map combine find fst].
  destruct p as [|p].
  - injection H as ->. rewrite Nat.add_0_r, Z.eqb_refl. reflexivity.
  - destruct (Z.eqb_spec (Z.of_nat k) (Z.of_nat (k + S p))) as [E|_]; [lia|].
    replace (k + S p)%nat with (S k + p)%nat by lia.
    now apply IH.
Qed.

Lemma find_label_range_index {A : Type} (l : list A) (p : nat) (a : A) :
  nth_error l p = Some a ->
  find (fun r => fst r =? Z.of_nat p) (range_index l) = Some (Z.of_nat p, a).
Proof. apply (find_label_from l 0 p a). Qed.

Lemma range_label (rs : list (Z * list cell)) (p : nat) (r : Z * list cell) :
  map fst rs = map Z.of_nat (seq 0 (List.length rs)) ->
  nth_error rs p = Some r -> fst r = Z.of_nat p.
Proof.
  intros Hidx Hr.
  pose proof (map_nth_error fst p rs Hr) as H1.
  rewrite Hidx in H1.
  assert (p < List.length rs)%nat as Hp by (apply nth_error_Some; congruence).
  rewrite (map_nth_error Z.of_nat p (seq 0 (List.length rs)) (d := p)) in H1.
  - congruence.
  - rewrite (nth_error_nth' _ O) by (rewrite length_seq; lia).
    now rewrite seq_nth.
Qed.

(** The error cases of [encodage], and what it computes otherwise. *)
Lemma categorical_nonempty (df : DataFrame) :
  existsb is_object (columns df) = true ->
  select (map is_object (columns df)) (columns df) <> [].
Proof.
  intros H E. rewrite select_filter in E.
  apply existsb_exists in H as (c & Hc & Ho).
  assert (In c (filter is_object (columns df))) as Hin
      by (apply filter_In; now split).
  rewrite E in Hin. destruct Hin.
Qed.

Lemma encodage_no_rows (str_float : Q -> string) (df : DataFrame) :
  existsb is_object (columns df) = true -> rows df = [] ->
  encodage str_float df = None.
Proof.
  intros Ho Hr. pose proof (categorical_nonempty df Ho) as Hc.
  unfold encodage. rewrite Hr.
  destruct (select (map is_object (columns df)) (columns df));
    [now elim Hc|reflexivity].
Qed.

Lemma encodage_mixed (str_float : Q -> string) (df : DataFrame) :
  existsb (fun c => mixed (snd c))
          (select (map is_object (columns df)) (frame_columns df)) = true ->
  encodage str_float df = None.
Proof.
  intros H. unfold encodage. rewrite H.
  destruct (select (map is_object (columns df)) (columns df));
    destruct (rows df); reflexivity.
Qed.

Lemma encodage_rows (str_float : Q -> string) (df : DataFrame) :
  rows df <> [] ->
  existsb (fun c => mixed (snd c))
          (select (map is_object (columns df)) (frame_columns df)) = false ->
  encodage str_float df
  = join (drop (map fst (select (map is_object (columns df)) (columns df)))
               df)
         (df_encoded str_float df).
Proof.
  intros Hr Hm. unfold encodage, df_encoded. rewrite Hm.
  destruct (rows df); [now elim Hr|].
  destruct (select (map is_object (columns df)) (columns df)); reflexivity.
Qed.

Lemma encodage_some (str_float : Q -> string) (df d : DataFrame) :
  encodage str_float df = Some d ->
  join (drop (map fst (select (map is_object (columns df)) (columns df)))
             df)
       (df_encoded str_float df)
  = Some d.
Proof.
  unfold encodage, df_encoded. intros H.
  destruct (existsb (fun c => mixed (snd c))
                    (select (map is_object (columns df)) (frame_columns df))).
  - destruct (select (map is_object (columns df)) (columns df));
      destruct (rows df); discriminate H.
  - destruct (select (map is_object (columns df)) (columns df));
      destruct (rows df); first [discriminate H | exact H].
Qed.

(** X13.  What [encodage] returns on a table with distinct column names
    that has a categorical column and at least one row, whose categorical
    columns do not mix texts and numbers, and that is indexed 0, 1, ...,
    when no remaining column bears the name of an indicator column: the
    columns that are not categorical, followed by the indicator columns,
    each row keeping its label and receiving the indicators of its own
    categories. *)
Theorem encodage_range_index (str_float : Q -> string) (df : DataFrame) :
  NoDup (column_names df) ->
  existsb is_object (columns df) = true ->
  rows df <> [] ->
  let mask := map is_object (columns df) in
  existsb (fun c => mixed (snd c)) (select mask (frame_columns df)) = false ->
  map fst (rows df) = map Z.of_nat (seq 0 (List.length (rows df))) ->
  let cats := map (fun c => (fst (fst c), categories (snd c)))
                  (select mask (frame_columns df)) in
  let kept := drop (map fst (select mask (columns df))) df in
  existsb (fun c => mem (fst c) (map fst (feature_names str_float cats)))
          (columns kept)
  = false ->
  encodage str_float df
  = Some {| columns := columns kept ++ feature_names str_float cats;
            rows := map (fun r =>
                           (fst r,
                            select (map (fun c =>
                                           negb (mem (fst c)
                                                   (map fst (select mask
                                                               (columns df)))))
                                        (columns df))
                                   (snd r)
                            ++ encode_row cats (select mask (snd r))))
                        (rows df) |}.
Proof.
  intros _ _ Hrows mask Hmixed Hidx cats kept Hover.
  rewrite (encodage_rows str_float df Hrows Hmixed).
  unfold df_encoded. fold mask. fold cats. fold kept.
  unfold join, column_names. cbn [columns rows]. rewrite Hover.
  f_equal. f_equal. unfold kept, drop. cbn [rows].
  rewrite map_map. apply map_ext_in. intros r Hr. cbn [fst snd].
  f_equal. f_equal.
  apply In_nth_error in Hr as (p & Hp).
  rewrite (range_label (rows df) p r Hidx Hp).
  rewrite (find_label_range_index _ p (encode_row cats (select mask (snd r)))).
  - reflexivity.
  - now rewrite nth_error_map, Hp.
Qed.

Lemma encodage_range_index_witness :
  encodage str_sample frame_ordered
  = Some {| columns := [("n", int64); ("top_a", float64);
                        ("top_b", float64)]%string;
            rows := [ (0, [CInt 10; CFloat 1; CFloat 0]);
                      (1, [CInt 20; CFloat 0; CFloat 1]) ] |}.
Proof.
  apply (encodage_range_index str_sample frame_ordered).
  - repeat constructor; cbn; intuition discriminate.
  - reflexivity.
  - discriminate.
  - reflexivity.
  - reflexivity.
  - reflexivity.
Defined.

(** The categories of a column. *)
Lemma categories_In (xs : list cell) (s : string) :
  In (CStr s) xs -> In (CStr s) (categories xs).
Proof.
  intros H. unfold categories. apply in_or_app. left. apply in_map.
  apply unique_sorted_In. unfold strings_of. apply in_flat_map.
  exists (CStr s). split; [exact H|now left].
Qed.

Lemma insert_number_perm (c : cell) (l : list cell) :
  Permutation (insert_number c l) (c :: l).
Proof.
  induction l as [|d l IH]; cbn [insert_number]; [reflexivity|].
  destruct (Qle_bool (number c) (number d)); [reflexivity|].
  rewrite IH. apply perm_swap.
Qed.

Lemma sorted_numbers_perm (l : list cell) : Permutation (sorted_numbers l) l.
Proof.
  unfold sorted_numbers. induction l as [|c l IH]; [reflexivity|].
  cbn [fold_right]. rewrite insert_number_perm. now constructor.
Qed.

Lemma distinct_numbers_incl (l : list cell) (c : cell) :
  In c (distinct_numbers l) -> In c l.
Proof.
  induction l as [|d l IH]; [intros []|].
  cbn [distinct_numbers]. intros [<-|H]; [now left|].
  right. apply IH. now apply filter_In in H.
Qed.

Lemma distinct_numbers_NoDup (l : list cell) : NoDup (distinct_numbers l).
Proof.
  induction l as [|d l IH]; cbn [distinct_numbers]; constructor.
  - intros H. apply filter_In in H as (_ & H).
    assert (Qeq_bool (number d) (number d) = true) as E
        by (apply Qeq_bool_iff; reflexivity).
    rewrite E in H. discriminate H.
  - now apply NoDup_filter.
Qed.

Lemma number_categories (xs : list cell) (c : cell) :
  In c (sorted_numbers (distinct_numbers (filter is_number xs))) ->
  is_number c = true.
Proof.
  intros H. apply (Permutation_in _ (sorted_numbers_perm _)) in H.
  apply distinct_numbers_incl in H.
  now apply filter_In in H.
Qed.

Lemma categories_str_NoDup (xs : list cell) :
  NoDup (categories xs).
Proof.
  unfold categories.
  assert (NoDup (map CStr (unique_sorted (strings_of xs)))) as H1.
  { apply Injective_map_NoDup.
    - intros a b E. now injection E.
    - apply unique_sorted_NoDup. }
  assert (NoDup (sorted_numbers (distinct_numbers (filter is_number xs))))
    as H2.
  { apply (Permutation_NoDup (Permutation_sym (sorted_numbers_perm _))).
    apply distinct_numbers_NoDup. }
  assert (NoDup (if has_nan xs then [CNaN] else [])) as H3
      by (destruct (has_nan xs); repeat constructor; intros []).
  apply NoDup_app; [exact H1| |].
  - apply NoDup_app; [exact H2|exact H3|].
    intros c Hc Hn. apply number_categories in Hc.
    destruct (has_nan xs); [|destruct Hn].
    destruct Hn as [<-|[]]. discriminate Hc.
  - intros c Hc Hin. apply in_map_iff in Hc as (s & <- & _).
    apply in_app_or in Hin as [Hin|Hin].
    + apply number_categories in Hin. discriminate Hin.
    + destruct (has_nan xs); [|destruct Hin].
      destruct Hin as [E|[]]. discriminate E.
Qed.

(** On a column of text, the indicators of a value are 1 at its position
    among the categories and 0 everywhere else. *)
Lemma indicators_one_hot (xs : list cell) (s : string) :
  In (CStr s) xs ->
  exists p,
    nth_error (categories xs) p = Some (CStr s)
    /\ forall q v,
         nth_error (categories xs) q = Some v ->
         Q_of_bool (same_category (CStr s) v)
         = (if Nat.eqb q p then 1%Q else 0%Q).
Proof.
  intros H. apply categories_In in H.
  apply In_nth_error in H as (p & Hp). exists p. split; [exact Hp|].
  intros q v Hq.
  destruct (Nat.eqb_spec q p) as [->|Hne].
  - rewrite Hp in Hq. injection Hq as <-. cbn [same_category].
    now rewrite String.eqb_refl.
  - destruct v; cbn [same_category is_number andb]; try reflexivity.
    destruct (String.eqb_spec s s0) as [->|_]; [|reflexivity].
    exfalso. apply Hne.
    apply (proj1 (NoDup_nth_error (categories xs)) (categories_str_NoDup xs)).
    + apply nth_error_Some. congruence.
    + congruence.
Qed.


(** * Further properties of the aggregators *)

(** ** Counting by key *)

Section Counting.

Context {A K : Type}.
Variable eqb : K -> K -> bool.
Hypothesis eqb_spec : forall a b, eqb a b = true <-> a = b.
Variable key : A -> K.

Lemma one_key (ks : list K) (k0 : K) :
  NoDup ks -> In k0 ks ->
  Zsum (map (fun k => if eqb k0 k then 1 else 0) ks) = 1.
Proof.
  induction 1 as [|k ks Hk Hnd IH]; [intros []|].
  intros Hin. cbn [map Zsum fold_right]. fold (Zsum (map (fun k => if eqb k0 k then 1 else 0) ks)).
  destruct (eqb k0 k) eqn:E.
  - apply eqb_spec in E. subst k.
    assert (Zsum (map (fun k => if eqb k0 k then 1 else 0) ks) = 0) as ->; [|lia].
    clear IH Hin Hnd. induction ks as [|a ks IH]; [reflexivity|].
    cbn [map Zsum fold_right].
    fold (Zsum (map (fun k => if eqb k0 k then 1 else 0) ks)).
    destruct (eqb k0 a) eqn:Ea.
    + apply eqb_spec in Ea. subst a. exfalso. apply Hk. now left.
    + rewrite IH; [lia|]. intros H. apply Hk. now right.
  - destruct Hin as [->|Hin].
    + assert (eqb k0 k0 = true) as E' by (now apply eqb_spec). congruence.
    + rewrite (IH Hin). lia.
Qed.

Lemma Zsum_map_add {B : Type} (f g : B -> Z) (l : list B) :
  Zsum (map (fun x => f x + g x) l) = Zsum (map f l) + Zsum (map g l).
Proof.
  induction l as [|x l IH]; [reflexivity|].
  cbn [map Zsum fold_right] in *. unfold Zsum in IH. rewrite IH. lia.
Qed.

(** The groups of a list by distinct keys covering it hold as many
    elements together as the list. *)
Lemma count_by_keys (l : list A) (ks : list K) :
  NoDup ks -> (forall x, In x l -> In (key x) ks) ->
  Zsum (map (fun k => size (filter (fun a => eqb (key a) k) l)) ks) = size l.
Proof.
  intros Hnd. induction l as [|x l IH]; intros Hin.
  - unfold size. cbn [filter List.length]. induction ks as [|k ks IHk]; [reflexivity|].
    cbn [map Zsum fold_right]. inversion Hnd; subst.
    unfold Zsum in IHk. rewrite IHk; auto. intros ? [].
  - transitivity
      (Zsum (map (fun k => size (filter (fun a => eqb (key a) k) l)
                           + (if eqb (key x) k then 1 else 0)) ks)).
    + f_equal. apply map_ext. intros k. cbn [filter].
      destruct (eqb (key x) k); unfold size; cbn [List.length]; lia.
    + rewrite Zsum_map_add, IH, one_key; auto.
      * unfold size. cbn [List.length]. lia.
      * apply Hin. now left.
      * intros y Hy. apply Hin. now right.
Qed.

End Counting.

(** ** Volume and daily rates *)


Lemma group_pseudo (s : string) (evs : list Event) (e : Event) :
  In e (group s evs) -> In e evs /\ pseudo e = s.
Proof.
  intros H. apply filter_In in H as [H1 H2]. split; [exact H1|].
  now apply String.eqb_eq.
Qed.

Lemma Qsum_inject {B : Type} (f : B -> Z) (l : list B) :
  (Qsum (map (fun x => inject_Z (f x)) l) == inject_Z (Zsum (map f l)))%Q.
Proof.
  induction l as [|x l IH]; [reflexivity|].
  cbn [map Qsum Zsum fold_right] in *. unfold Qsum, Zsum in IH.
  rewrite IH, inject_Z_plus. reflexivity.
Qed.


Lemma days_of_length (g : list Event) :
  size (days_of g) = nunique_Z (map jour g).
Proof.
  unfold size, days_of, nunique_Z, size. now rewrite unique_sorted_Z_length.
Qed.

Lemma count_on_bounds (g : list Event) (d : Z) :
  In d (days_of g) -> 1 <= count_on d g <= size g.
Proof.
  intros H. unfold days_of in H.
  apply (proj1 (unique_sorted_Z_In _ _)) in H.
  apply in_map_iff in H as (e & He & Hin).
  unfold count_on, size. split.
  - assert (In e (filter (fun x => jour x =? d) g)) as Hf.
    { apply filter_In. split; [exact Hin|]. apply Z.eqb_eq. exact He. }
    destruct (filter (fun x => jour x =? d) g); [destruct Hf|].
    cbn [List.length]. lia.
  - pose proof (filter_length_le (fun x => jour x =? d) g). lia.
Qed.

Lemma moyenne_actions_par_jour_at (df_logs : Logs) (s : string) :
  In s (map pseudo (events df_logs)) ->
  cell_at (moyenne_actions_par_jour df_logs) s "moyenne_nb_actions"
  = Some (mean (map (fun d => inject_Z (count_on d (group s (events df_logs))))
                    (days_of (group s (events df_logs))))).
Proof.
  intros H. unfold moyenne_actions_par_jour, actions_par_jour.
  rewrite cell_at_groupby;
    [|discriminate|apply groupby_pseudo_jour_keys; exact H].
  rewrite (groupby_pseudo_jour_group size (events df_logs) s H).
  rewrite map_map. reflexivity.
Qed.

Lemma max_actions_par_jour_at (df_logs : Logs) (s : string) :
  In s (map pseudo (events df_logs)) ->
  cell_at (max_actions_par_jour df_logs) s "max_nb_actions"
  = Some (max_ (map (fun d => count_on d (group s (events df_logs)))
                    (days_of (group s (events df_logs))))).
Proof.
  intros H. unfold max_actions_par_jour, actions_par_jour.
  rewrite cell_at_groupby;
    [|discriminate|apply groupby_pseudo_jour_keys; exact H].
  rewrite (groupby_pseudo_jour_group size (events df_logs) s H).
  rewrite map_map. reflexivity.
Qed.

Lemma nb_actions_at (df_logs : Logs) (s : string) :
  In s (map pseudo (events df_logs)) ->
  cell_at (nb_actions df_logs) s "nb_actions"
  = Some (CInt (size (group s (events df_logs)))).
Proof.
  intros H. unfold nb_actions.
  rewrite cell_at_groupby; [reflexivity|discriminate|exact H].
Qed.

Lemma group_size_pos (s : string) (evs : list Event) :
  In s (map pseudo evs) -> 1 <= size (group s evs).
Proof.
  intros H. pose proof (group_nonempty s evs H) as Hg.
  unfold size. destruct (group s evs); [now elim Hg|].
  cbn [List.length]. lia.
Qed.

Lemma days_of_nonempty (g : list Event) : g <> [] -> days_of g <> [].
Proof.
  intros Hg E. destruct g as [|e g]; [now elim Hg|].
  assert (In (jour e) (days_of (e :: g))) as H.
  { apply unique_sorted_Z_In. now left. }
  rewrite E in H. destruct H.
Qed.

(** X1.  The table of [nb_actions] has one row per subject, in sorted
    order, holding the number of the subject's events, which is at least
    1; these numbers add up to the number of events of the log. *)
Theorem nb_actions_counts (df_logs : Logs) :
  map snd (rows (nb_actions df_logs))
  = map (fun s => [CStr s; CInt (size (group s (events df_logs)))])
        (subjects (events df_logs))
  /\ (forall s, In s (map pseudo (events df_logs)) ->
                cell_at (nb_actions df_logs) s "nb_actions"
                = Some (CInt (size (group s (events df_logs))))
                /\ 1 <= size (group s (events df_logs)))
  /\ Zsum (map (fun s => size (group s (events df_logs)))
               (subjects (events df_logs)))
     = size (events df_logs).
Proof.
  split; [|split].
  - unfold nb_actions, reset_index. cbn [rows].
    rewrite range_index_snd, agg_groupby, map_map. reflexivity.
  - intros s Hs. split; [apply nb_actions_at; exact Hs|].
    apply group_size_pos. exact Hs.
  - unfold group, subjects.
    apply (count_by_keys String.eqb String.eqb_eq pseudo).
    + apply unique_sorted_NoDup.
    + intros x Hx. apply unique_sorted_In. now apply in_map.
Qed.



Lemma Zmax_list_In (l : list Z) : l <> [] -> In (Zmax_list l) l.
Proof.
  intros Hl. destruct l as [|a l]; [now elim Hl|]. clear Hl.
  unfold Zmax_list. cbn [hd].
  assert (forall d t, In (fold_right Z.max d t) (d :: t)) as H.
  { intros d t. induction t as [|x t IH]; [now left|].
    cbn [fold_right].
    destruct (Z.max_spec x (fold_right Z.max d t)) as [[_ ->]|[_ ->]].
    - destruct IH as [IH|IH]; [now left|right; now right].
    - right. now left. }
  cbn [fold_right].
  destruct (Z.max_spec a (fold_right Z.max a l)) as [[_ ->]|[_ ->]].
  - destruct (H a l) as [E|E]; [left; exact E|right; exact E].
  - now left.
Qed.

Lemma Zsum_le {B : Type} (f : B -> Z) (l : list B) (M : Z) :
  (forall x, In x l -> f x <= M) -> Zsum (map f l) <= size l * M.
Proof.
  unfold size. induction l as [|x l IH]; intros H; [reflexivity|].
  cbn [map Zsum fold_right List.length]. unfold Zsum in IH.
  specialize (IH (fun y Hy => H y (or_intror Hy))).
  specialize (H x (or_introl eq_refl)). lia.
Qed.

(** X3.  For every subject with at least one event, the largest daily
    count is the count of one of the subject's active days, no day has
    more events, and it lies between the mean daily count and the number
    of actions (and is at least 1). *)
Theorem max_actions_par_jour_bounds (df_logs : Logs) (s : string) :
  In s (map pseudo (events df_logs)) ->
  exists (M a : Z) (m : Q),
    cell_at (max_actions_par_jour df_logs) s "max_nb_actions" = Some (CInt M)
    /\ cell_at (nb_actions df_logs) s "nb_actions" = Some (CInt a)
    /\ cell_at (moyenne_actions_par_jour df_logs) s "moyenne_nb_actions"
       = Some (CFloat m)
    /\ (exists d, In d (map jour (group s (events df_logs)))
                  /\ M = count_on d (group s (events df_logs)))
    /\ (forall d, count_on d (group s (events df_logs)) <= M)
    /\ 1 <= M <= a
    /\ (m <= inject_Z M)%Q.
Proof.
  intros H.
  set (g := group s (events df_logs)).
  pose proof (group_nonempty s (events df_logs) H) as Hg. fold g in Hg.
  pose proof (days_of_nonempty g Hg) as Hd.
  set (counts := map (fun d => count_on d g) (days_of g)).
  assert (counts <> []) as Hc.
  { unfold counts. intros E. apply map_eq_nil in E. now apply Hd. }
  exists (Zmax_list counts), (size g).
  exists (Qsum (map (fun d => inject_Z (count_on d g)) (days_of g))
          / inject_Z (size (map (fun d => inject_Z (count_on d g)) (days_of g))))%Q.
  pose proof (Zmax_list_In counts Hc) as Hin.
  unfold counts in Hin at 2. apply in_map_iff in Hin as (d0 & Hd0 & Hd0in).
  pose proof (count_on_bounds g d0 Hd0in) as Hb.
  assert (forall d, In d (days_of g) -> count_on d g <= Zmax_list counts) as Hle.
  { intros d Hdin. apply Zmax_list_ge. unfold counts.
    apply (in_map (fun d => count_on d g)). exact Hdin. }
  split.
  { rewrite (max_actions_par_jour_at df_logs s H). fold g. fold counts.
    unfold max_. destruct counts; [now elim Hc|reflexivity]. }
  split; [apply nb_actions_at; exact H|].
  split.
  { rewrite (moyenne_actions_par_jour_at df_logs s H). fold g.
    unfold mean. destruct (days_of g); [now elim Hd|reflexivity]. }
  split.
  { exists d0. split; [|now symmetry].
    unfold days_of in Hd0in. exact (proj1 (unique_sorted_Z_In _ _) Hd0in). }
  split.
  { intros d. destruct (in_dec Z.eq_dec d (days_of g)) as [Hi|Hi].
    - apply Hle. exact Hi.
    - assert (count_on d g = 0) as ->; [|lia].
      unfold count_on.
      rewrite (filter_none (fun e => jour e =? d) g); [reflexivity|].
      intros x Hx. apply Z.eqb_neq. intros E. apply Hi.
      unfold days_of. apply unique_sorted_Z_In. rewrite <- E.
      now apply in_map. }
  split; [lia|].
  assert (size (map (fun d => inject_Z (count_on d g)) (days_of g))
          = size (days_of g)) as ->.
  { unfold size. now rewrite length_map. }
  rewrite Qsum_inject.
  assert (0 < size (days_of g)) as Hpos.
  { unfold size. destruct (days_of g); [now elim Hd|cbn [List.length]; lia]. }
  apply Qle_shift_div_r.
  - unfold Qlt. simpl. lia.
  - rewrite <- inject_Z_mult, <- Zle_Qle.
    pose proof (Zsum_le (fun d => count_on d g) (days_of g) (Zmax_list counts) Hle).
    lia.
Qed.

Lemma max_actions_par_jour_bounds_witness :
  exists (M a : Z) (m : Q),
    cell_at (max_actions_par_jour logs_AB) "A" "max_nb_actions" = Some (CInt M)
    /\ cell_at (nb_actions logs_AB) "A" "nb_actions" = Some (CInt a)
    /\ cell_at (moyenne_actions_par_jour logs_AB) "A" "moyenne_nb_actions"
       = Some (CFloat m)
    /\ (exists d, In d (map jour (group "A" (events logs_AB)))
                  /\ M = count_on d (group "A" (events logs_AB)))
    /\ (forall d, count_on d (group "A" (events logs_AB)) <= M)
    /\ 1 <= M <= a
    /\ (m <= inject_Z M)%Q.
Proof.
  apply (max_actions_par_jour_bounds logs_AB "A"). simpl. auto.
Defined.

(** ** Weekends, daily spans, breadth *)

Lemma fraction_range (f : Event -> bool) (g : list Event) :
  g <> [] -> (0 <= fraction f g <= 1)%Q.
Proof.
  intros Hg. unfold fraction.
  assert (0 < size g) as Hpos.
  { unfold size. destruct g; [now elim Hg|cbn [List.length]; lia]. }
  assert (0 <= size (filter f g) <= size g) as Hb.
  { unfold size. pose proof (filter_length_le f g). lia. }
  assert (0 < inject_Z (size g))%Q as Hq by (unfold Qlt; simpl; lia).
  split.
  - apply Qle_shift_div_l; [exact Hq|].
    rewrite Qmult_0_l. change 0%Q with (inject_Z 0). rewrite <- Zle_Qle. lia.
  - apply Qle_shift_div_r; [exact Hq|].
    rewrite Qmult_1_l. rewrite <- Zle_Qle. lia.
Qed.

Lemma semaine_vs_weekend_at (df_logs : Logs) (s : string) :
  In s (map pseudo (events df_logs)) ->
  cell_at (fst (semaine_vs_weekend df_logs)) s "pct_weekend"
  = Some (mean (map (fun e => Q_of_bool (5 <=? weekday (jour e)))
                    (group s (events df_logs)))).
Proof.
  intros H. unfold semaine_vs_weekend. cbn [fst set_column events].
  rewrite map_map.
  apply (mean_by_pseudo_at "pct_weekend" (fun e => 5 <=? weekday (jour e)));
    [discriminate|exact H].
Qed.

(** X4.  For every subject with at least one event, [pct_weekend] is the
    share of the subject's events whose day of the week, counted from
    Monday = 0 and always between 0 and 6, is 5 or 6; it lies in [0, 1], is
    0 when no event falls on such a day and 1 when all do. *)
Theorem pct_weekend_range (df_logs : Logs) (s : string) :
  In s (map pseudo (events df_logs)) ->
  exists q : Q,
    cell_at (fst (semaine_vs_weekend df_logs)) s "pct_weekend"
    = Some (CFloat q)
    /\ (q == fraction (fun e => 5 <=? weekday (jour e))
                      (group s (events df_logs)))%Q
    /\ (0 <= q <= 1)%Q
    /\ (forall e, 0 <= weekday (jour e) <= 6)
    /\ ((forall e, In e (group s (events df_logs)) -> weekday (jour e) < 5) ->
        (q == 0)%Q)
    /\ ((forall e, In e (group s (events df_logs)) -> 5 <= weekday (jour e)) ->
        (q == 1)%Q).
Proof.
  intros H.
  pose proof (group_nonempty s (events df_logs) H) as Hg.
  destruct (mean_flags (fun e => 5 <=? weekday (jour e)) _ Hg) as (q & Eq & Hq).
  exists q. rewrite (semaine_vs_weekend_at df_logs s H), Eq.
  split; [reflexivity|]. split; [exact Hq|].
  set (g := group s (events df_logs)) in *.
  assert (~ (inject_Z (size g) == 0)%Q) as Hsz.
  { unfold size, Qeq. simpl. destruct g; [now elim Hg|simpl; lia]. }
  split; [rewrite Hq; apply fraction_range; exact Hg|].
  split.
  { intros e. unfold weekday.
    pose proof (Z.mod_pos_bound (jour e + 3) 7). lia. }
  split.
  - intros Hw. rewrite Hq. unfold fraction.
    rewrite (filter_none (fun e => 5 <=? weekday (jour e)) g).
    + change (size (@nil Event)) with 0. change (inject_Z 0) with 0%Q.
      field. exact Hsz.
    + intros x Hx. apply Z.leb_gt. apply Hw. exact Hx.
  - intros Hw. rewrite Hq. unfold fraction.
    rewrite (filter_all (fun e => 5 <=? weekday (jour e)) g).
    + field. exact Hsz.
    + intros x Hx. apply Z.leb_le. apply Hw. exact Hx.
Qed.

Lemma pct_weekend_range_witness :
  exists q : Q,
    cell_at (fst (semaine_vs_weekend logs_AB)) "A" "pct_weekend"
    = Some (CFloat q)
    /\ (0 <= q <= 1)%Q.
Proof.
  destruct (pct_weekend_range logs_AB "A") as (q & H1 & _ & H2 & _).
  - simpl. auto.
  - exists q. split; [exact H1|exact H2].
Defined.

Lemma Zmin_le_Zmax (l : list Z) : l <> [] -> Zmin_list l <= Zmax_list l.
Proof.
  intros Hl. destruct l as [|a l]; [now elim Hl|].
  pose proof (Zmin_list_le (a :: l) a (or_introl eq_refl)).
  pose proof (Zmax_list_ge (a :: l) a (or_introl eq_refl)). lia.
Qed.

Lemma Qsum_nonneg (l : list Q) :
  (forall x, In x l -> (0 <= x)%Q) -> (0 <= Qsum l)%Q.
Proof.
  induction l as [|x l IH]; intros H; [apply Qle_refl|].
  cbn [Qsum fold_right]. fold (Qsum l).
  pose proof (H x (or_introl eq_refl)).
  pose proof (IH (fun y Hy => H y (or_intror Hy))). lra.
Qed.

Lemma Qsum_zero (l : list Q) :
  (forall x, In x l -> (x == 0)%Q) -> (Qsum l == 0)%Q.
Proof.
  induction l as [|x l IH]; intros H; [reflexivity|].
  cbn [Qsum fold_right]. fold (Qsum l).
  rewrite (H x (or_introl eq_refl)), (IH (fun y Hy => H y (or_intror Hy))).
  reflexivity.
Qed.

Lemma periode_moyen_activite_at (df_logs : Logs) (s : string) :
  In s (map pseudo (events df_logs)) ->
  cell_at (periode_moyen_activite df_logs) s "activite_moyenne_par_jour_min"
  = Some (mean (map (fun d =>
                       periode (filter (fun e => jour e =? d)
                                       (group s (events df_logs))))
                    (days_of (group s (events df_logs))))).
Proof.
  intros H. unfold periode_moyen_activite.
  rewrite cell_at_groupby;
    [|discriminate|apply groupby_pseudo_jour_keys; exact H].
  rewrite (groupby_pseudo_jour_group periode (events df_logs) s H).
  rewrite map_map. reflexivity.
Qed.

(** X5.  For every subject with at least one event, the mean daily period
    of activity is not negative, and it is 0 when the subject's events of
    any one day all carry the same time (in particular when every active
    day has a single event). *)
Theorem periode_moyen_activite_nonneg (df_logs : Logs) (s : string) :
  In s (map pseudo (events df_logs)) ->
  exists q : Q,
    cell_at (periode_moyen_activite df_logs) s "activite_moyenne_par_jour_min"
    = Some (CFloat q)
    /\ (0 <= q)%Q
    /\ ((forall e1 e2,
            In e1 (group s (events df_logs)) ->
            In e2 (group s (events df_logs)) ->
            jour e1 = jour e2 -> heure e1 = heure e2) ->
        (q == 0)%Q).
Proof.
  intros H.
  set (g := group s (events df_logs)).
  pose proof (group_nonempty s (events df_logs) H) as Hg. fold g in Hg.
  pose proof (days_of_nonempty g Hg) as Hd.
  set (ps := map (fun d => periode (filter (fun e => jour e =? d) g))
                 (days_of g)).
  assert (ps <> []) as Hps.
  { unfold ps. intros E. apply map_eq_nil in E. now apply Hd. }
  assert (0 < inject_Z (size ps))%Q as Hn.
  { unfold size, Qlt. simpl. destruct ps; [now elim Hps|simpl; lia]. }
  assert (forall d, In d (days_of g) ->
                    filter (fun e => jour e =? d) g <> []) as Hne.
  { intros d Hdin E. pose proof (count_on_bounds g d Hdin) as Hb.
    unfold count_on in Hb. rewrite E in Hb. unfold size in Hb. simpl in Hb. lia. }
  exists (Qsum ps / inject_Z (size ps))%Q.
  split.
  { rewrite (periode_moyen_activite_at df_logs s H). fold g. fold ps.
    unfold mean. destruct ps; [now elim Hps|reflexivity]. }
  split.
  - apply Qle_shift_div_l; [exact Hn|]. rewrite Qmult_0_l.
    apply Qsum_nonneg. intros x Hx. unfold ps in Hx.
    apply in_map_iff in Hx as (d & <- & Hdin).
    unfold periode.
    assert (map heure (filter (fun e => jour e =? d) g) <> []) as Hm.
    { intros E. apply map_eq_nil in E. now apply (Hne d Hdin). }
    pose proof (Zmin_le_Zmax _ Hm) as Hle.
    apply Qle_shift_div_l; [reflexivity|]. rewrite Qmult_0_l.
    change 0%Q with (inject_Z 0). rewrite <- Zle_Qle. lia.
  - intros Hsame.
    assert (Qsum ps == 0)%Q as E0.
    { apply Qsum_zero. intros x Hx. unfold ps in Hx.
      apply in_map_iff in Hx as (d & <- & Hdin).
      unfold periode.
      set (hs := map heure (filter (fun e => jour e =? d) g)).
      assert (hs <> []) as Hm.
      { intros E. apply map_eq_nil in E. now apply (Hne d Hdin). }
      pose proof (Zmax_list_In hs Hm) as HM.
      assert (forall x, In x hs -> x = Zmax_list hs) as Hall.
      { intros x Hx. unfold hs in Hx, HM.
        apply in_map_iff in Hx as (e1 & <- & H1).
        apply in_map_iff in HM as (e2 & E2 & H2). fold hs in E2.
        rewrite <- E2.
        apply filter_In in H1 as [H1 J1]. apply filter_In in H2 as [H2 J2].
        apply Z.eqb_eq in J1. apply Z.eqb_eq in J2.
        apply Hsame; [exact H1|exact H2|congruence]. }
      assert (Zmin_list hs = Zmax_list hs) as Emin.
      { destruct hs as [|h hs']; [now elim Hm|].
        assert (In (Zmin_list (h :: hs')) (h :: hs')) as Hin.
        { unfold Zmin_list. cbn [hd].
          assert (forall d0 t, In (fold_right Z.min d0 t) (d0 :: t)) as Hf.
          { intros d0 t. induction t as [|y t IH]; [now left|].
            cbn [fold_right].
            destruct (Z.min_spec y (fold_right Z.min d0 t)) as [[_ ->]|[_ ->]].
            - right. now left.
            - destruct IH as [IH|IH]; [now left|right; now right]. }
          cbn [fold_right].
          destruct (Z.min_spec h (fold_right Z.min h hs')) as [[_ ->]|[_ ->]].
          - now left.
          - destruct (Hf h hs') as [E|E]; [left; exact E|right; exact E]. }
        apply Hall. exact Hin. }
      rewrite Emin, Z.sub_diag. reflexivity. }
    rewrite E0. field. intros E. rewrite E in Hn. now apply Qlt_irrefl in Hn.
Qed.

Lemma periode_moyen_activite_nonneg_witness :
  exists q : Q,
    cell_at (periode_moyen_activite logs_AB) "B"
            "activite_moyenne_par_jour_min" = Some (CFloat q)
    /\ (0 <= q)%Q.
Proof.
  destruct (periode_moyen_activite_nonneg logs_AB "B") as (q & H1 & H2 & _).
  - simpl. auto.
  - exists q. split; [exact H1|exact H2].
Defined.


(** ** Breadth and cross-tabulations *)

Lemma nunique_bounds (l : list string) :
  l <> [] -> 1 <= nunique l <= size l.
Proof.
  intros Hl. unfold nunique, size. split.
  - destruct l as [|a l]; [now elim Hl|].
    assert (In a (nodup string_dec (a :: l))) as H by (apply nodup_In; now left).
    destruct (nodup string_dec (a :: l)); [destruct H|cbn [List.length]; lia].
  - assert (List.length (nodup string_dec l) <= List.length l)%nat as H.
    { apply NoDup_incl_length; [apply NoDup_nodup|].
      intros x Hx. exact (proj1 (nodup_In string_dec l x) Hx). }
    lia.
Qed.

(** X6.  For every subject with at least one event, the numbers of distinct
    components and of distinct contexts are at least 1 and at most the
    number of actions. *)
Theorem nb_composant_bounds (df_logs : Logs) (s : string) :
  In s (map pseudo (events df_logs)) ->
  exists n m a : Z,
    cell_at (nb_composant df_logs) s "nb_composant" = Some (CInt n)
    /\ cell_at (nb_contexte_gen df_logs) s "nb_contexte" = Some (CInt m)
    /\ cell_at (nb_actions df_logs) s "nb_actions" = Some (CInt a)
    /\ n = Z.of_nat (List.length
                       (nodup string_dec
                              (map composant (group s (events df_logs)))))
    /\ m = Z.of_nat (List.length
                       (nodup string_dec
                              (map contexte_general
                                   (group s (events df_logs)))))
    /\ 1 <= n <= a /\ 1 <= m <= a.
Proof.
  intros H.
  pose proof (group_nonempty s (events df_logs) H) as Hg.
  exists (nunique (map composant (group s (events df_logs)))).
  exists (nunique (map contexte_general (group s (events df_logs)))).
  exists (size (group s (events df_logs))).
  split.
  { unfold nb_composant.
    rewrite cell_at_groupby; [reflexivity|discriminate|exact H]. }
  split.
  { unfold nb_contexte_gen.
    rewrite cell_at_groupby; [reflexivity|discriminate|exact H]. }
  split; [apply nb_actions_at; exact H|].
  split; [reflexivity|]. split; [reflexivity|].
  assert (forall col : Event -> string,
             1 <= nunique (map col (group s (events df_logs)))
             <= size (group s (events df_logs))) as Hb.
  { intros col.
    assert (map col (group s (events df_logs)) <> []) as Hm.
    { intros E. apply map_eq_nil in E. now apply Hg. }
    pose proof (nunique_bounds _ Hm) as Hn.
    assert (size (map col (group s (events df_logs)))
            = size (group s (events df_logs))) as Es.
    { unfold size. now rewrite length_map. }
    rewrite Es in Hn. exact Hn. }
  split; apply Hb.
Qed.

Lemma nb_composant_bounds_witness :
  exists n m a : Z,
    cell_at (nb_composant logs_AB) "A" "nb_composant" = Some (CInt n)
    /\ cell_at (nb_contexte_gen logs_AB) "A" "nb_contexte" = Some (CInt m)
    /\ cell_at (nb_actions logs_AB) "A" "nb_actions" = Some (CInt a)
    /\ 1 <= n <= a /\ 1 <= m <= a.
Proof.
  destruct (nb_composant_bounds logs_AB "A")
    as (n & m & a & H1 & H2 & H3 & _ & _ & H4 & H5).
  - simpl. auto.
  - exists n, m, a. repeat split; [exact H1|exact H2|exact H3|apply H4|apply H4|apply H5|apply H5].
Defined.

Lemma append_inj (pre a b : string) :
  String.append pre a = String.append pre b -> a = b.
Proof.
  induction pre as [|ch pre IH]; cbn [String.append]; [easy|].
  intros E. injection E as E. now apply IH.
Qed.

Lemma find_col_prefixed (pre : string) (dt : dtype) (cats : list string)
  (c : string) :
  In c cats ->
  exists p,
    find_col (String.append pre c)
             (map (fun x => (String.append pre x, dt)) cats) = Some p
    /\ nth_error cats p = Some c.
Proof.
  induction cats as [|a cats IH]; [intros []|]. intros Hin.
  cbn [map find_col fst].
  destruct (String.eqb_spec (String.append pre a) (String.append pre c))
    as [E|E].
  - apply append_inj in E. subst a. now exists O.
  - destruct Hin as [->|Hin]; [now elim E|].
    destruct (IH Hin) as (p & Hp & Hn). exists (S p).
    rewrite Hp. split; [reflexivity|exact Hn].
Qed.

Lemma find_by_key (H : string -> list cell) (ks : list string) (s : string) :
  (forall k, nth 0 (H k) CNaN = CStr k) ->
  In s ks ->
  find (fun r => cell_eqb (nth 0 r CNaN) (CStr s)) (map H ks) = Some (H s).
Proof.
  intros HH. induction ks as [|k ks IH]; [intros []|]. intros Hin.
  cbn [map find]. rewrite (HH k). cbn [cell_eqb].
  destruct (String.eqb_spec k s) as [->|E]; [reflexivity|].
  destruct Hin as [->|Hin]; [now elim E|]. now apply IH.
Qed.

(** A cell of a cross-tabulation. *)
Lemma crosstab_cell (pre : string) (col : Event -> string) (df_logs : Logs)
  (r : DataFrame) (s c : string) :
  (forall x, String.append pre x <> "pseudo"%string) ->
  crosstab pre col df_logs = Some r ->
  In s (map pseudo (events df_logs)) ->
  In c (map col (events df_logs)) ->
  cell_at r s (String.append pre c)
  = Some (CInt (count_of col c (group s (events df_logs)))).
Proof.
  intros Hpre Hr Hs Hc. unfold crosstab in Hr.
  destruct (existsb _ _); [discriminate Hr|]. injection Hr as <-.
  set (cats := unique_sorted (map col (events df_logs))).
  assert (In c cats) as Hcin by (now apply unique_sorted_In).
  destruct (find_col_prefixed pre int64 cats c Hcin) as (p & Hp & Hn).
  eapply cell_at_inv; [reflexivity|].
  set (H := fun k : string =>
              CStr k
              :: map (fun c0 => CInt (count_of col c0 (group k (events df_logs))))
                     cats).
  destruct (find_range_index
              (fun x => cell_eqb (nth 0 x CNaN) (CStr s))
              (map H (unique_sorted (map pseudo (events df_logs)))) (H s))
    as (i & Hi).
  { apply find_by_key; [reflexivity|]. now apply unique_sorted_In. }
  exists (S p), (i, H s). split; [|split].
  - cbn [columns find_col fst].
    destruct (String.eqb_spec "pseudo" (String.append pre c)) as [E|_].
    + exfalso. apply (Hpre c). now symmetry.
    + fold cats. rewrite Hp. reflexivity.
  - cbn [rows]. unfold groupby. rewrite map_map. cbn [fst snd].
    exact Hi.
  - cbn [snd]. unfold H. cbn [nth_error].
    apply (map_nth_error
             (fun c0 => CInt (count_of col c0 (group s (events df_logs))))).
    exact Hn.
Qed.

Lemma cross_tabulations_prefix
  (f : Logs -> option DataFrame) (pre : string) (col : Event -> string) :
  In (f, (pre, col)) cross_tabulations ->
  f = crosstab pre col /\ (forall x, String.append pre x <> "pseudo"%string).
Proof.
  intros [E|[E|[E|[]]]]; injection E as <- <- <-;
    (split; [reflexivity|intros x; cbn [String.append]; discriminate]).
Qed.

(** The values of a group are the categories it has a count for. *)
Lemma positive_counts (col : Event -> string) (g evs : list Event) :
  incl g evs ->
  size (filter (fun c => 0 <? count_of col c g)
               (unique_sorted (map col evs)))
  = nunique (map col g).
Proof.
  intros Hincl. unfold nunique, size. f_equal.
  apply Permutation_length. apply NoDup_Permutation.
  - apply NoDup_filter, unique_sorted_NoDup.
  - apply NoDup_nodup.
  - intros c. rewrite filter_In, nodup_In, unique_sorted_In. split.
    + intros [_ Hpos]. apply Z.ltb_lt in Hpos. unfold count_of, size in Hpos.
      destruct (filter (fun e => String.eqb (col e) c) g) as [|e t] eqn:E;
        [simpl in Hpos; lia|].
      assert (In e (filter (fun e => String.eqb (col e) c) g)) as He
          by (rewrite E; now left).
      apply filter_In in He as [He1 He2]. apply String.eqb_eq in He2.
      rewrite <- He2. now apply in_map.
    + intros Hc. apply in_map_iff in Hc as (e & He & Hin). split.
      * rewrite <- He. apply in_map. now apply Hincl.
      * apply Z.ltb_lt. unfold count_of, size.
        assert (In e (filter (fun e => String.eqb (col e) c) g)) as Hf.
        { apply filter_In. split; [exact Hin|]. now apply String.eqb_eq. }
        destruct (filter (fun e => String.eqb (col e) c) g); [destruct Hf|].
        cbn [List.length]. lia.
Qed.

(** X7.  In each of the three cross-tabulations, when it returns a table,
    the cell of a subject under the column of a category is the number of
    the subject's events of that category; over the categories of the log
    these numbers add up to the subject's number of actions, and as many
    of them are positive as the subject has distinct values. *)
Theorem crosstab_counts
  (f : Logs -> option DataFrame) (pre : string) (col : Event -> string)
  (df_logs : Logs) (r : DataFrame) (s : string) :
  In (f, (pre, col)) cross_tabulations ->
  f df_logs = Some r ->
  In s (map pseudo (events df_logs)) ->
  (forall c, In c (map col (events df_logs)) ->
             cell_at r s (String.append pre c)
             = Some (CInt (count_of col c (group s (events df_logs)))))
  /\ column_names r
     = "pseudo"%string
       :: map (String.append pre) (unique_sorted (map col (events df_logs)))
  /\ Zsum (map (fun c => count_of col c (group s (events df_logs)))
               (unique_sorted (map col (events df_logs))))
     = size (group s (events df_logs))
  /\ size (filter (fun c => 0 <? count_of col c (group s (events df_logs)))
                  (unique_sorted (map col (events df_logs))))
     = nunique (map col (group s (events df_logs))).
Proof.
  intros Hf Hr Hs.
  destruct (cross_tabulations_prefix f pre col Hf) as [-> Hpre].
  assert (incl (group s (events df_logs)) (events df_logs)) as Hincl.
  { intros e He. now apply group_pseudo in He. }
  split; [|split; [|split]].
  - intros c Hc. now apply (crosstab_cell pre col df_logs r s c).
  - unfold crosstab in Hr. destruct (existsb _ _); [discriminate Hr|].
    injection Hr as <-. unfold column_names. cbn [columns map fst].
    now rewrite map_map.
  - unfold count_of.
    apply (count_by_keys String.eqb String.eqb_eq col).
    + apply unique_sorted_NoDup.
    + intros x Hx. apply unique_sorted_In. apply in_map. now apply Hincl.
  - now apply positive_counts.
Qed.

Lemma crosstab_counts_witness :
  (forall c, In c (map composant (events logs_AB)) ->
             cell_at crosstab_composant_AB "A" (String.append "composant_" c)
             = Some (CInt (count_of composant c (group "A" (events logs_AB)))))
  /\ column_names crosstab_composant_AB
     = "pseudo"%string
       :: map (String.append "composant_")
              (unique_sorted (map composant (events logs_AB)))
  /\ Zsum (map (fun c => count_of composant c (group "A" (events logs_AB)))
               (unique_sorted (map composant (events logs_AB))))
     = size (group "A" (events logs_AB))
  /\ size (filter (fun c => 0 <? count_of composant c
                                   (group "A" (events logs_AB)))
                  (unique_sorted (map composant (events logs_AB))))
     = nunique (map composant (group "A" (events logs_AB))).
Proof.
  apply (crosstab_counts nb_chaque_composant "composant_" composant logs_AB
           crosstab_composant_AB "A").
  - left. reflexivity.
  - vm_compute. reflexivity.
  - simpl. auto.
Defined.

(** ** The most used value *)

(** [idxmax] returns the label of the first row holding the largest count:
    the rows before it have smaller counts, the rows after it none
    greater. *)
Lemma idxmax_from_split (l P S : list (Z * Z)) (best : Z * Z) :
  (forall y, In y P -> snd y < snd best) ->
  (forall y, In y S -> snd y <= snd best) ->
  exists L1 x L2,
    P ++ best :: S ++ l = L1 ++ x :: L2
    /\ idxmax_from best l = fst x
    /\ (forall y, In y L1 -> snd y < snd x)
    /\ (forall y, In y L2 -> snd y <= snd x).
Proof.
  revert P S best. induction l as [|a l IH]; intros P S best HP HS.
  - exists P, best, S. rewrite app_nil_r. repeat split; auto.
  - cbn [idxmax_from]. destruct (Z.ltb_spec (snd best) (snd a)) as [Hlt|Hge].
    + destruct (IH (P ++ best :: S) [] a) as (L1 & x & L2 & E & Hi & H1 & H2).
      * intros y Hy. apply in_app_or in Hy as [Hy|[<-|Hy]].
        -- specialize (HP y Hy). lia.
        -- exact Hlt.
        -- specialize (HS y Hy). lia.
      * intros y [].
      * exists L1, x, L2. repeat split; auto.
        rewrite <- E. cbn [app]. rewrite <- app_assoc. reflexivity.
    + destruct (IH P (S ++ [a]) best) as (L1 & x & L2 & E & Hi & H1 & H2).
      * exact HP.
      * intros y Hy. apply in_app_or in Hy as [Hy|[<-|[]]]; auto.
      * exists L1, x, L2. repeat split; auto.
        rewrite <- E. rewrite <- app_assoc. reflexivity.
Qed.

Lemma idxmax_split (L : list (Z * Z)) :
  L <> [] ->
  exists i L1 x L2,
    idxmax L = Some i
    /\ L = L1 ++ x :: L2
    /\ fst x = i
    /\ (forall y, In y L1 -> snd y < snd x)
    /\ (forall y, In y L2 -> snd y <= snd x).
Proof.
  intros HL. destruct L as [|b l]; [now elim HL|].
  destruct (idxmax_from_split l [] [] b) as (L1 & x & L2 & E & Hi & H1 & H2).
  - intros y [].
  - intros y [].
  - exists (idxmax_from b l), L1, x, L2. repeat split; auto.
Qed.

Lemma filter_combine_snd {A B : Type} (p : B -> bool) (idx : list A)
  (l : list B) :
  List.length idx = List.length l ->
  exists idx',
    filter (fun r => p (snd r)) (combine idx l) = combine idx' (filter p l)
    /\ List.length idx' = List.length (filter p l).
Proof.
  revert idx. induction l as [|b l IH]; intros [|i idx] Hlen;
    try discriminate Hlen.
  - now exists [].
  - injection Hlen as Hlen. destruct (IH idx Hlen) as (idx' & E & Hl).
    cbn [combine filter snd]. destruct (p b).
    + exists (i :: idx'). cbn [combine List.length]. now rewrite E, Hl.
    + exists idx'. now split.
Qed.

Lemma combine_snd {A B : Type} (idx : list A) (l : list B) :
  List.length idx = List.length l -> map snd (combine idx l) = l.
Proof.
  revert idx. induction l as [|b l IH]; intros [|i idx] Hlen;
    try discriminate Hlen; [reflexivity|].
  injection Hlen as Hlen. cbn [combine map snd]. now rewrite IH.
Qed.

(** The rows of a subject in the count table: its values in sorted order,
    each with its count. *)
Lemma count_by_group (col : Event -> string) (evs : list Event) (s : string) :
  In s (map pseudo evs) ->
  map snd (filter (fun r => String.eqb (fst (snd r)) s) (count_by col evs))
  = map (fun c => (s, (c, count_of col c (group s evs))))
        (unique_sorted (map col (group s evs))).
Proof.
  intros Hs. unfold count_by, range_index.
  match goal with
  | |- context [combine ?i ?l] =>
      destruct (filter_combine_snd (fun x => String.eqb (fst x) s) i l)
        as (idx' & E & Hl)
  end.
  { now rewrite length_map, length_seq. }
  rewrite E, (combine_snd _ _ Hl).
  unfold groupby. rewrite flat_map_map. cbn [fst snd].
  apply (filter_flat_map_key
           (fun k =>
              map (fun c => (k, (c, size (filter (fun e => String.eqb (col e) c)
                                                 (group k evs)))))
                  (unique_sorted (map col (group k evs))))).
  - apply unique_sorted_NoDup.
  - now apply unique_sorted_In.
  - intros k x Hx. apply in_map_iff in Hx as (c & <- & _). reflexivity.
Qed.

Lemma count_by_keys_In (col : Event -> string) (evs : list Event) (k : string) :
  In k (map (fun r => fst (snd r)) (count_by col evs)) ->
  In k (map pseudo evs).
Proof.
  unfold count_by. rewrite map_range_index. intros H.
  apply in_map_iff in H as (x & <- & Hx).
  apply in_flat_map in Hx as (kv & Hkv & Hx).
  apply in_map_iff in Hx as (c & <- & _). cbn [fst].
  unfold groupby in Hkv. apply in_map_iff in Hkv as (k' & <- & Hk').
  cbn [fst]. exact (proj1 (unique_sorted_In _ _) Hk').
Qed.

(** The row of a subject in a most-used-value table. *)
Lemma top_row (col : Event -> string) (evs : list Event) (k : string) :
  In k (map pseudo evs) ->
  exists i v l1 l2,
    flat_map
      (fun i =>
         match find (fun r => fst r =? i) (count_by col evs) with
         | Some r => [(i, [CStr (fst (snd r)); CStr (fst (snd (snd r)))])]
         | None => []
         end)
      (match
          idxmax (map (fun r => (fst r, snd (snd (snd r))))
                      (filter (fun r => String.eqb (fst (snd r)) k)
                              (count_by col evs)))
        with
        | Some i => [i]
        | None => []
        end)
    = [(i, [CStr k; CStr v])]
    /\ unique_sorted (map col (group k evs)) = l1 ++ v :: l2
    /\ (forall c, In c l1 ->
                  count_of col c (group k evs) < count_of col v (group k evs))
    /\ (forall c, In c l2 ->
                  count_of col c (group k evs) <= count_of col v (group k evs)).
Proof.
  intros Hk.
  set (counts := count_by col evs).
  set (rws := filter (fun r => String.eqb (fst (snd r)) k) counts).
  pose proof (count_by_group col evs k Hk) as HB. fold counts in HB. fold rws in HB.
  set (cats := unique_sorted (map col (group k evs))) in *.
  assert (cats <> []) as Hcats.
  { pose proof (group_nonempty k evs Hk) as Hg.
    destruct (group k evs) as [|e g]; [now elim Hg|].
    intros E. assert (In (col e) cats) as Hin.
    { unfold cats. apply unique_sorted_In. now left. }
    rewrite E in Hin. destruct Hin. }
  set (L := map (fun r : Z * (string * (string * Z)) =>
                   (fst r, snd (snd (snd r)))) rws).
  assert (L <> []) as HL.
  { unfold L. intros E. apply map_eq_nil in E. rewrite E in HB.
    cbn [map] in HB. symmetry in HB. apply map_eq_nil in HB. now apply Hcats. }
  destruct (idxmax_split L HL) as (i & L1 & x & L2 & Hi & EL & Hx & H1 & H2).
  rewrite Hi. cbn [flat_map]. rewrite app_nil_r.
  unfold L in EL. apply map_eq_app in EL as (R1 & R2' & Erws & ER1 & ER2).
  apply map_eq_cons in ER2 as (r & R2 & -> & Er & ER2).
  rewrite Erws in HB. rewrite map_app in HB. cbn [map] in HB.
  symmetry in HB. apply map_eq_app in HB as (l1 & l2' & Ecats & El1 & El2).
  apply map_eq_cons in El2 as (v & l2 & -> & Ev & El2).
  assert (In r counts) as Hrin.
  { assert (In r rws) as Hr by (rewrite Erws; apply in_or_app; right; now left).
    unfold rws in Hr. now apply filter_In in Hr. }
  assert (fst r = i) as Hri by (rewrite <- Hx, <- Er; reflexivity).
  assert (snd (snd (snd r)) = count_of col v (group k evs)) as Hcnt
      by (rewrite <- Ev; reflexivity).
  assert (snd x = count_of col v (group k evs)) as Hsx
      by (rewrite <- Er; exact Hcnt).
  destruct (find_exists (fun r' => fst r' =? i) counts r Hrin) as (r2 & Hf).
  { apply Z.eqb_eq. exact Hri. }
  rewrite Hf.
  pose proof (find_some _ _ Hf) as (Hin2 & Hr2). apply Z.eqb_eq in Hr2.
  assert (r2 = r) as ->.
  { apply (NoDup_fst_eq counts); auto.
    - apply range_index_NoDup.
    - congruence. }
  exists i, v, l1, l2. split; [|split; [exact Ecats|split]].
  - rewrite <- Ev. reflexivity.
  - intros c Hc. rewrite <- Hsx.
    assert (In (k, (c, count_of col c (group k evs))) (map snd R1)) as Hm.
    { rewrite <- El1.
      apply (in_map (fun c => (k, (c, count_of col c (group k evs))))).
      exact Hc. }
    apply in_map_iff in Hm as (y & Ey & Hy).
    assert (In (fst y, snd (snd (snd y))) L1) as HyL.
    { rewrite <- ER1.
      apply (in_map (fun r : Z * (string * (string * Z)) =>
                       (fst r, snd (snd (snd r))))).
      exact Hy. }
    specialize (H1 _ HyL). cbn [snd] in H1. rewrite Ey in H1. exact H1.
  - intros c Hc. rewrite <- Hsx.
    assert (In (k, (c, count_of col c (group k evs))) (map snd R2)) as Hm.
    { rewrite <- El2.
      apply (in_map (fun c => (k, (c, count_of col c (group k evs))))).
      exact Hc. }
    apply in_map_iff in Hm as (y & Ey & Hy).
    assert (In (fst y, snd (snd (snd y))) L2) as HyL.
    { rewrite <- ER2.
      apply (in_map (fun r : Z * (string * (string * Z)) =>
                       (fst r, snd (snd (snd r))))).
      exact Hy. }
    specialize (H2 _ HyL). cbn [snd] in H2. rewrite Ey in H2. exact H2.
Qed.

Lemma find_flat_map_keyed (F : string -> list (Z * list cell))
  (ks : list string) (s : string) (row : Z * list cell) :
  (forall k, In k ks ->
             exists rk, F k = [rk] /\ row_key (snd rk) = Some k) ->
  In s ks -> F s = [row] ->
  find (fun r => cell_eqb (nth 0 (snd r) CNaN) (CStr s)) (flat_map F ks)
  = Some row.
Proof.
  intros HF Hs Hrow. induction ks as [|k ks IH]; [destruct Hs|].
  destruct (HF k (or_introl eq_refl)) as (rk & Ek & Hk).
  cbn [flat_map]. rewrite Ek. cbn [app find].
  rewrite (key_test _ _ s Hk).
  destruct (String.eqb_spec k s) as [->|Hne].
  - congruence.
  - destruct Hs as [->|Hs]; [now elim Hne|].
    apply IH; [|exact Hs]. intros k' Hk'. apply HF. now right.
Qed.

(** X8.  In each of the three most-used-value tables, the value given for
    a subject with at least one event is the first, in sorted order, of
    the subject's values with the largest count: the subject's values
    before it have smaller counts, and no value has a greater count. *)
Theorem top_is_first_maximum
  (f : Logs -> DataFrame) (name : string) (col : Event -> string)
  (df_logs : Logs) (s : string) :
  In (f, (name, col)) tops ->
  In s (map pseudo (events df_logs)) ->
  exists v l1 l2,
    cell_at (f df_logs) s name = Some (CStr v)
    /\ unique_sorted (map col (group s (events df_logs))) = l1 ++ v :: l2
    /\ (forall c, In c l1 ->
                  count_of col c (group s (events df_logs))
                  < count_of col v (group s (events df_logs)))
    /\ (forall c, count_of col c (group s (events df_logs))
                  <= count_of col v (group s (events df_logs))).
Proof.
  intros Hf Hs.
  assert (f = top name col /\ name <> "pseudo"%string) as [-> Hname].
  { destruct Hf as [E|[E|[E|[]]]]; injection E as <- <- <-;
      (split; [reflexivity|discriminate]). }
  destruct (top_row col (events df_logs) s Hs)
    as (i & v & l1 & l2 & Hrow & Ecats & H1 & H2).
  exists v, l1, l2. split; [|split; [exact Ecats|split; [exact H1|]]].
  - eapply cell_at_inv; [reflexivity|].
    exists 1%nat, (i, [CStr s; CStr v]). split; [|split; [|reflexivity]].
    + cbn [top columns find_col fst].
      destruct (String.eqb_spec "pseudo" name) as [E|_]; [now elim Hname|].
      now rewrite String.eqb_refl.
    + unfold top. cbn [rows]. unfold groupby.
      rewrite flat_map_map, flat_map_flat_map. cbn [fst snd].
      apply (find_flat_map_keyed
               (fun k =>
                  flat_map
                    (fun i0 =>
                       match find (fun r => fst r =? i0)
                                  (count_by col (events df_logs)) with
                       | Some r =>
                           [(i0, [CStr (fst (snd r));
                                  CStr (fst (snd (snd r)))])]
                       | None => []
                       end)
                    (match
                        idxmax
                          (map (fun r => (fst r, snd (snd (snd r))))
                               (filter (fun r => String.eqb (fst (snd r)) k)
                                       (count_by col (events df_logs))))
                      with
                      | Some i0 => [i0]
                      | None => []
                      end))).
      * intros k Hk. apply (proj1 (unique_sorted_In _ _)) in Hk.
        apply count_by_keys_In in Hk.
        destruct (top_row col (events df_logs) k Hk)
          as (i' & v' & _ & _ & Hrow' & _).
        eexists. split; [exact Hrow'|reflexivity].
      * apply unique_sorted_In. now apply count_by_pseudos.
      * exact Hrow.
  - intros c.
    destruct (in_dec string_dec c (l1 ++ v :: l2)) as [Hin|Hout].
    + apply in_app_or in Hin as [Hin|[<-|Hin]].
      * specialize (H1 c Hin). lia.
      * lia.
      * now apply H2.
    + assert (count_of col c (group s (events df_logs)) = 0) as ->.
      { unfold count_of.
        rewrite (filter_none (fun e => String.eqb (col e) c)); [reflexivity|].
        intros e He. apply String.eqb_neq. intros E. apply Hout.
        rewrite <- Ecats. apply unique_sorted_In. rewrite <- E.
        now apply in_map. }
      unfold count_of, size. lia.
Qed.

Lemma top_is_first_maximum_witness :
  exists v l1 l2,
    cell_at (top_composant logs_AB) "A" "top_composant" = Some (CStr v)
    /\ unique_sorted (map composant (group "A" (events logs_AB)))
       = l1 ++ v :: l2
    /\ (forall c, In c l1 ->
                  count_of composant c (group "A" (events logs_AB))
                  < count_of composant v (group "A" (events logs_AB)))
    /\ (forall c, count_of composant c (group "A" (events logs_AB))
                  <= count_of composant v (group "A" (events logs_AB))).
Proof.
  apply (top_is_first_maximum top_composant "top_composant" composant
           logs_AB "A").
  - left. reflexivity.
  - simpl. auto.
Defined.

(** * Further properties of the composer *)

(** X10.  On a log none of whose categories is called [pseudo], the wide
    table has the expected header and carries every feature unchanged:
    whatever an aggregator other than [max_actions_par_jour] returns for a
    subject of the log in one of its feature columns is the cell of the
    wide table for this subject and this column. *)
Theorem creer_df_carries_features (sqrt_float : Q -> Q) (df_logs : Logs) :
  pseudo_free (events df_logs) ->
  exists w df_logs',
    creer_df sqrt_float df_logs = Some (w, df_logs')
    /\ columns w = wide_columns (events df_logs)
    /\ forall a r s c v,
         a <> MaxActionsParJour ->
         fst (run sqrt_float a df_logs) = Some r ->
         In s (map pseudo (events df_logs)) ->
         c <> "pseudo"%string ->
         cell_at r s c = Some v ->
         cell_at w s c = Some v.
Proof.
  intros H.
  destruct (creer_df_spec sqrt_float df_logs H)
    as (w & l' & Hw & _ & Hc & Hj & _).
  exists w, l'. split; [exact Hw|]. split; [exact Hc|].
  intros a r s c v Ha Hr Hs Hcol Hv.
  apply (Hj a r Ha Hr s c v); [|exact Hcol|exact Hv].
  apply subjects_In. exact Hs.
Qed.

Lemma creer_df_carries_features_witness :
  exists w df_logs',
    creer_df sqrt_exact logs_AB = Some (w, df_logs')
    /\ columns w = wide_columns (events logs_AB)
    /\ forall a r s c v,
         a <> MaxActionsParJour ->
         fst (run sqrt_exact a logs_AB) = Some r ->
         In s (map pseudo (events logs_AB)) ->
         c <> "pseudo"%string ->
         cell_at r s c = Some v ->
         cell_at w s c = Some v.
Proof.
  apply (creer_df_carries_features sqrt_exact logs_AB).
  exact logs_AB_pseudo_free.
Defined.

(** ** The composer and the log table *)

Lemma some_inj {A : Type} (a b : A) : Some a = Some b -> a = b.
Proof. intros H. injection H as H. exact H. Qed.

Lemma assign_get (name : string) (vals : list cell)
  (cols : list (string * list cell)) :
  get_column name cols = Some vals -> assign name vals cols = cols.
Proof.
  induction cols as [|[n v] cols IH]; cbn [get_column assign fst snd].
  - discriminate.
  - destruct (String.eqb_spec n name) as [->|_].
    + intros H. apply some_inj in H. rewrite H. reflexivity.
    + intros H. rewrite (IH H). reflexivity.
Qed.

(** Replace the result of an aggregator on [l] by its result on [b], which
    has the same rows. *)
Ltac same_on sqrt_float a l b Hb :=
  let E := fresh "E" in
  pose proof (run_result_of_events sqrt_float a l b Hb) as E;
  cbn [run fst] in E;
  first [apply some_inj in E | idtac];
  rewrite E; clear E.

(** A call that assigns columns: name its results on [l] and on [b], and
    identify what it returns. *)
Ltac same_after sqrt_float a f l b Hb r l' b' Hb' :=
  let E := fresh "E" in
  let E1 := fresh "E" in
  let E2 := fresh "E" in
  pose proof (run_result_of_events sqrt_float a l b Hb) as E;
  assert (events (snd (f l)) = events (snd (f b))) as Hb'
      by (exact (eq_trans (run_events sqrt_float a l)
                          (eq_trans Hb (eq_sym (run_events sqrt_float a b)))));
  cbn [run fst] in E; apply some_inj in E;
  destruct (f l) as [r l'] eqn:E1;
  destruct (f b) as [? b'] eqn:E2;
  cbn [fst snd] in E, Hb' |- *; subst r.

Lemma creer_df_of_events (sqrt_float : Q -> Q) (df_logs : Logs) :
  creer_df sqrt_float df_logs
  = match creer_df sqrt_float {| events := events df_logs; helper := [] |} with
    | Some (w, _) => Some (w, logs_after df_logs)
    | None => None
    end.
Proof.
  set (b := {| events := events df_logs; helper := [] |}).
  assert (events df_logs = events b) as Hb by reflexivity.
  unfold creer_df, logs_after.
  same_on sqrt_float NbActions df_logs b Hb.
  same_on sqrt_float MoyenneActionsParJour df_logs b Hb.
  same_on sqrt_float NbJoursAvecAction df_logs b Hb.
  same_on sqrt_float VariabiliteActivite df_logs b Hb.
  same_on sqrt_float Tempsdiff df_logs b Hb.
  same_on sqrt_float ConstanceActivite df_logs b Hb.
  same_on sqrt_float PeriodeMoyenActivite df_logs b Hb.
  same_after sqrt_float PourcentageNuit pourcentage_nuit df_logs b Hb
             r1 l1 b1 H1.
  same_after sqrt_float PourcentageMatin pourcentage_matin l1 b1 H1
             r2 l2 b2 H2.
  same_after sqrt_float PourcentageAprem pourcentage_aprem l2 b2 H2
             r3 l3 b3 H3.
  same_after sqrt_float PourcentageSoir pourcentage_soir l3 b3 H3
             r4 l4 b4 H4.
  same_after sqrt_float SemaineVsWeekend semaine_vs_weekend l4 b4 H4
             r5 l5 b5 H5.
  same_on sqrt_float NbContexteGen l5 b5 H5.
  same_on sqrt_float NbComposant l5 b5 H5.
  same_on sqrt_float NbChaqueContexte l5 b5 H5.
  same_on sqrt_float TopContexte l5 b5 H5.
  same_on sqrt_float NbChaqueComposant l5 b5 H5.
  same_on sqrt_float TopComposant l5 b5 H5.
  same_on sqrt_float NbChaqueEvenement l5 b5 H5.
  same_on sqrt_float TopEvenement l5 b5 H5.
  repeat (cbv beta iota;
          match goal with
          | |- context [match merge_left ?x ?y with _ => _ end] =>
              destruct (merge_left x y) as [?|]; [|reflexivity]
          | |- context [match nb_chaque_contexte ?x with _ => _ end] =>
              destruct (nb_chaque_contexte x) as [?|]; [|reflexivity]
          | |- context [match nb_chaque_composant ?x with _ => _ end] =>
              destruct (nb_chaque_composant x) as [?|]; [|reflexivity]
          | |- context [match nb_chaque_evenement ?x with _ => _ end] =>
              destruct (nb_chaque_evenement x) as [?|]; [|reflexivity]
          end).
  reflexivity.
Qed.

Lemma logs_after_events (df_logs : Logs) :
  events (logs_after df_logs) = events df_logs.
Proof. reflexivity. Qed.

Lemma logs_after_helper (df_logs : Logs) :
  logs_after df_logs
  = let evs := events df_logs in
    let heure_seule := map (fun e => hour (heures e)) evs in
    let jour_semaine := map (fun e => weekday (jour e)) evs in
    {| events := evs;
       helper :=
         assign "is_weekend"
           (map CBool (map (fun w => 5 <=? w) jour_semaine))
           (assign "jour_semaine" (map CInt jour_semaine)
              (assign "pourcentage_soir"
                 (map CBool
                      (map (fun h => (18 <=? h) && (h <? 22)) heure_seule))
                 (assign "heure_seule" (map CInt heure_seule)
                    (assign "pourcentage_aprem"
                       (map CBool
                            (map (fun h => (13 <=? h) && (h <? 18))
                                 heure_seule))
                       (assign "heure_seule" (map CInt heure_seule)
                          (assign "pourcentage_matin"
                             (map CBool
                                  (map (fun h => (7 <=? h) && (h <? 13))
                                       heure_seule))
                             (assign "heure_seule" (map CInt heure_seule)
                                (assign "pourcentage_nuit"
                                   (map CBool
                                        (map (fun h => (h <? 7) || (22 <=? h))
                                             heure_seule))
                                   (assign "heure_seule"
                                      (map CInt heure_seule)
                                      (helper df_logs)))))))))) |}.
Proof. reflexivity. Qed.

Lemma logs_after_again (df_logs : Logs) :
  logs_after (logs_after df_logs) = logs_after df_logs.
Proof.
  rewrite (logs_after_helper (logs_after df_logs)).
  rewrite logs_after_events.
  rewrite (logs_after_helper df_logs).
  cbv zeta. cbn [helper]. f_equal.
  repeat (rewrite assign_get;
          [|rewrite ?get_assign_other by discriminate;
            apply get_assign_same]).
  reflexivity.
Qed.

(** X11.  [creer_df] assigns helper columns in the log table it is given,
    but its result depends on the rows of the log only: when it returns a
    table, the rows of the log are unchanged, every log with the same rows
    gives the same table, and calling it again on the log it left behind
    returns the same table and leaves this log as it is. *)
Theorem creer_df_again (sqrt_float : Q -> Q) (df_logs : Logs)
  (w : DataFrame) (df_logs' : Logs) :
  creer_df sqrt_float df_logs = Some (w, df_logs') ->
  events df_logs' = events df_logs
  /\ creer_df sqrt_float df_logs' = Some (w, df_logs')
  /\ forall other,
       events other = events df_logs ->
       exists other', creer_df sqrt_float other = Some (w, other').
Proof.
  intros H. rewrite creer_df_of_events in H.
  destruct (creer_df sqrt_float {| events := events df_logs; helper := [] |})
    as [[w0 b0]|] eqn:E; [|discriminate H].
  apply some_inj in H.
  assert (w0 = w) as -> by exact (f_equal fst H).
  assert (df_logs' = logs_after df_logs) as -> by exact (eq_sym (f_equal snd H)).
  split; [apply logs_after_events|]. split.
  - rewrite creer_df_of_events, logs_after_events, E, logs_after_again.
    reflexivity.
  - intros other Ho. exists (logs_after other).
    rewrite creer_df_of_events, Ho, E. reflexivity.
Qed.

Lemma creer_df_again_witness :
  events (snd wide_AB) = events logs_AB
  /\ creer_df sqrt_exact (snd wide_AB) = Some (fst wide_AB, snd wide_AB)
  /\ forall other,
       events other = events logs_AB ->
       exists other', creer_df sqrt_exact other = Some (fst wide_AB, other').
Proof.
  apply (creer_df_again sqrt_exact logs_AB (fst wide_AB) (snd wide_AB)).
  vm_compute. reflexivity.
Defined.

(** ** Left joins *)

Lemma length_remove_nth {A : Type} (n : nat) (l : list A) :
  (n < List.length l)%nat ->
  List.length (remove_nth n l) = (List.length l - 1)%nat.
Proof.
  intros H. unfold remove_nth.
  rewrite length_app, length_firstn, length_skipn. lia.
Qed.

Lemma In_range_index_snd {A : Type} (l : list A) (x : A) :
  In x l -> exists r, In r (range_index l) /\ snd r = x.
Proof.
  intros H. rewrite <- (range_index_snd l) in H.
  apply in_map_iff in H as (r & Hr & Hin). now exists r.
Qed.

Lemma length_flat_map_sum {A B : Type} (f : A -> list B) (l : list A) :
  List.length (flat_map f l)
  = list_sum (map (fun x => List.length (f x)) l).
Proof.
  induction l as [|x l IH]; [reflexivity|].
  cbn [flat_map map list_sum]. now rewrite length_app, IH.
Qed.

Lemma list_sum_ge_length {A : Type} (f : A -> nat) (l : list A) :
  (forall x, In x l -> (1 <= f x)%nat) ->
  (List.length l <= list_sum (map f l))%nat.
Proof.
  induction l as [|x l IH]; intros H; [reflexivity|].
  cbn [map List.length].
  change (list_sum (f x :: map f l)) with (f x + list_sum (map f l))%nat.
  pose proof (H x (or_introl eq_refl)).
  assert (List.length l <= list_sum (map f l))%nat
    by (apply IH; intros y Hy; apply H; now right).
  lia.
Qed.

(** X12.  A left join [left.merge(right, on='pseudo', how='left')] that
    returns a table found a [pseudo] column on both sides.  The result has
    a fresh index 0, 1, ...; a left row gives as many rows as the right
    table has rows with its key, and one row when there is none, so the
    result never has fewer rows than the left table; every row of the
    result begins with a left row and every left row begins some row of
    the result; the header has one column less than the two headers
    together. *)
Theorem merge_left_keeps_left (left right m : DataFrame) :
  merge_left left right = Some m ->
  exists i j,
    find_col "pseudo" (columns left) = Some i
    /\ find_col "pseudo" (columns right) = Some j
    /\ map fst (rows m) = map Z.of_nat (seq 0 (List.length (rows m)))
    /\ List.length (rows m)
       = list_sum (map (fun lrow =>
                          Nat.max 1 (List.length (matching i j right lrow)))
                       (rows left))
    /\ (List.length (rows left) <= List.length (rows m))%nat
    /\ (forall row, In row (rows m) ->
                    exists lrow rest,
                      In lrow (rows left) /\ snd row = snd lrow ++ rest)
    /\ (forall lrow, In lrow (rows left) ->
                     exists row rest,
                       In row (rows m) /\ snd row = snd lrow ++ rest)
    /\ List.length (columns m)
       = (List.length (columns left) + List.length (columns right) - 1)%nat.
Proof.
  intros H. unfold merge_left in H.
  destruct (find_col "pseudo" (columns left)) as [i|] eqn:Ei;
    [|discriminate H].
  destruct (find_col "pseudo" (columns right)) as [j|] eqn:Ej;
    [|discriminate H].
  apply some_inj in H. subst m. exists i, j. cbn [rows columns].
  set (cast := fun c => if unmatched i j left right then upcast_cell c else c).
  set (expand := fun lrow : Z * list cell =>
                   match matching i j right lrow with
                   | [] => [snd lrow
                            ++ map (fun _ => CNaN)
                                   (remove_nth j (columns right))]
                   | ms => map (fun rrow =>
                                  snd lrow
                                  ++ map cast (remove_nth j (snd rrow)))
                               ms
                   end).
  assert (forall lrow,
             List.length (expand lrow)
             = Nat.max 1 (List.length (matching i j right lrow))) as Hlen.
  { intros lrow. unfold expand.
    destruct (matching i j right lrow) as [|x ms]; [reflexivity|].
    rewrite length_map. cbn [List.length]. lia. }
  assert (List.length (range_index (flat_map expand (rows left)))
          = list_sum (map (fun lrow =>
                             Nat.max 1
                               (List.length (matching i j right lrow)))
                          (rows left))) as Hcount.
  { rewrite range_index_length, length_flat_map_sum.
    f_equal. apply map_ext. exact Hlen. }
  split; [reflexivity|]. split; [reflexivity|].
  split; [rewrite range_index_fst, range_index_length; reflexivity|].
  split; [exact Hcount|]. split; [|split; [|split]].
  - rewrite Hcount. apply list_sum_ge_length. intros x _. lia.
  - intros row Hrow. apply In_range_index in Hrow.
    apply in_flat_map in Hrow as (lrow & Hl & Hrow).
    exists lrow. unfold expand in Hrow.
    destruct (matching i j right lrow) as [|x ms].
    + destruct Hrow as [<-|[]]. eexists. split; [exact Hl|reflexivity].
    + apply in_map_iff in Hrow as (rrow & <- & _).
      eexists. split; [exact Hl|reflexivity].
  - intros lrow Hl.
    assert (exists cells rest,
               In cells (expand lrow) /\ cells = snd lrow ++ rest)
      as (cells & rest & Hin & Hcells).
    { unfold expand. destruct (matching i j right lrow) as [|x ms].
      - eexists. eexists. split; [left; reflexivity|reflexivity].
      - eexists. eexists. split; [left; reflexivity|reflexivity]. }
    destruct (In_range_index_snd (flat_map expand (rows left)) cells)
      as (row & Hrow & Hsnd).
    { apply in_flat_map. exists lrow. split; [exact Hl|exact Hin]. }
    exists row, rest. split; [exact Hrow|]. rewrite Hsnd. exact Hcells.
  - rewrite length_app, !length_map.
    rewrite (length_remove_nth j (columns right) (find_col_lt _ _ _ Ej)).
    pose proof (find_col_lt _ _ _ Ei). pose proof (find_col_lt _ _ _ Ej). lia.
Qed.

Lemma merge_left_keeps_left_witness :
  exists i j,
    find_col "pseudo" (columns frame_left) = Some i
    /\ find_col "pseudo" (columns frame_right) = Some j
    /\ map fst (rows frame_merged)
       = map Z.of_nat (seq 0 (List.length (rows frame_merged)))
    /\ List.length (rows frame_merged)
       = list_sum (map (fun lrow =>
                          Nat.max 1
                            (List.length (matching i j frame_right lrow)))
                       (rows frame_left))
    /\ (List.length (rows frame_left) <= List.length (rows frame_merged))%nat
    /\ (forall row, In row (rows frame_merged) ->
                    exists lrow rest,
                      In lrow (rows frame_left) /\ snd row = snd lrow ++ rest)
    /\ (forall lrow, In lrow (rows frame_left) ->
                     exists row rest,
                       In row (rows frame_merged)
                       /\ snd row = snd lrow ++ rest)
    /\ List.length (columns frame_merged)
       = (List.length (columns frame_left)
          + List.length (columns frame_right) - 1)%nat.
Proof.
  apply (merge_left_keeps_left frame_left frame_right frame_merged).
  reflexivity.
Defined.

(** * Further properties of the post-processing *)

(** ** Encoding *)

Lemma categories_In_nan (xs : list cell) :
  In CNaN xs -> In CNaN (categories xs).
Proof.
  intros H. unfold categories. apply in_or_app. right.
  apply in_or_app. right.
  assert (has_nan xs = true) as ->.
  { unfold has_nan. apply existsb_exists. exists CNaN. now split. }
  now left.
Qed.

Lemma map_indexed {A B : Type} (f : A -> B) (g : nat -> B) (l : list A)
  (k : nat) :
  (forall q v, nth_error l q = Some v -> f v = g (k + q)%nat) ->
  map f l = map g (seq k (List.length l)).
Proof.
  revert k. induction l as [|a l IH]; intros k H; [reflexivity|].
  cbn [map List.length seq]. f_equal.
  - rewrite (H O a eq_refl). f_equal. lia.
  - apply IH. intros q v Hq.
    rewrite (H (S q) v Hq). f_equal. lia.
Qed.

(** X14.  One row of the encoder, one categorical column at a time: when
    the cell [x] of the row is a text or a missing value of the column, its
    block of indicators is 1 at the position of [x] among the categories of
    the column and 0 everywhere else, and the blocks of the other columns
    follow. *)
Theorem encode_row_one_hot (name : string) (xs : list cell) (x : cell) :
  In x xs ->
  match x with CStr _ | CNaN => True | _ => False end ->
  exists p,
    nth_error (categories xs) p = Some x
    /\ forall cats row,
         encode_row ((name, categories xs) :: cats) (x :: row)
         = map (fun q => CFloat (if Nat.eqb q p then 1 else 0))
               (seq 0 (List.length (categories xs)))
           ++ encode_row cats row.
Proof.
  intros Hin Hx.
  assert (In x (categories xs)) as Hcat.
  { destruct x; try contradiction.
    - now apply categories_In.
    - now apply categories_In_nan. }
  apply In_nth_error in Hcat as (p & Hp). exists p. split; [exact Hp|].
  intros cats row. unfold encode_row. cbn [combine flat_map fst snd].
  f_equal. apply map_indexed. intros q v Hq. cbn [Nat.add]. f_equal.
  destruct (Nat.eqb_spec q p) as [->|Hne].
  - rewrite Hp in Hq. apply some_inj in Hq. subst v.
    destruct x; try contradiction; cbn [same_category].
    + now rewrite String.eqb_refl.
    + reflexivity.
  - assert (same_category x v = false) as ->; [|reflexivity].
    destruct (same_category x v) eqn:E; [|reflexivity].
    exfalso. apply Hne.
    assert (x = v) as Hxv.
    { destruct x; try contradiction.
      - destruct v; cbn [same_category is_number andb] in E;
          try discriminate E.
        apply String.eqb_eq in E. now subst.
      - destruct v; cbn [same_category is_number andb] in E;
          try discriminate E.
        reflexivity. }
    apply (proj1 (NoDup_nth_error (categories xs)) (categories_str_NoDup xs)).
    + apply nth_error_Some. congruence.
    + congruence.
Qed.

Lemma encode_row_one_hot_witness :
  exists p,
    nth_error (categories [CStr "b"; CNaN; CStr "a"; CStr "b"]) p
    = Some (CStr "b")
    /\ forall cats row,
         encode_row (("top"%string,
                      categories [CStr "b"; CNaN; CStr "a"; CStr "b"]) :: cats)
                    (CStr "b" :: row)
         = map (fun q => CFloat (if Nat.eqb q p then 1 else 0))
               (seq 0 (List.length
                         (categories [CStr "b"; CNaN; CStr "a"; CStr "b"])))
           ++ encode_row cats row.
Proof.
  apply (encode_row_one_hot "top" [CStr "b"; CNaN; CStr "a"; CStr "b"]
           (CStr "b")).
  - left. reflexivity.
  - exact I.
Defined.

Lemma drop_columns (names : list string) (df : DataFrame) :
  columns (drop names df)
  = filter (fun c => negb (mem (fst c) names)) (columns df).
Proof. unfold drop. cbn [columns]. apply select_filter. Qed.

Lemma drop_index (names : list string) (df : DataFrame) :
  map fst (rows (drop names df)) = map fst (rows df).
Proof. unfold drop. cbn [rows]. now rewrite map_map. Qed.

Lemma feature_names_float (str_float : Q -> string)
  (cats : list (string * list cell)) (c : string * dtype) :
  In c (feature_names str_float cats) -> snd c = float64.
Proof.
  unfold feature_names. intros H.
  apply in_flat_map in H as (x & _ & H).
  apply in_map_iff in H as (v & <- & _). reflexivity.
Qed.

Lemma join_shape (left right d : DataFrame) :
  join left right = Some d ->
  existsb (fun c => mem (fst c) (column_names right)) (columns left) = false
  /\ columns d = columns left ++ columns right
  /\ map fst (rows d) = map fst (rows left).
Proof.
  unfold join.
  destruct (existsb _ (columns left)); [discriminate|].
  intros H. apply some_inj in H. subst d. cbn [columns rows].
  split; [reflexivity|]. split; [reflexivity|].
  rewrite map_map. reflexivity.
Qed.

Lemma categorical_select (df : DataFrame) :
  select (map is_object (columns df)) (columns df)
  = filter is_object (columns df)
  /\ select (map is_object (columns df)) (frame_columns df)
     = filter (fun c => is_object (fst c)) (frame_columns df).
Proof.
  split; [apply select_filter|].
  unfold frame_columns.
  rewrite <- (col_cells_fst (columns df) (map snd (rows df))) at 1.
  apply (select_map_filter is_object).
Qed.

Lemma kept_not_object (str_float : Q -> string)
  (cols : list (string * dtype)) (cats : list (string * list cell)) :
  Forall (fun c => snd c <> object)
         (filter (fun c => negb (mem (fst c)
                                     (map fst (filter is_object cols))))
                 cols
          ++ feature_names str_float cats).
Proof.
  apply Forall_app. split; apply Forall_forall; intros c Hc.
  - apply filter_In in Hc as (Hin & Hk).
    intros Hobj. apply negb_true_iff in Hk.
    assert (mem (fst c) (map fst (filter is_object cols)) = true) as Hm;
      [|congruence].
    unfold mem. apply existsb_exists. exists (fst c).
    split; [|apply String.eqb_refl].
    apply in_map. apply filter_In. split; [exact Hin|].
    unfold is_object. rewrite Hobj. reflexivity.
  - rewrite (feature_names_float _ _ c Hc). discriminate.
Qed.

(** The table that [encodage] returns, when it returns one. *)
Lemma encodage_shape (str_float : Q -> string) (df d : DataFrame) :
  encodage str_float df = Some d ->
  columns d
  = filter (fun c => negb (mem (fst c)
                              (map fst (filter is_object (columns df)))))
           (columns df)
    ++ feature_names str_float
         (map (fun c => (fst (fst c), categories (snd c)))
              (filter (fun c => is_object (fst c)) (frame_columns df)))
  /\ map fst (rows d) = map fst (rows df).
Proof.
  intros H. apply encodage_some in H.
  destruct (join_shape _ _ _ H) as (_ & Hc & Hi).
  destruct (categorical_select df) as [Hsel Hcols].
  split.
  - rewrite Hc, drop_columns. unfold df_encoded. cbn [columns].
    rewrite Hsel, Hcols. reflexivity.
  - rewrite Hi. apply drop_index.
Qed.

(** X15.  On a table with distinct column names and a categorical
    column, [encodage] fails in exactly three cases: the table has no row; a categorical column holds
    texts and numbers; a column it keeps bears the name of an indicator
    column.  Otherwise it keeps the index of its argument, its header is
    made of the columns whose name is not the name of a categorical
    column, in their order, followed by the indicator columns, and no
    column of the result is categorical. *)
Theorem encodage_result (str_float : Q -> string) (df : DataFrame) :
  NoDup (column_names df) ->
  existsb is_object (columns df) = true ->
  let names := map fst (filter is_object (columns df)) in
  let kept := filter (fun c => negb (mem (fst c) names)) (columns df) in
  let new :=
    feature_names str_float
      (map (fun c => (fst (fst c), categories (snd c)))
           (filter (fun c => is_object (fst c)) (frame_columns df))) in
  (encodage str_float df = None <->
   rows df = []
   \/ (exists col, In col (frame_columns df)
                   /\ is_object (fst col) = true
                   /\ mixed (snd col) = true)
   \/ exists c, In c kept /\ In (fst c) (map fst new))
  /\ forall d,
       encodage str_float df = Some d ->
       columns d = kept ++ new
       /\ map fst (rows d) = map fst (rows df)
       /\ Forall (fun c => snd c <> object) (columns d).
Proof.
  intros _ Hobj names kept new.
  destruct (categorical_select df) as [Hsel Hcols].
  assert (existsb (fun c => mixed (snd c))
                  (select (map is_object (columns df)) (frame_columns df))
          = true
          <-> exists col, In col (frame_columns df)
                          /\ is_object (fst col) = true
                          /\ mixed (snd col) = true) as Hmix.
  { rewrite Hcols, existsb_exists. split.
    - intros (col & Hin & Hm). apply filter_In in Hin as (Hin & Ho).
      now exists col.
    - intros (col & Hin & Ho & Hm). exists col. split; [|exact Hm].
      apply filter_In. now split. }
  assert (existsb (fun c => mem (fst c) (map fst new)) kept = true
          <-> exists c, In c kept /\ In (fst c) (map fst new)) as Hclash.
  { rewrite existsb_exists. split.
    - intros (c & Hc & Hm). exists c. split; [exact Hc|].
      unfold mem in Hm. apply existsb_exists in Hm as (y & Hy & Ey).
      apply String.eqb_eq in Ey. now subst y.
    - intros (c & Hc & Hn). exists c. split; [exact Hc|].
      unfold mem. apply existsb_exists. exists (fst c).
      split; [exact Hn|apply String.eqb_refl]. }
  split.
  - destruct (rows df) as [|r0 rs] eqn:Er.
    { split; [intros _; now left|intros _].
      now apply encodage_no_rows. }
    destruct (existsb (fun c => mixed (snd c))
                      (select (map is_object (columns df))
                              (frame_columns df))) eqn:Em.
    { split; [intros _; right; left; now apply Hmix|intros _].
      now apply encodage_mixed. }
    rewrite (encodage_rows str_float df); [|rewrite Er; discriminate|exact Em].
    unfold join, column_names, df_encoded. cbn [columns].
    rewrite drop_columns, Hsel, Hcols. fold names. fold kept. fold new.
    destruct (existsb (fun c => mem (fst c) (map fst new)) kept) eqn:Ec.
    + split; [intros _; right; right; now apply Hclash|reflexivity].
    + split; [discriminate|].
      intros [H|[H|H]].
      * discriminate H.
      * apply Hmix in H. discriminate H.
      * apply Hclash in H. discriminate H.
  - intros d Hd. destruct (encodage_shape str_float df d Hd) as [Hc Hi].
    fold names in Hc. fold kept in Hc. fold new in Hc.
    split; [exact Hc|]. split; [exact Hi|].
    rewrite Hc. apply kept_not_object.
Qed.

Lemma encodage_result_witness :
  let names := map fst (filter is_object (columns frame_xyz)) in
  let kept := filter (fun c => negb (mem (fst c) names)) (columns frame_xyz) in
  let new :=
    feature_names str_sample
      (map (fun c => (fst (fst c), categories (snd c)))
           (filter (fun c => is_object (fst c)) (frame_columns frame_xyz))) in
  (encodage str_sample frame_xyz = None <->
   rows frame_xyz = []
   \/ (exists col, In col (frame_columns frame_xyz)
                   /\ is_object (fst col) = true
                   /\ mixed (snd col) = true)
   \/ exists c, In c kept /\ In (fst c) (map fst new))
  /\ forall d,
       encodage str_sample frame_xyz = Some d ->
       columns d = kept ++ new
       /\ map fst (rows d) = map fst (rows frame_xyz)
       /\ Forall (fun c => snd c <> object) (columns d).
Proof.
  apply (encodage_result str_sample frame_xyz).
  - repeat constructor; cbn; intuition discriminate.
  - reflexivity.
Defined.

(** ** Scaling *)

Lemma filter_nil_iff {A : Type} (p : A -> bool) (l : list A) :
  filter p l = [] <-> forall x, In x l -> p x = false.
Proof.
  induction l as [|a l IH]; cbn [filter].
  - split; [intros _ x []|reflexivity].
  - destruct (p a) eqn:E; split.
    + discriminate.
    + intros H. specialize (H a (or_introl eq_refl)). congruence.
    + intros H x [<-|Hx]; [exact E|]. now apply (proj1 IH).
    + intros H. apply IH. intros x Hx. apply H. now right.
Qed.

Lemma forallb_false_iff {A : Type} (p : A -> bool) (l : list A) :
  forallb p l = false <-> exists x, In x l /\ p x = false.
Proof.
  induction l as [|a l IH]; cbn [forallb].
  - split; [discriminate|intros (x & [] & _)].
  - destruct (p a) eqn:E; cbn [andb]; split.
    + intros H. apply IH in H as (x & Hx & Hp). exists x. split; [now right|easy].
    + intros (x & [<-|Hx] & Hp); [congruence|]. apply IH. now exists x.
    + intros _. exists a. split; [now left|exact E].
    + reflexivity.
Qed.

Lemma scalable_false (float_of_string : string -> option (option Q))
  (xs : list cell) :
  scalable float_of_string xs = false
  <-> exists s, In (CStr s) xs /\ float_of_string s = None.
Proof.
  unfold scalable. rewrite forallb_false_iff. split.
  - intros (c & Hc & H). destruct c; cbn [to_float64] in H;
      try discriminate H.
    exists s. split; [exact Hc|].
    destruct (float_of_string s); [discriminate H|reflexivity].
  - intros (s & Hs & Hn). exists (CStr s). split; [exact Hs|].
    cbn [to_float64]. rewrite Hn. reflexivity.
Qed.

Lemma frame_columns_names (df : DataFrame) :
  map fst (frame_columns df) = columns df.
Proof. apply col_cells_fst. Qed.

(** X16.  [scaling] fails in exactly three cases: the table has no row; it
    has no column other than [pseudo]; or one of its columns other than
    [pseudo] holds a text that the conversion to float64 refuses.  A text
    that reads as a number is scaled like a number. *)
Theorem scaling_fails (float_of_string : string -> option (option Q))
  (df : DataFrame) :
  scaling float_of_string df = None <->
  rows df = []
  \/ (forall c, In c (columns df) -> fst c = "pseudo"%string)
  \/ exists col s,
       In col (frame_columns df)
       /\ fst (fst col) <> "pseudo"%string
       /\ In (CStr s) (snd col)
       /\ float_of_string s = None.
Proof.
  unfold scaling.
  set (to_scale := filter (fun c : (string * dtype) * list cell =>
                             negb (String.eqb (fst (fst c)) "pseudo"))
                          (frame_columns df)).
  assert (to_scale = []
          <-> forall c, In c (columns df) -> fst c = "pseudo"%string) as Hnone.
  { unfold to_scale. rewrite filter_nil_iff. split.
    - intros H c Hc. rewrite <- frame_columns_names in Hc.
      apply in_map_iff in Hc as (col & <- & Hcol).
      specialize (H col Hcol). apply negb_false_iff in H.
      now apply String.eqb_eq in H.
    - intros H col Hcol. apply negb_false_iff. apply String.eqb_eq.
      apply H. rewrite <- frame_columns_names. now apply in_map. }
  assert (forallb (fun c : (string * dtype) * list cell =>
                     scalable float_of_string (snd c))
                  to_scale = false
          <-> exists col s,
                In col (frame_columns df)
                /\ fst (fst col) <> "pseudo"%string
                /\ In (CStr s) (snd col)
                /\ float_of_string s = None) as Htext.
  { rewrite forallb_false_iff. split.
    - intros (col & Hcol & H). unfold to_scale in Hcol.
      apply filter_In in Hcol as (Hin & Hk).
      apply negb_true_iff in Hk. apply String.eqb_neq in Hk.
      apply scalable_false in H as (s & Hs & Hn). now exists col, s.
    - intros (col & s & Hin & Hk & Hs & Hn). exists col. split.
      + unfold to_scale. apply filter_In. split; [exact Hin|].
        apply negb_true_iff. now apply String.eqb_neq.
      + apply scalable_false. now exists s. }
  destruct (rows df) as [|r rs] eqn:Er.
  - split; [intros _; now left|reflexivity].
  - destruct to_scale as [|c0 cs] eqn:Ec.
    + split; [intros _|reflexivity]. right. left. now apply Hnone.
    + destruct (forallb _ (c0 :: cs)) eqn:Ef.
      * split; [discriminate|].
        intros [H|[H|H]].
        -- discriminate H.
        -- apply Hnone in H. discriminate H.
        -- apply Htext in H. discriminate H.
      * split; [intros _|reflexivity]. right. right. now apply Htext.
Qed.

(** With the sample reader, the texts 1 and 3 are scaled to 0 and 1. *)
Example scaling_numeric_text :
  exists v0 v1,
    option_map rows (scaling float_of_digits frame_digits)
    = Some [ (0, [CStr "A"; CFloat v0]); (1, [CStr "B"; CFloat v1]) ]
    /\ (v0 == 0)%Q /\ (v1 == 1)%Q.
Proof.
  eexists. eexists. split; [vm_compute; reflexivity|].
  split; vm_compute; reflexivity.
Qed.

(** X17.  When [scaling] returns a table, every column that is not called
    [pseudo] has the type float64, and the column [pseudo] is left as it
    is: its name, its type and the cell of every row. *)
Theorem scaling_keeps_key (float_of_string : string -> option (option Q))
  (df d : DataFrame) :
  scaling float_of_string df = Some d ->
  (forall c, In c (columns d) -> fst c = "pseudo"%string \/ snd c = float64)
  /\ (forall j c, nth_error (columns df) j = Some c ->
                  fst c = "pseudo"%string ->
                  nth_error (columns d) j = Some c)
  /\ forall i r r' j c x,
       nth_error (rows df) i = Some r ->
       nth_error (rows d) i = Some r' ->
       nth_error (columns df) j = Some c ->
       fst c = "pseudo"%string ->
       nth_error (snd r) j = Some x ->
       nth_error (snd r') j = Some x.
Proof.
  unfold scaling. intros H.
  destruct (rows df) as [|r0 rs] eqn:Er; [discriminate H|].
  destruct (filter _ (frame_columns df)); [discriminate H|].
  destruct (forallb _ _); [|discriminate H].
  apply some_inj in H. subst d. cbn [columns rows].
  split; [|split].
  - intros c Hc. apply in_map_iff in Hc as (c' & <- & _).
    destruct (String.eqb_spec (fst c') "pseudo") as [E|_]; [now left|now right].
  - intros j c Hj Hc. rewrite nth_error_map, Hj. cbn [option_map].
    rewrite Hc. reflexivity.
  - intros i r r' j c x Hr Hr' Hj Hc Hx.
    rewrite nth_error_map, Hr in Hr'. cbn [option_map] in Hr'.
    apply some_inj in Hr'. subst r'. cbn [snd].
    rewrite nth_error_map.
    assert (exists col, nth_error (frame_columns df) j = Some col
                        /\ fst col = c) as (col & Hcol & Hfst).
    { pose proof (f_equal (fun l => nth_error l j) (frame_columns_names df))
        as E. cbn beta in E. rewrite nth_error_map, Hj in E.
      destruct (nth_error (frame_columns df) j) as [col|]; [|discriminate E].
      exists col. split; [reflexivity|]. now apply some_inj in E. }
    rewrite (nth_error_combine _ _ j None x).
    + reflexivity.
    + rewrite nth_error_map, Hcol. cbn [option_map].
      rewrite Hfst, Hc. reflexivity.
    + exact Hx.
Qed.

Lemma scaling_keeps_key_witness :
  (forall c, In c (columns frame_numeric_scaled) ->
             fst c = "pseudo"%string \/ snd c = float64)
  /\ (forall j c, nth_error (columns frame_numeric) j = Some c ->
                  fst c = "pseudo"%string ->
                  nth_error (columns frame_numeric_scaled) j = Some c)
  /\ forall i r r' j c x,
       nth_error (rows frame_numeric) i = Some r ->
       nth_error (rows frame_numeric_scaled) i = Some r' ->
       nth_error (columns frame_numeric) j = Some c ->
       fst c = "pseudo"%string ->
       nth_error (snd r) j = Some x ->
       nth_error (snd r') j = Some x.
Proof.
  apply (scaling_keeps_key float_of_digits frame_numeric frame_numeric_scaled).
  vm_compute. reflexivity.
Defined.

(** ** Pruning twice *)

Lemma length_select_le {A B : Type} (mask : list bool) (l : list A)
  (cols : list B) :
  List.length mask = List.length cols ->
  (List.length (select mask l) <= List.length (select mask cols))%nat.
Proof.
  revert l cols. induction mask as [|b m IH]; intros l cols H.
  - reflexivity.
  - destruct cols as [|c cols]; [discriminate H|].
    cbn [List.length] in H. apply Nat.succ_inj in H.
    destruct l as [|x l].
    + cbn [select]. destruct b; cbn [List.length]; lia.
    + cbn [select]. specialize (IH l cols H).
      destruct b; cbn [List.length]; lia.
Qed.

Lemma select_all {A B : Type} (cols : list B) (l : list A) :
  (List.length l <= List.length cols)%nat ->
  select (map (fun _ => true) cols) l = l.
Proof.
  revert l. induction cols as [|c cols IH]; intros l H.
  - destruct l; [reflexivity|cbn [List.length] in H; lia].
  - destruct l as [|x l]; [reflexivity|].
    cbn [map select]. f_equal. apply IH. cbn [List.length] in H. lia.
Qed.

(** Dropping no column leaves a table whose rows are not wider than its
    header as it is. *)
Lemma drop_nil (df : DataFrame) :
  Forall (fun r => (List.length (snd r) <= List.length (columns df))%nat)
         (rows df) ->
  drop [] df = df.
Proof.
  intros H. destruct df as [cols rws]. unfold drop. cbn [columns rows] in *.
  assert (map (fun c : string * dtype => negb (mem (fst c) [])) cols
          = map (fun _ => true) cols) as -> by reflexivity.
  f_equal.
  - apply select_all. reflexivity.
  - rewrite <- (map_id rws) at 2. apply map_ext_in. intros [i r] Hr.
    cbn [fst snd]. f_equal. apply select_all.
    exact (proj1 (Forall_forall _ _) H (i, r) Hr).
Qed.

Lemma drop_width (names : list string) (df : DataFrame) :
  Forall (fun r => (List.length (snd r)
                    <= List.length (columns (drop names df)))%nat)
         (rows (drop names df)).
Proof.
  unfold drop. cbn [columns rows]. apply Forall_forall. intros r Hr.
  apply in_map_iff in Hr as (r0 & <- & _). cbn [snd].
  apply length_select_le. apply length_map.
Qed.

Section PruningTwice.

Variable corr : list cell -> list cell -> cell.

(** Among the numeric columns that are kept, no later column has a
    coefficient of magnitude 1 with an earlier one. *)
Lemma kept_pairs (m : list ((string * dtype) * list cell)) (p q : nat) :
  let keep := fun c : (string * dtype) * list cell =>
                negb (mem (fst (fst c)) (columns_to_drop corr m)) in
  (p < q < List.length (filter keep m))%nat ->
  abs_is_one (corr (snd (nth q (filter keep m) no_column))
                   (snd (nth p (filter keep m) no_column)))
  = false.
Proof.
  intros keep Hpq.
  destruct (filter_nth_order keep m no_column p q Hpq)
    as (p' & q' & Hlt & Ep & Eq).
  assert (keep (nth q (filter keep m) no_column) = true) as Hk.
  { assert (In (nth q (filter keep m) no_column) (filter keep m)) as Hin
        by (apply nth_In; lia).
    exact (proj2 (proj1 (filter_In _ _ _) Hin)). }
  rewrite Ep, Eq. rewrite Eq in Hk.
  destruct (abs_is_one _) eqn:E; [|reflexivity].
  unfold keep in Hk. apply negb_true_iff in Hk.
  assert (In (fst (fst (nth q' m no_column))) (columns_to_drop corr m)) as Hin.
  { apply columns_to_drop_In. exists q', p'.
    split; [lia|]. split; [reflexivity|exact E]. }
  assert (mem (fst (fst (nth q' m no_column))) (columns_to_drop corr m)
          = true) as Hex.
  { unfold mem. apply existsb_exists.
    eexists. split; [exact Hin|apply String.eqb_refl]. }
  congruence.
Qed.

Lemma nothing_left_to_drop (df : DataFrame) :
  columns_to_drop corr
    (numeric_columns (enlever_correlations_complets corr df))
  = [].
Proof.
  destruct (columns_to_drop corr
              (numeric_columns (enlever_correlations_complets corr df)))
    as [|nm l] eqn:E; [reflexivity|].
  exfalso.
  assert (In nm (columns_to_drop corr
                   (numeric_columns (enlever_correlations_complets corr df))))
    as Hin by (rewrite E; now left).
  apply columns_to_drop_In in Hin as (i & j & Hlt & _ & Hone).
  unfold iloc in Hone. rewrite numeric_columns_pruned in Hone, Hlt.
  pose proof (kept_pairs (numeric_columns df) j i Hlt) as K.
  unfold no_column in K. cbv zeta in K. rewrite K in Hone.
  discriminate Hone.
Qed.

(** X18.  Pruning is idempotent, for any way of computing the correlation
    coefficients: the table that [enlever_correlations_complets] returns
    has no pair of numeric columns left to prune, so that pruning it again
    returns it unchanged; and pruning keeps the index of the table. *)
Theorem enlever_correlations_complets_twice (df : DataFrame) :
  enlever_correlations_complets corr (enlever_correlations_complets corr df)
  = enlever_correlations_complets corr df
  /\ columns_to_drop corr
       (numeric_columns (enlever_correlations_complets corr df))
     = []
  /\ map fst (rows (enlever_correlations_complets corr df))
     = map fst (rows df).
Proof.
  split; [|split].
  - unfold enlever_correlations_complets at 1.
    rewrite nothing_left_to_drop.
    apply drop_nil. unfold enlever_correlations_complets. apply drop_width.
  - apply nothing_left_to_drop.
  - unfold enlever_correlations_complets. apply drop_index.
Qed.

End PruningTwice.

(** ** The whole transformation *)

Lemma scaling_shape (float_of_string : string -> option (option Q))
  (df d : DataFrame) :
  scaling float_of_string df = Some d ->
  map fst (rows d) = map fst (rows df)
  /\ columns d
     = map (fun c => if String.eqb (fst c) "pseudo" then c
                     else (fst c, float64))
           (columns df).
Proof.
  unfold scaling. intros H.
  destruct (rows df) as [|r0 rs] eqn:Er; [discriminate H|].
  destruct (filter _ (frame_columns df)); [discriminate H|].
  destruct (forallb _ _); [|discriminate H].
  apply some_inj in H. subst d. cbn [columns rows].
  split; [|reflexivity]. rewrite map_map. reflexivity.
Qed.

(** X19.  When [df_transformer] returns a table for a table that still has
    a categorical column after pruning, the result has the index of the
    argument, row by row, and every column of the result has the type
    float64, except a column called [pseudo], which is not categorical. *)
Theorem df_transformer_result (corr : list cell -> list cell -> cell)
  (str_float : Q -> string)
  (float_of_string : string -> option (option Q))
  (df d : DataFrame) :
  existsb is_object (columns (enlever_correlations_complets corr df)) = true ->
  df_transformer corr str_float float_of_string df = Some d ->
  map fst (rows d) = map fst (rows df)
  /\ List.length (rows d) = List.length (rows df)
  /\ forall c, In c (columns d) ->
               snd c = float64
               \/ (fst c = "pseudo"%string /\ snd c <> object).
Proof.
  intros _ H. unfold df_transformer in H.
  destruct (encodage str_float (enlever_correlations_complets corr df))
    as [e|] eqn:Ee; [|discriminate H].
  destruct (scaling_shape float_of_string e d H) as (Hidx & Hcols).
  destruct (encodage_shape str_float _ e Ee) as (Hce & Hie).
  assert (map fst (rows d) = map fst (rows df)) as Hindex.
  { rewrite Hidx, Hie. unfold enlever_correlations_complets.
    apply drop_index. }
  split; [exact Hindex|]. split.
  - rewrite <- (length_map fst (rows d)), Hindex. apply length_map.
  - intros c Hc. rewrite Hcols in Hc.
    apply in_map_iff in Hc as (c' & <- & Hc').
    rewrite Hce in Hc'.
    pose proof (proj1 (Forall_forall _ _)
                  (kept_not_object str_float
                     (columns (enlever_correlations_complets corr df)) _)
                  c' Hc') as Hno.
    destruct (String.eqb_spec (fst c') "pseudo") as [E|_].
    + right. split; [exact E|exact Hno].
    + left. reflexivity.
Qed.

Lemma df_transformer_result_witness :
  map fst (rows frame_xyz_transformed) = map fst (rows frame_xyz)
  /\ List.length (rows frame_xyz_transformed) = List.length (rows frame_xyz)
  /\ forall c, In c (columns frame_xyz_transformed) ->
               snd c = float64
               \/ (fst c = "pseudo"%string /\ snd c <> object).
Proof.
  apply (df_transformer_result (pearson sqrt_exact) str_sample
           float_of_digits frame_xyz frame_xyz_transformed).
  - vm_compute. reflexivity.
  - vm_compute. reflexivity.
Defined.

(** * Properties of the train and test sets *)

Lemma take_app {A : Type} (i1 i2 : list nat) (l : list A) :
  take (i1 ++ i2) l = take i1 l ++ take i2 l.
Proof. unfold take. apply flat_map_app. Qed.

Lemma take_map {A B : Type} (f : A -> B) (idx : list nat) (l : list A) :
  take idx (map f l) = map f (take idx l).
Proof.
  unfold take. induction idx as [|i idx IH]; [reflexivity|].
  cbn [flat_map]. rewrite map_app, IH, nth_error_map.
  destruct (nth_error l i); reflexivity.
Qed.

Lemma take_seq_from {A : Type} (l1 l2 : list A) :
  take (seq (List.length l1) (List.length l2)) (l1 ++ l2) = l2.
Proof.
  revert l1. induction l2 as [|x l2 IH]; intros l1; [reflexivity|].
  cbn [List.length seq]. unfold take. cbn [flat_map].
  rewrite nth_error_app2 by lia. rewrite Nat.sub_diag. cbn [nth_error app].
  f_equal.
  specialize (IH (l1 ++ [x])).
  rewrite length_app, <- app_assoc in IH. cbn [List.length app] in IH.
  rewrite Nat.add_1_r in IH. exact IH.
Qed.

Lemma take_seq {A : Type} (l : list A) :
  take (seq 0 (List.length l)) l = l.
Proof. exact (take_seq_from [] l). Qed.

Lemma take_positions (idx : list nat) (n : nat) :
  (forall i, In i idx -> (i < n)%nat) ->
  take idx (seq 0 n) = idx.
Proof.
  intros H. unfold take. induction idx as [|i idx IH]; [reflexivity|].
  cbn [flat_map]. rewrite nth_error_seq.
  assert (i < n)%nat as Hi by (apply H; now left).
  apply Nat.ltb_lt in Hi. rewrite Hi. cbn [app Nat.add]. f_equal.
  apply IH. intros j Hj. apply H. now right.
Qed.

Lemma take_permutation {A : Type} (idx : list nat) (l : list A) :
  Permutation idx (seq 0 (List.length l)) ->
  Permutation (take idx l) l.
Proof.
  intros H. rewrite <- (take_seq l) at 2.
  unfold take. now apply Permutation_flat_map.
Qed.

Lemma n_test_bounds (n : nat) :
  (n - n_test n <> 0)%nat ->
  (2 <= n /\ 1 <= n_test n /\ n_test n < n)%nat.
Proof.
  unfold n_test. intros H.
  pose proof (Nat.div_mod_eq (n + 4) 5).
  pose proof (Nat.mod_upper_bound (n + 4) 5).
  lia.
Qed.

Lemma getitem_index (name : string) (df : DataFrame) (y : Series) :
  getitem name df = Some y -> map fst y = map fst (rows df).
Proof.
  unfold getitem. destruct (find_col name (columns df)); [|discriminate].
  intros H. apply some_inj in H. subst y. now rewrite map_map.
Qed.

Lemma merge_inner_index (left right m : DataFrame) :
  merge_inner left right = Some m ->
  map fst (rows m) = map Z.of_nat (seq 0 (List.length (rows m))).
Proof.
  unfold merge_inner.
  destruct (find_col "pseudo" (columns left)); [|discriminate].
  destruct (find_col "pseudo" (columns right)); [|discriminate].
  intros H. apply some_inj in H. subst m. cbn [rows].
  now rewrite range_index_fst, range_index_length.
Qed.

Lemma drop_names (names : list string) (df : DataFrame) (c : string) :
  In c names -> ~ In c (column_names (drop names df)).
Proof.
  intros Hc Hin. unfold column_names in Hin. rewrite drop_columns in Hin.
  apply in_map_iff in Hin as (x & <- & Hx).
  apply filter_In in Hx as (_ & Hk). apply negb_true_iff in Hk.
  assert (mem (fst x) names = true) as Hm; [|congruence].
  unfold mem. apply existsb_exists. exists (fst x).
  split; [exact Hc|apply String.eqb_refl].
Qed.

(** X20.  When [separation_train_test] returns, the merged table has at
    least two rows.  The test set holds ceil(n / 5) of its n rows, at
    least one, and the training set all the others, at least one: every
    row of the merged table, without its columns [pseudo] and [note], is
    in exactly one of the two sets, and so is every mark.  The rows keep
    the labels of the merged table, which are the shuffled positions, and
    the marks carry the labels of the rows of their set in the same
    order.  Neither set has a column [pseudo] or [note]. *)
Theorem separation_train_test_split (permutation : nat -> list nat)
  (df df_notes X_train X_test : DataFrame) (y_train y_test : Series) :
  (forall n, Permutation (permutation n) (seq 0 n)) ->
  separation_train_test permutation df df_notes
  = Some (X_train, X_test, y_train, y_test) ->
  exists df_all y,
    merge_inner df df_notes = Some df_all
    /\ getitem "note" df_all = Some y
    /\ let X := drop ["note"; "pseudo"]%string df_all in
       let n := List.length (rows df_all) in
       (2 <= n)%nat
       /\ List.length (rows X_test) = n_test n
       /\ List.length (rows X_train) = (n - n_test n)%nat
       /\ (1 <= List.length (rows X_test))%nat
       /\ (1 <= List.length (rows X_train))%nat
       /\ Permutation (rows X_train ++ rows X_test) (rows X)
       /\ Permutation (y_train ++ y_test) y
       /\ map fst (rows X_train)
          = map Z.of_nat (skipn (n_test n) (permutation n))
       /\ map fst (rows X_test)
          = map Z.of_nat (firstn (n_test n) (permutation n))
       /\ map fst y_train = map fst (rows X_train)
       /\ map fst y_test = map fst (rows X_test)
       /\ columns X_train = columns X
       /\ columns X_test = columns X
       /\ ~ In "pseudo"%string (column_names X)
       /\ ~ In "note"%string (column_names X).
Proof.
  intros Hperm H. unfold separation_train_test in H.
  destruct (merge_inner df df_notes) as [df_all|] eqn:Em; [|discriminate H].
  destruct (getitem "note" df_all) as [y|] eqn:Ey; [|discriminate H].
  exists df_all, y. split; [reflexivity|]. split; [exact Ey|].
  cbv zeta.
  set (X := drop ["note"; "pseudo"]%string df_all) in *.
  set (n := List.length (rows df_all)).
  assert (List.length (rows X) = n) as Hn.
  { unfold X, drop. cbn [rows]. apply length_map. }
  assert (List.length y = n) as Hy.
  { rewrite <- (length_map fst y), (getitem_index _ _ _ Ey). apply length_map. }
  unfold train_test_split in H. rewrite Hn in H.
  destruct (Nat.eqb_spec (n - n_test n) 0) as [|Hne]; [discriminate H|].
  destruct (n_test_bounds n Hne) as (Hn2 & Ht1 & Htn).
  pose proof (Hperm n) as HP.
  assert (List.length (permutation n) = n) as HlenP.
  { rewrite (Permutation_length HP). apply length_seq. }
  assert (firstn (n - n_test n) (skipn (n_test n) (permutation n))
          = skipn (n_test n) (permutation n)) as Htrain.
  { apply firstn_all2. rewrite length_skipn, HlenP. lia. }
  rewrite Htrain in H.
  set (ind_test := firstn (n_test n) (permutation n)) in *.
  set (ind_train := skipn (n_test n) (permutation n)) in *.
  assert (Permutation (ind_train ++ ind_test) (seq 0 n)) as Hall.
  { eapply Permutation_trans; [apply Permutation_app_comm|].
    unfold ind_test, ind_train. rewrite firstn_skipn. exact HP. }
  assert (forall i, In i (ind_train ++ ind_test) -> (i < n)%nat) as Hrange.
  { intros i Hi. apply (Permutation_in _ Hall) in Hi.
    apply in_seq in Hi. lia. }
  assert (map fst (rows X) = map Z.of_nat (seq 0 n)) as HidxX.
  { unfold X. rewrite drop_index. exact (merge_inner_index _ _ _ Em). }
  assert (forall idx, (forall i, In i idx -> (i < n)%nat) ->
                      map fst (take idx (rows X)) = map Z.of_nat idx) as HtX.
  { intros idx Hidx. rewrite <- take_map, HidxX, take_map.
    now rewrite take_positions. }
  assert (forall idx, map fst (take idx y) = map fst (take idx (rows X)))
    as HtY.
  { intros idx. rewrite <- !take_map. f_equal.
    rewrite (getitem_index _ _ _ Ey). unfold X. now rewrite drop_index. }
  apply some_inj in H.
  assert (X_train = {| columns := columns X; rows := take ind_train (rows X) |})
    as -> by exact (eq_sym (f_equal (fun t => fst (fst (fst t))) H)).
  assert (X_test = {| columns := columns X; rows := take ind_test (rows X) |})
    as -> by exact (eq_sym (f_equal (fun t => snd (fst (fst t))) H)).
  assert (y_train = take ind_train y)
    as -> by exact (eq_sym (f_equal (fun t => snd (fst t)) H)).
  assert (y_test = take ind_test y)
    as -> by exact (eq_sym (f_equal (fun t => snd t) H)).
  clear H. cbn [rows columns].
  assert (map fst (take ind_train (rows X)) = map Z.of_nat ind_train) as Htr.
  { apply HtX. intros i Hi. apply Hrange. apply in_or_app. now left. }
  assert (map fst (take ind_test (rows X)) = map Z.of_nat ind_test) as Hte.
  { apply HtX. intros i Hi. apply Hrange. apply in_or_app. now right. }
  assert (List.length (take ind_test (rows X)) = n_test n) as Hlte.
  { rewrite <- (length_map fst), Hte, length_map. unfold ind_test.
    apply firstn_length_le. lia. }
  assert (List.length (take ind_train (rows X)) = (n - n_test n)%nat) as Hltr.
  { rewrite <- (length_map fst), Htr, length_map. unfold ind_train.
    rewrite length_skipn. lia. }
  split; [exact Hn2|]. split; [exact Hlte|]. split; [exact Hltr|].
  split; [lia|]. split; [lia|]. split.
  { rewrite <- take_app. apply take_permutation. rewrite Hn. exact Hall. }
  split.
  { rewrite <- take_app. apply take_permutation. rewrite Hy. exact Hall. }
  split; [exact Htr|]. split; [exact Hte|].
  split; [apply HtY|]. split; [apply HtY|].
  split; [reflexivity|]. split; [reflexivity|]. split.
  - apply drop_names. right. now left.
  - apply drop_names. now left.
Qed.

Lemma separation_train_test_split_witness :
  exists df_all y,
    merge_inner frame_left frame_notes = Some df_all
    /\ getitem "note" df_all = Some y
    /\ let X := drop ["note"; "pseudo"]%string df_all in
       let n := List.length (rows df_all) in
       (2 <= n)%nat
       /\ List.length (rows (snd (fst (fst split_AC)))) = n_test n
       /\ List.length (rows (fst (fst (fst split_AC)))) = (n - n_test n)%nat
       /\ (1 <= List.length (rows (snd (fst (fst split_AC)))))%nat
       /\ (1 <= List.length (rows (fst (fst (fst split_AC)))))%nat
       /\ Permutation (rows (fst (fst (fst split_AC)))
                       ++ rows (snd (fst (fst split_AC))))
                      (rows X)
       /\ Permutation (snd (fst split_AC) ++ snd split_AC) y
       /\ map fst (rows (fst (fst (fst split_AC))))
          = map Z.of_nat (skipn (n_test n) (reversed n))
       /\ map fst (rows (snd (fst (fst split_AC))))
          = map Z.of_nat (firstn (n_test n) (reversed n))
       /\ map fst (snd (fst split_AC))
          = map fst (rows (fst (fst (fst split_AC))))
       /\ map fst (snd split_AC) = map fst (rows (snd (fst (fst split_AC))))
       /\ columns (fst (fst (fst split_AC))) = columns X
       /\ columns (snd (fst (fst split_AC))) = columns X
       /\ ~ In "pseudo"%string (column_names X)
       /\ ~ In "note"%string (column_names X).
Proof.
  apply (separation_train_test_split reversed frame_left frame_notes
           (fst (fst (fst split_AC))) (snd (fst (fst split_AC)))
           (snd (fst split_AC)) (snd split_AC)).
  - intros n. unfold reversed. symmetry. apply Permutation_rev.
  - vm_compute. reflexivity.
Defined.

(** ** When the split fails *)









(** ** The merged table *)






(** * The variability of the activity *)

Lemma ssd_nonneg (l : list Q) : (0 <= ssd l)%Q.
Proof.
  unfold ssd. apply Qsum_nonneg. intros x Hx.
  apply in_map_iff in Hx as (y & <- & _).
  set (z := (y - Qmean l)%Q).
  destruct (Qlt_le_dec z 0) as [Hz|Hz].
  - setoid_replace (z * z)%Q with ((- z) * (- z))%Q by ring.
    apply Qmult_le_0_compat; lra.
  - apply Qmult_le_0_compat; exact Hz.
Qed.

(** X23.  For a subject with at least one event, [std_actions_par_jour] is
    missing exactly when the subject has one active day; with two active
    days or more it is the square root of the sum of the squared
    deviations of the daily counts from their mean, divided by the number
    of active days minus one, a quantity that is never negative. *)
Theorem variabilite_activite_defined (sqrt_float : Q -> Q) (df_logs : Logs)
  (s : string) :
  In s (map pseudo (events df_logs)) ->
  let g := group s (events df_logs) in
  let counts := map (fun d => inject_Z (count_on d g)) (days_of g) in
  let n := nunique_Z (map jour g) in
  (n = 1
   /\ cell_at (variabilite_activite sqrt_float df_logs) s
              "std_actions_par_jour" = Some CNaN)
  \/ (2 <= n
      /\ exists v,
           cell_at (variabilite_activite sqrt_float df_logs) s
                   "std_actions_par_jour" = Some (CFloat (sqrt_float v))
           /\ v = (ssd counts / inject_Z (n - 1))%Q
           /\ (0 <= v)%Q).
Proof.
  intros Hs g counts n.
  rewrite (variabilite_activite_at sqrt_float df_logs s Hs).
  fold g. change (map _ (unique_sorted_Z (map jour g))) with counts.
  assert (size counts = n) as Hsize.
  { unfold counts, size. rewrite length_map. apply days_of_length. }
  assert (1 <= n) as Hn.
  { unfold n. rewrite <- days_of_length.
    pose proof (days_of_nonempty g (group_nonempty s _ Hs)) as Hd.
    unfold size. destruct (days_of g); [now elim Hd|].
    cbn [List.length]. lia. }
  unfold std. rewrite Hsize.
  destruct (Z.leb_spec n 1) as [Hle|Hgt].
  - left. split; [lia|reflexivity].
  - right. split; [lia|].
    exists (ssd counts / inject_Z (n - 1))%Q.
    split; [reflexivity|]. split; [reflexivity|].
    apply Qle_shift_div_l.
    + unfold Qlt. simpl. lia.
    + rewrite Qmult_0_l. apply ssd_nonneg.
Qed.

Lemma variabilite_activite_defined_witness :
  let g := group "A" (events logs_AB) in
  let counts := map (fun d => inject_Z (count_on d g)) (days_of g) in
  let n := nunique_Z (map jour g) in
  (n = 1
   /\ cell_at (variabilite_activite sqrt_exact logs_AB) "A"
              "std_actions_par_jour" = Some CNaN)
  \/ (2 <= n
      /\ exists v,
           cell_at (variabilite_activite sqrt_exact logs_AB) "A"
                   "std_actions_par_jour" = Some (CFloat (sqrt_exact v))
           /\ v = (ssd counts / inject_Z (n - 1))%Q
           /\ (0 <= v)%Q).
Proof.
  apply (variabilite_activite_defined sqrt_exact logs_AB "A").
  simpl. auto.
Defined.
